(** * LayerZero OFT MCP server: a shallow embedding of [utils.ts] and of the
    two tool handlers of [index.ts], with the properties of the design
    document stated and proved over it.

    Layout
    - [Js]      JavaScript values the code manipulates: strings as sequences
                of UTF-16 code units, thrown errors, results of calls that
                may throw.
    - [Ethers]  the functions of the ethers v6 library the code calls
                ([getBytes], [hexlify], [zeroPadValue], [toUtf8Bytes],
                [keccak256], [parseUnits], [formatUnits], [solidityPacked]).
    - [Utils]   [utils.ts]: [NETWORKS], [getNetworkConfig], [getSigner],
                [formatAddressForLayerZero].
    - [Server]  [index.ts]: the [deploy-and-configure-oft-multichain] and
                [bridge-oft] handlers, over a monad that threads the list of
                external calls made so far and the handler's local arrays. *)

From Stdlib Require Import String Ascii DecimalString DecimalPos.
From Stdlib Require Import ZArith List Bool Lia.
Import ListNotations.
Local Open Scope Z_scope.

(* ===================================================================== *)
(** * JavaScript values *)
(* ===================================================================== *)

Module Js.

(** A JavaScript string is a sequence of UTF-16 code units. *)
Definition jsstring := list Z.

(** String literals of the source are ASCII; [js] gives their code units. *)
Definition js (s : string) : jsstring :=
  map (fun a => Z.of_N (N_of_ascii a)) (list_ascii_of_string s).

Definition jseq (a b : jsstring) : bool :=
  if list_eq_dec Z.eq_dec a b then true else false.

(** [s.startsWith(p)] *)
Fixpoint startsWith (s p : jsstring) : bool :=
  match p, s with
  | [], _ => true
  | c :: p', d :: s' => (c =? d) && startsWith s' p'
  | _ :: _, [] => false
  end.

(** [s.includes(p)] *)
Fixpoint includes (s p : jsstring) : bool :=
  startsWith s p ||
  match s with
  | [] => false
  | _ :: s' => includes s' p
  end.

(** [xs.join(sep)] *)
Fixpoint join (sep : jsstring) (xs : list jsstring) : jsstring :=
  match xs with
  | [] => []
  | [x] => x
  | x :: rest => x ++ sep ++ join sep rest
  end.

(** [String(n)] for an integer (a [number] holding an integer, or a
    [bigint]): decimal digits, with a leading minus sign when negative. *)
Definition ofZ (n : Z) : jsstring := js (NilZero.string_of_int (Z.to_int n)).

(** A thrown value.  [ErrorObj name message] is an [Error] instance, whose
    [toString()] is [name] when the message is empty; [Thrown text] is any
    other thrown value, without a [message], whose [toString()] is [text]. *)
Inductive JsError : Type :=
| ErrorObj (name message : jsstring)
| Thrown (text : jsstring).

(** [new Error(msg)] *)
Definition newError (msg : jsstring) : JsError := ErrorObj (js "Error") msg.

(** [error.message || error.toString()] *)
Definition errText (e : JsError) : jsstring :=
  match e with
  | ErrorObj name [] => name
  | ErrorObj _ msg => msg
  | Thrown text => text
  end.

(** The result of evaluating an expression that may throw. *)
Inductive Result (A : Type) : Type :=
| Ok (a : A)
| Throw (e : JsError).
Arguments Ok {A} a.
Arguments Throw {A} e.

Definition rbind {A B} (r : Result A) (k : A -> Result B) : Result B :=
  match r with
  | Ok a => k a
  | Throw e => Throw e
  end.

Definition isOk {A} (r : Result A) : bool :=
  match r with Ok _ => true | Throw _ => false end.

End Js.
Import Js.

(* ===================================================================== *)
(** * The ethers v6 functions used by the code *)
(* ===================================================================== *)

(** Errors thrown by the library carry its short message; the details the
    library appends to it (argument name and value, error code, version) are
    left out. *)
Module Ethers.

(** Bytes are integers in [0, 256). *)
Definition bytes := list Z.

Definition isByte (b : Z) : Prop := 0 <= b < 256.

(** ** Hexadecimal strings *)

Definition hexVal (c : Z) : option Z :=
  if (48 <=? c) && (c <=? 57) then Some (c - 48)
  else if (97 <=? c) && (c <=? 102) then Some (c - 87)
  else if (65 <=? c) && (c <=? 70) then Some (c - 55)
  else None.

(** [HexCharacters[n]], with [HexCharacters = "0123456789abcdef"]. *)
Definition hexChar (n : Z) : Z := if n <? 10 then 48 + n else 87 + n.

Fixpoint hexPairs (s : jsstring) : option bytes :=
  match s with
  | [] => Some []
  | a :: b :: rest =>
      match hexVal a, hexVal b, hexPairs rest with
      | Some h, Some l, Some bs => Some (16 * h + l :: bs)
      | _, _, _ => None
      end
  | [_] => None
  end.

(** [getBytes(value)] on a string: the string must have an even length and
    match [/^0x[0-9a-f]*$/i]; each pair of digits is one byte. *)
Definition invalidBytesLike : JsError :=
  ErrorObj (js "TypeError") (js "invalid BytesLike value").

Definition getBytes (value : jsstring) : Result bytes :=
  match value with
  | zero :: x :: digits =>
      if (zero =? 48) && ((x =? 120) || (x =? 88)) then
        match hexPairs digits with
        | Some bs => Ok bs
        | None => Throw invalidBytesLike
        end
      else Throw invalidBytesLike
  | _ => Throw invalidBytesLike
  end.

Definition hexDigits (bs : bytes) : jsstring :=
  flat_map (fun b => [hexChar (Z.shiftr b 4); hexChar (Z.land b 15)]) bs.

(** [hexlify(bytes)] *)
Definition hexlify (bs : bytes) : jsstring := js "0x" ++ hexDigits bs.

(** [zeroPad(data, length, left = true)], which is [zeroPadValue]. *)
Definition zeroPadValue (data : jsstring) (len : nat) : Result jsstring :=
  rbind (getBytes data) (fun bs =>
    if (length bs <=? len)%nat then
      Ok (hexlify (repeat 0 (len - length bs) ++ bs))
    else Throw (ErrorObj (js "RangeError") (js "padding exceeds data length"))).

(** [solidityPacked(["bytes", "bytes"], [a, b])] *)
Definition solidityPacked2 (a b : jsstring) : Result jsstring :=
  rbind (getBytes a) (fun xa =>
  rbind (getBytes b) (fun xb =>
    Ok (hexlify (xa ++ xb)))).

(** ** [toUtf8Bytes(str)]

    The loop over the code units of [str]: one byte below 0x80, two below
    0x800, four for a surrogate pair (a high surrogate that is not followed
    by a low one is rejected), three otherwise. *)
Definition invalidSurrogate : JsError :=
  ErrorObj (js "TypeError") (js "invalid surrogate pair").

Fixpoint toUtf8Bytes (str : jsstring) : Result bytes :=
  match str with
  | [] => Ok []
  | c :: rest =>
      if c <? 0x80 then
        rbind (toUtf8Bytes rest) (fun bs => Ok (c :: bs))
      else if c <? 0x800 then
        rbind (toUtf8Bytes rest) (fun bs =>
          Ok (Z.lor (Z.shiftr c 6) 0xc0 :: Z.lor (Z.land c 0x3f) 0x80 :: bs))
      else if Z.land c 0xfc00 =? 0xd800 then
        match rest with
        | c2 :: rest' =>
            if Z.land c2 0xfc00 =? 0xdc00 then
              let pair := 0x10000 + Z.shiftl (Z.land c 0x03ff) 10 + Z.land c2 0x03ff in
              rbind (toUtf8Bytes rest') (fun bs =>
                Ok (Z.lor (Z.shiftr pair 18) 0xf0
                    :: Z.lor (Z.land (Z.shiftr pair 12) 0x3f) 0x80
                    :: Z.lor (Z.land (Z.shiftr pair 6) 0x3f) 0x80
                    :: Z.lor (Z.land pair 0x3f) 0x80 :: bs))
            else Throw invalidSurrogate
        | [] => Throw invalidSurrogate
        end
      else
        rbind (toUtf8Bytes rest) (fun bs =>
          Ok (Z.lor (Z.shiftr c 12) 0xe0
              :: Z.lor (Z.land (Z.shiftr c 6) 0x3f) 0x80
              :: Z.lor (Z.land c 0x3f) 0x80 :: bs))
  end.

(** ** [keccak256]

    Keccak-f[1600] over 25 lanes of 64 bits (lane [x + 5 * y]), rate 136
    bytes, padding 0x01 .. 0x80, 32 bytes of output. *)
Module Keccak.

Definition lane (st : list Z) (i : nat) : Z := nth i st 0.

Definition rotl64 (x : Z) (n : Z) : Z :=
  Z.land (Z.lor (Z.shiftl x n) (Z.shiftr x (64 - n))) (Z.ones 64).

Definition idx : list nat := seq 0 25.

Definition theta (st : list Z) : list Z :=
  let C x :=
    Z.lxor (lane st x)
      (Z.lxor (lane st (x + 5))
         (Z.lxor (lane st (x + 10))
            (Z.lxor (lane st (x + 15)) (lane st (x + 20))))) in
  let D x := Z.lxor (C ((x + 4) mod 5)%nat) (rotl64 (C ((x + 1) mod 5)%nat) 1) in
  map (fun i => Z.lxor (lane st i) (D (i mod 5)%nat)) idx.

Definition rotc : list Z :=
  [ 0;  1; 62; 28; 27;
   36; 44;  6; 55; 20;
    3; 10; 43; 25; 39;
   41; 45; 15; 21;  8;
   18;  2; 61; 56; 14].

(** rho and pi: the lane at [(x, y)] moves to [(y, 2x + 3y)], rotated; the
    lane that arrives at [(X, Y)] comes from [x = X + 3Y], [y = X]. *)
Definition rhopi (st : list Z) : list Z :=
  map (fun j =>
         let X := (j mod 5)%nat in
         let Y := (j / 5)%nat in
         let src := (((X + 3 * Y) mod 5) + 5 * X)%nat in
         rotl64 (lane st src) (nth src rotc 0)) idx.

Definition chi (st : list Z) : list Z :=
  map (fun i =>
         let x := (i mod 5)%nat in
         let y := (i / 5)%nat in
         Z.lxor (lane st i)
           (Z.land (Z.lxor (lane st (((x + 1) mod 5) + 5 * y)) (Z.ones 64))
                   (lane st (((x + 2) mod 5) + 5 * y)))) idx.

Definition iota (rc : Z) (st : list Z) : list Z :=
  match st with
  | a :: rest => Z.lxor a rc :: rest
  | [] => []
  end.

Definition RC : list Z :=
  [0x0000000000000001; 0x0000000000008082; 0x800000000000808A;
   0x8000000080008000; 0x000000000000808B; 0x0000000080000001;
   0x8000000080008081; 0x8000000000008009; 0x000000000000008A;
   0x0000000000000088; 0x0000000080008009; 0x000000008000000A;
   0x000000008000808B; 0x800000000000008B; 0x8000000000008089;
   0x8000000000008003; 0x8000000000008002; 0x8000000000000080;
   0x000000000000800A; 0x800000008000000A; 0x8000000080008081;
   0x8000000000008080; 0x0000000080000001; 0x8000000080008008].

Definition round (st : list Z) (rc : Z) : list Z :=
  iota rc (chi (rhopi (theta st))).

Definition keccak_f (st : list Z) : list Z := fold_left round RC st.

(** Eight bytes, little endian, as one lane. *)
Fixpoint laneOfBytes (bs : bytes) : Z :=
  match bs with
  | [] => 0
  | b :: rest => Z.lor b (Z.shiftl (laneOfBytes rest) 8)
  end.

Definition rate : nat := 136.

Definition blockLanes (block : bytes) : list Z :=
  map (fun i => laneOfBytes (firstn 8 (skipn (8 * i) block))) (seq 0 17).

Definition absorbBlock (st : list Z) (block : bytes) : list Z :=
  let bl := blockLanes block in
  keccak_f (map (fun i => Z.lxor (lane st i) (nth i bl 0)) idx).

Fixpoint absorb (fuel : nat) (st : list Z) (msg : bytes) : list Z :=
  match fuel, msg with
  | S fuel', _ :: _ => absorb fuel' (absorbBlock st (firstn rate msg)) (skipn rate msg)
  | _, _ => st
  end.

Definition pad (msg : bytes) : bytes :=
  let r := (rate - (length msg mod rate))%nat in
  if (r =? 1)%nat then msg ++ [0x81]
  else msg ++ [0x01] ++ repeat 0 (r - 2) ++ [0x80].

Definition squeeze (st : list Z) : bytes :=
  map (fun i => Z.land (Z.shiftr (lane st (i / 8)) (8 * Z.of_nat (i mod 8))) 255)
      (seq 0 32).

Definition digest (msg : bytes) : bytes :=
  let padded := pad msg in
  squeeze (absorb (length padded) (repeat 0 25) padded).

End Keccak.

(** [keccak256(data)] of a byte array, as a hex string. *)
Definition keccak256 (data : bytes) : jsstring := hexlify (Keccak.digest data).

(** ** [parseUnits] and [formatUnits] *)

Definition isDigit (c : Z) : bool := (48 <=? c) && (c <=? 57).

Fixpoint takeDigits (s : jsstring) : jsstring * jsstring :=
  match s with
  | c :: rest =>
      if isDigit c then
        let (ds, tail) := takeDigits rest in (c :: ds, tail)
      else ([], s)
  | [] => ([], [])
  end.

(** [BigInt(digits)] for a string of decimal digits. *)
Definition digitsToZ (ds : jsstring) : Z :=
  fold_left (fun acc c => 10 * acc + (c - 48)) ds 0.

(** [while (decimal.length < decimals) { decimal += "0000"; }] *)
Fixpoint padRight (fuel : nat) (decimal : jsstring) (decimals : nat) : jsstring :=
  match fuel with
  | O => decimal
  | S fuel' =>
      if (length decimal <? decimals)%nat
      then padRight fuel' (decimal ++ js "0000") decimals
      else decimal
  end.

Definition numericFault (msg : string) : JsError := ErrorObj (js "RangeError") (js msg).

(** [checkValue(val, { signed: true, width: 512 })] *)
Definition checkValue (val : Z) : Result Z :=
  if (- 2 ^ 511 <=? val) && (val <? 2 ^ 511) then Ok val
  else Throw (numericFault "overflow").

(** [parseUnits(value, decimals)], that is
    [FixedNumber.fromString(value, { decimals, width: 512 }).value]: the
    string must be an optional minus sign, digits, an optional point and
    digits, and nothing else (the regular expression of [fromString]), with
    at least one digit;
    the fraction is padded with zeros to [decimals] digits and must not
    carry a non-zero digit beyond them. *)
(** The optional groups of the regular expression of [fromString]: the
    minus sign, and the point between the digits. *)
Definition takeSign (value : jsstring) : bool * jsstring :=
  match value with
  | c :: rest => if c =? 45 then (true, rest) else (false, value)
  | [] => (false, value)
  end.

Definition skipPoint (s : jsstring) : jsstring :=
  match s with
  | c :: rest => if c =? 46 then rest else s
  | [] => s
  end.

Definition parseUnits (value : jsstring) (decimals : nat) : Result Z :=
  let (negative, s0) := takeSign value in
  let (whole, s1) := takeDigits s0 in
  let (frac, s3) := takeDigits (skipPoint s1) in
  match s3 with
  | _ :: _ => Throw (ErrorObj (js "TypeError") (js "invalid FixedNumber string value"))
  | [] =>
      if (length whole + length frac =? 0)%nat then
        Throw (ErrorObj (js "TypeError") (js "invalid FixedNumber string value"))
      else
        let whole' := match whole with [] => js "0" | _ => whole end in
        let decimal := padRight decimals frac decimals in
        if forallb (Z.eqb 48) (skipn decimals decimal) then
          let magnitude := digitsToZ (whole' ++ firstn decimals decimal) in
          checkValue (if negative then - magnitude else magnitude)
        else Throw (numericFault "too many decimals for format")
  end.

(** [while (str.length <= decimals) { str = "0000" + str; }] *)
Fixpoint padLeft (fuel : nat) (str : jsstring) (decimals : nat) : jsstring :=
  match fuel with
  | O => str
  | S fuel' =>
      if (length str <=? decimals)%nat
      then padLeft fuel' (js "0000" ++ str) decimals
      else str
  end.

(** [while (str[0] === "0" && str[1] !== ".") { str = str.substring(1); }] *)
Fixpoint trimWhole (str : jsstring) : jsstring :=
  match str with
  | 48 :: (c :: _) as rest => if c =? 46 then str else trimWhole rest
  | _ => str
  end.

(** The same loop at the other end of the string, on the reversed string. *)
Definition trimDecimal (str : jsstring) : jsstring := rev (trimWhole (rev str)).

(** [formatUnits(value)] with the default unit, 18 decimals:
    [FixedNumber.fromValue(value, 18, { decimals: 18, width: 512 }).toString()]. *)
Definition formatUnits (value : Z) : Result jsstring :=
  rbind (checkValue value) (fun val =>
    let negative := if val <? 0 then js "-" else [] in
    let str := padLeft 19 (ofZ (Z.abs val)) 18 in
    let index := (length str - 18)%nat in
    let str := firstn index str ++ js "." ++ skipn index str in
    Ok (negative ++ trimDecimal (trimWhole str))).

End Ethers.
Import Ethers.

(* ===================================================================== *)
(** * The world outside the process *)
(* ===================================================================== *)

Module Runtime.

(** The value of the [abi] property of a parsed artifact file: a JSON
    value, or [undefined] when the file has no such property.  Of a value
    that is neither a string nor an array the code only asks whether its
    [length] is 0: a boolean and a number have none, and an object has
    length 0 when it has a property of that name that is the number 0. *)
Inductive Abi : Type :=
| AbiUndefined
| AbiNull
| AbiString (s : jsstring)
| AbiArray (fragments : list jsstring)
| AbiOther (lengthIsZero : bool).

(** The [TypeError] of a property read on [undefined] or [null]. *)
Definition cannotRead (value property : jsstring) : JsError :=
  ErrorObj (js "TypeError")
    (js "Cannot read properties of " ++ value ++ js " (reading '" ++ property ++ js "')").

(** [abi.length === 0] *)
Definition abiLengthIsZero (a : Abi) : Result bool :=
  match a with
  | AbiUndefined => Throw (cannotRead (js "undefined") (js "length"))
  | AbiNull => Throw (cannotRead (js "null") (js "length"))
  | AbiString s => Ok (length s =? 0)%nat
  | AbiArray fragments => Ok (length fragments =? 0)%nat
  | AbiOther lengthIsZero => Ok lengthIsZero
  end.

(** The value of [bytecode.object]: a JSON value, or [undefined].  Of a
    value that is not a string the code asks whether its [length] is 0 and
    whether it is truthy: [false] and [0] are falsy and have no length;
    [true], the other numbers, the arrays and the objects are truthy, and
    have length 0 when they are the empty array or an object with a property
    [length] that is the number 0. *)
Inductive BytecodeObject : Type :=
| ObjectUndefined
| ObjectNull
| ObjectString (s : jsstring)
| ObjectFalsy
| ObjectTruthy (lengthIsZero : bool).

(** The value of the [bytecode] property of a parsed artifact file, of which
    the code reads the property [object]. *)
Inductive Bytecode : Type :=
| BytecodeUndefined
| BytecodeNull
| BytecodeValue (object : BytecodeObject).

(** [bytecode.object] *)
Definition objectOf (b : Bytecode) : Result BytecodeObject :=
  match b with
  | BytecodeUndefined => Throw (cannotRead (js "undefined") (js "object"))
  | BytecodeNull => Throw (cannotRead (js "null") (js "object"))
  | BytecodeValue object => Ok object
  end.

(** [object.length === 0] *)
Definition objectLengthIsZero (object : BytecodeObject) : Result bool :=
  match object with
  | ObjectUndefined => Throw (cannotRead (js "undefined") (js "length"))
  | ObjectNull => Throw (cannotRead (js "null") (js "length"))
  | ObjectString s => Ok (length s =? 0)%nat
  | ObjectFalsy => Ok false
  | ObjectTruthy lengthIsZero => Ok lengthIsZero
  end.

(** A parsed artifact file, as an object of which the properties [abi] and
    [bytecode] are read. *)
Record Artifact : Type :=
  { abi : Abi;
    bytecode : Bytecode }.

(** [ethers.Wallet] connected to a provider. *)
Record Signer : Type :=
  { signerRpc : jsstring;
    signerAddress : jsstring }.

(** [ethers.Contract] *)
Record Contract : Type :=
  { target : jsstring;
    interface : Abi;
    runner : Signer }.

(** A transaction response. *)
Record Tx : Type := { hash : jsstring }.

(** A constructor argument handed to [encodeDeploy]. *)
Inductive AbiArg : Type :=
| ArgString (s : jsstring)
| ArgBigInt (n : Z).

Record EnforcedOption : Type :=
  { eid : Z;
    msgType : Z;
    options : jsstring }.

Record SendParam : Type :=
  { dstEid : Z;
    to : jsstring;
    amountLD : Z;
    minAmountLD : Z;
    extraOptions : jsstring;
    composeMsg : jsstring;
    oftCmd : jsstring }.

Record MessagingFee : Type :=
  { nativeFee : Z;
    lzTokenFee : Z }.

(** What the process does to the outside, in the order it does it. *)
Inductive Event : Type :=
| ReadFile (path : jsstring)
| NewWallet (rpc : jsstring)
| FactoryDeploy (factory : Contract) (bytecodeWithArgs salt : jsstring)
| TxWait (tx : Tx)
| LastDeployedAddress (factory : Contract)
| SetPeer (c : Contract) (peerEid : Z) (peer : jsstring)
| SetEnforcedOptions (c : Contract) (opts : list EnforcedOption)
| QuoteSend (c : Contract) (p : SendParam) (payInLzToken : bool)
| Send (c : Contract) (p : SendParam) (fee : MessagingFee)
       (refundAddress : jsstring) (value : Z)
| ConsoleError (msg : jsstring) (error : JsError).

Definition Trace := list Event.

(** How the outside answers.  The answer to a call may depend on everything
    the process did before it; constructors and ABI encoding are functions
    of their arguments alone.  [readJson] is [JSON.parse(await readFile(path,
    "utf8"))] taken as an object: each of the three places that parse a file
    reads the property [abi] of the result at once, which throws, as a file
    that cannot be read or parsed does, when the file holds [null]. *)
Record World : Type :=
  { readJson : Trace -> jsstring -> Result Artifact;
    walletAddress : jsstring -> jsstring -> Result jsstring;
    contractError : jsstring -> Abi -> Signer -> option JsError;
    interfaceError : Abi -> option JsError;
    encodeDeploy : Abi -> list AbiArg -> Result jsstring;
    factoryDeploy : Trace -> Contract -> jsstring -> jsstring -> Result Tx;
    txWait : Trace -> Tx -> Result unit;
    lastDeployedAddress : Trace -> Contract -> Result jsstring;
    setPeer : Trace -> Contract -> Z -> jsstring -> Result Tx;
    setEnforcedOptions : Trace -> Contract -> list EnforcedOption -> Result Tx;
    quoteSend : Trace -> Contract -> SendParam -> bool -> Result (Z * Z);
    send : Trace -> Contract -> SendParam -> MessagingFee -> jsstring -> Z ->
           Result Tx }.

(** [process.env] *)
Record Env : Type :=
  { PRIVATE_KEY : jsstring;
    OWNER_ADDRESS : option jsstring;
    ARBITRUM_SEPOLIA_RPC_URL : jsstring;
    BASE_SEPOLIA_RPC_URL : jsstring;
    ARBITRUM_FACTORY_ADDRESS : option jsstring;
    BASE_FACTORY_ADDRESS : option jsstring }.

(** ** Computations

    A computation runs from the handler's local variables [S] and the
    events so far, and ends with a value or a thrown error; what it did to
    the variables and to the outside before throwing stays done. *)
Definition M (S A : Type) : Type := S -> Trace -> Result A * S * Trace.

Definition ret {S A} (a : A) : M S A := fun st tr => (Ok a, st, tr).

Definition throw {S A} (e : JsError) : M S A := fun st tr => (Throw e, st, tr).

Definition bind {S A B} (m : M S A) (k : A -> M S B) : M S B :=
  fun st tr =>
    match m st tr with
    | (Ok a, st', tr') => k a st' tr'
    | (Throw e, st', tr') => (Throw e, st', tr')
    end.

(** [try { body } catch (error) { handler }] *)
Definition tryCatch {S A} (body : M S A) (handler : JsError -> M S A) : M S A :=
  fun st tr =>
    match body st tr with
    | (Throw e, st', tr') => handler e st' tr'
    | r => r
    end.

(** An expression that may throw. *)
Definition lift {S A} (r : Result A) : M S A := fun st tr => (r, st, tr).

(** A call to the outside: the event is recorded, then the world answers. *)
Definition call {S A} (ev : Event) (answer : Trace -> Result A) : M S A :=
  fun st tr => (answer tr, st, tr ++ [ev]).

Definition modify {S} (f : S -> S) : M S unit := fun st tr => (Ok tt, f st, tr).

Definition get {S} : M S S := fun st tr => (Ok st, st, tr).

Definition failWith {S} (o : option JsError) : M S unit :=
  match o with
  | Some e => throw e
  | None => ret tt
  end.

(** [for (const x of xs) { body }], where the body may [return] from the
    enclosing function ([Some]) or go on ([None]). *)
Fixpoint forOf {S A R} (xs : list A) (body : A -> M S (option R)) : M S (option R) :=
  match xs with
  | [] => ret None
  | x :: rest =>
      bind (body x) (fun r =>
        match r with
        | Some v => ret (Some v)
        | None => forOf rest body
        end)
  end.

End Runtime.
Import Runtime.

Declare Scope js_scope.
Delimit Scope js_scope with M.
Notation "x <- m ;; k" := (bind m (fun x => k))
  (at level 61, m at next level, right associativity) : js_scope.
Notation "m ;; k" := (bind m (fun _ => k))
  (at level 61, right associativity) : js_scope.
Local Open Scope js_scope.

(** Template literals. *)
Definition cat (parts : list jsstring) : jsstring := concat parts.

(* ===================================================================== *)
(** * utils.ts *)
(* ===================================================================== *)

Module Utils.

Record NetworkConfig : Type :=
  { name : jsstring;
    rpc : jsstring;
    chainId : Z;
    lzEndpoint : jsstring;
    lzEid : Z }.

(** [table[key]] on an object used as a table, for the keys the schemas let
    through, which are the table's own; a key the table does not have gives
    [undefined]. *)
Fixpoint lookup {A} (table : list (jsstring * A)) (key : jsstring) : option A :=
  match table with
  | [] => None
  | (k, v) :: rest => if jseq k key then Some v else lookup rest key
  end.

Section WithWorld.
Variable world : World.
Variable env : Env.

Definition NETWORKS : list (jsstring * NetworkConfig) :=
  [ (js "ArbitrumSepolia",
     {| name := js "ArbitrumSepolia";
        rpc := ARBITRUM_SEPOLIA_RPC_URL env;
        chainId := 421614;
        lzEndpoint := js "0x6EDCE65403992e310A62460808c4b910D972f10f";
        lzEid := 40231 |});
    (js "baseSepolia",
     {| name := js "baseSepolia";
        rpc := BASE_SEPOLIA_RPC_URL env;
        chainId := 84532;
        lzEndpoint := js "0x6EDCE65403992e310A62460808c4b910D972f10f";
        lzEid := 40245 |}) ].

Definition getNetworkConfig (networkName : jsstring) : Result NetworkConfig :=
  match lookup NETWORKS networkName with
  | Some network => Ok network
  | None =>
      Throw (newError (cat [js "Network configuration not found for "; networkName]))
  end.

(** [getSigner(networkName)]: a provider for the network's RPC endpoint and
    a wallet for the process's private key on it. *)
Definition getSigner {S} (networkName : jsstring) : M S Signer :=
  networkConfig <- lift (getNetworkConfig networkName) ;;
  address <- call (NewWallet (rpc networkConfig))
                  (fun _ => walletAddress world (PRIVATE_KEY env) (rpc networkConfig)) ;;
  ret {| signerRpc := rpc networkConfig; signerAddress := address |}.

End WithWorld.

(** [formatAddressForLayerZero(address)] *)
Definition formatAddressForLayerZero (address : jsstring) : Result jsstring :=
  zeroPadValue address 32.

End Utils.
Import Utils.

(* ===================================================================== *)
(** * index.ts *)
(* ===================================================================== *)

Module Server.

(** A tool result: its single text item, which is either a message or the
    JSON text of a report (kept as the reported object), and [isError]
    (absent on success). *)
Record DeployedContractSummary : Type :=
  { chainName : jsstring;
    contractAddress : option jsstring;
    deploymentStatus : jsstring;
    error : option jsstring }.

Record DeployReport : Type :=
  { overallStatus : jsstring;
    deployedContracts : list DeployedContractSummary;
    report_peeringResults : list jsstring;
    report_enforcedOptionsResults : list jsstring;
    detailedExecutionLog : list jsstring }.

Record BridgeReceipt : Type :=
  { transactionHash : jsstring;
    receipt_fromChain : jsstring;
    receipt_toChain : jsstring;
    amountSent : jsstring;
    sender : jsstring;
    receiver : jsstring;
    estimatedNativeFee : jsstring }.

Inductive Content : Type :=
| Text (text : jsstring)
| DeployJson (report : DeployReport)
| BridgeJson (receipt : BridgeReceipt).

Record ToolResult : Type :=
  { content : Content;
    isError : bool }.

Definition errorResult (text : jsstring) : ToolResult :=
  {| content := Text text; isError := true |}.

(** [interface DeployedContractData] *)
Module Data.
Record t : Type :=
  { chainName : jsstring;
    address : jsstring;
    contractInstance : Contract;
    lzEid : Z;
    networkConfig : NetworkConfig }.
End Data.

(** The parameters of [deploy-and-configure-oft-multichain], as the schema
    hands them to the handler. *)
Record DeployParams : Type :=
  { tokenName : jsstring;
    tokenSymbol : jsstring;
    initialTotalSupply : jsstring;
    decimals : Z;
    targetChains : list jsstring;
    owner : option jsstring }.

(** The parameters of [bridge-oft]. *)
Record BridgeParams : Type :=
  { tokenAddress : jsstring;
    amount : jsstring;
    fromChain : jsstring;
    toChain : jsstring;
    receiverAddress : jsstring;
    extraOptions : jsstring }.

(** The arrays the deployment handler fills as it goes. *)
Record Locals : Type :=
  { results : list jsstring;
    deployedContractsSummary : list DeployedContractSummary;
    deployedContractsData : list Data.t;
    peeringResults : list jsstring;
    enforcedOptionsResults : list jsstring }.

Definition noLocals : Locals :=
  {| results := []; deployedContractsSummary := []; deployedContractsData := [];
     peeringResults := []; enforcedOptionsResults := [] |}.

(** [results.push(line)] and the like. *)
Definition pushResult (line : jsstring) : M Locals unit :=
  modify (fun st =>
    {| results := results st ++ [line];
       deployedContractsSummary := deployedContractsSummary st;
       deployedContractsData := deployedContractsData st;
       peeringResults := peeringResults st;
       enforcedOptionsResults := enforcedOptionsResults st |}).

Definition pushSummary (entry : DeployedContractSummary) : M Locals unit :=
  modify (fun st =>
    {| results := results st;
       deployedContractsSummary := deployedContractsSummary st ++ [entry];
       deployedContractsData := deployedContractsData st;
       peeringResults := peeringResults st;
       enforcedOptionsResults := enforcedOptionsResults st |}).

Definition pushData (entry : Data.t) : M Locals unit :=
  modify (fun st =>
    {| results := results st;
       deployedContractsSummary := deployedContractsSummary st;
       deployedContractsData := deployedContractsData st ++ [entry];
       peeringResults := peeringResults st;
       enforcedOptionsResults := enforcedOptionsResults st |}).

Definition pushPeering (line : jsstring) : M Locals unit :=
  modify (fun st =>
    {| results := results st;
       deployedContractsSummary := deployedContractsSummary st;
       deployedContractsData := deployedContractsData st;
       peeringResults := peeringResults st ++ [line];
       enforcedOptionsResults := enforcedOptionsResults st |}).

Definition pushEnforced (line : jsstring) : M Locals unit :=
  modify (fun st =>
    {| results := results st;
       deployedContractsSummary := deployedContractsSummary st;
       deployedContractsData := deployedContractsData st;
       peeringResults := peeringResults st;
       enforcedOptionsResults := enforcedOptionsResults st ++ [line] |}).

(** [resolve("D:\\Dev\\...")], taken on the platform the paths are written
    for, where [resolve] leaves an absolute path as it is. *)
Definition oftPath : jsstring :=
  js "D:\Dev\layerzero-mcp\artifacts\MyOFT\MyOFT.json".
Definition factoryPath : jsstring :=
  js "D:\Dev\layerzero-mcp\artifacts\factory\CREATE2Factory.json".

Definition networkKeys : list jsstring := [js "ArbitrumSepolia"; js "baseSepolia"].

(** The salt of the deployment:
    [keccak256(toUtf8Bytes(`${tokenName}:${tokenSymbol}`))]. *)
Definition deploymentSalt (tokenName tokenSymbol : jsstring) : Result jsstring :=
  rbind (toUtf8Bytes (cat [tokenName; js ":"; tokenSymbol]))
        (fun data => Ok (keccak256 data)).

Definition standardOptionsHex : jsstring :=
  js "0x00030100110100000000000000000000000000030d40".

Section Handlers.
Variable world : World.
Variable env : Env.

Definition FACTORY_ADDRESSES : list (jsstring * option jsstring) :=
  [ (js "ArbitrumSepolia", ARBITRUM_FACTORY_ADDRESS env);
    (js "baseSepolia", BASE_FACTORY_ADDRESS env) ].

(** [new Contract(target, abi, signer)] *)
Definition newContract {S} (target : jsstring) (abi : Abi) (signer : Signer)
  : M S Contract :=
  failWith (contractError world target abi signer) ;;
  ret {| Runtime.target := target; interface := abi; runner := signer |}.

(** [await tx.wait()] *)
Definition wait {S} (tx : Tx) : M S unit :=
  call (TxWait tx) (fun tr => txWait world tr tx).

(** [console.error(msg, error)] *)
Definition consoleError {S} (msg : jsstring) (e : JsError) : M S unit :=
  call (ConsoleError msg e) (fun _ => Ok tt).

(** The constructor arguments of the token contract. *)
Definition constructorArgsOf (params : DeployParams) (supply : Z)
    (lzEndpoint deployOwner : jsstring) : list AbiArg :=
  [ ArgString (tokenName params); ArgString (tokenSymbol params);
    ArgBigInt supply; ArgString lzEndpoint; ArgString deployOwner ].

(** ** Phase B: the body of the loop over [params.targetChains] *)

(** The [try] block. *)
Definition deployAttempt (params : DeployParams) (OFT_ABI : Abi)
    (OFT_BYTECODE deployOwner chainName : jsstring)
  : M Locals (option ToolResult) :=
  signer <- getSigner world env chainName ;;
  networkConfig <- lift (getNetworkConfig env chainName) ;;
  pushResult (cat [js "  Signer and network config obtained for "; chainName;
                   js ". RPC: "; rpc networkConfig;
                   js ", LZ EID: "; ofZ (lzEid networkConfig)]) ;;
  parsedSupply <- lift (parseUnits (initialTotalSupply params) 0) ;;
  pushResult (cat [js "  Token: "; tokenName params; js " ("; tokenSymbol params;
                   js "), Supply: "; initialTotalSupply params;
                   js " (parsed: "; ofZ parsedSupply;
                   js "), Decimals: "; ofZ (decimals params)]) ;;
  factoryAddress <-
    match lookup FACTORY_ADDRESSES chainName with
    | Some (Some (c :: a)) => ret (c :: a)
    | _ => throw (newError (cat [js "Factory address not defined for "; chainName]))
    end ;;
  factoryJSON <- call (ReadFile factoryPath)
                      (fun tr => readJson world tr factoryPath) ;;
  factory <- newContract factoryAddress (abi factoryJSON) signer ;;
  pushResult (js "  Contract factory created.") ;;
  salt <- lift (deploymentSalt (tokenName params) (tokenSymbol params)) ;;
  failWith (interfaceError world OFT_ABI) ;;
  constructorArgs <-
    lift (encodeDeploy world OFT_ABI
            (constructorArgsOf params parsedSupply (lzEndpoint networkConfig)
                               deployOwner)) ;;
  bytecodeWithArgs <- lift (solidityPacked2 OFT_BYTECODE constructorArgs) ;;
  pushResult (cat [js "  Deploying with CREATE2 on "; chainName;
                   js " using salt: "; salt]) ;;
  tx <- call (FactoryDeploy factory bytecodeWithArgs salt)
             (fun tr => factoryDeploy world tr factory bytecodeWithArgs salt) ;;
  wait tx ;;
  computedAddress <- call (LastDeployedAddress factory)
                          (fun tr => lastDeployedAddress world tr factory) ;;
  pushResult (cat [js "  SUCCESS: Deployed via CREATE2 at computed address: ";
                   computedAddress]) ;;
  contractInstance <- newContract computedAddress OFT_ABI signer ;;
  pushData {| Data.chainName := chainName;
              Data.address := computedAddress;
              Data.contractInstance := contractInstance;
              Data.lzEid := lzEid networkConfig;
              Data.networkConfig := networkConfig |} ;;
  pushSummary {| chainName := chainName;
                 contractAddress := Some computedAddress;
                 deploymentStatus := js "Success";
                 error := None |} ;;
  ret None.

(** The text of the failure line of the [catch] block. *)
Definition deployFailureMessage (chainName : jsstring) (error : JsError)
    (salt bytecodeWithArgs : jsstring) : jsstring :=
  cat [js "  FAILURE: Deploying on "; chainName; js ": "; errText error;
       js ", salt: "; [10]; js "        "; salt;
       js ", bytecode: "; bytecodeWithArgs].

(** The [catch] block: it encodes the constructor arguments and computes
    the salt again, for the failure line, before it returns. *)
Definition deployFailed (params : DeployParams) (OFT_ABI : Abi)
    (OFT_BYTECODE deployOwner chainName : jsstring) (error : JsError)
  : M Locals (option ToolResult) :=
  failWith (interfaceError world OFT_ABI) ;;
  supply <- lift (parseUnits (initialTotalSupply params) 0) ;;
  networkConfig <- lift (getNetworkConfig env chainName) ;;
  constructorArgs <-
    lift (encodeDeploy world OFT_ABI
            (constructorArgsOf params supply (lzEndpoint networkConfig)
                               deployOwner)) ;;
  bytecodeWithArgs <- lift (solidityPacked2 OFT_BYTECODE constructorArgs) ;;
  salt <- lift (deploymentSalt (tokenName params) (tokenSymbol params)) ;;
  let errorMessage := deployFailureMessage chainName error salt bytecodeWithArgs in
  pushResult errorMessage ;;
  consoleError errorMessage error ;;
  pushSummary {| chainName := chainName;
                 contractAddress := None;
                 deploymentStatus := js "Failed";
                 error := Some (errText error) |} ;;
  ret (Some (errorResult (cat [js "Error: Failed to Deploy OFT: "; errorMessage]))).

Definition deployOnChain (params : DeployParams) (OFT_ABI : Abi)
    (OFT_BYTECODE deployOwner chainName : jsstring)
  : M Locals (option ToolResult) :=
  pushResult (cat [js "Attempting deployment on "; chainName; js "..."]) ;;
  tryCatch (deployAttempt params OFT_ABI OFT_BYTECODE deployOwner chainName)
           (deployFailed params OFT_ABI OFT_BYTECODE deployOwner chainName).

(** ** Phase C: the body of the inner loop, for the pair (A, B) *)
Definition peerWith (contractAData contractBData : Data.t)
  : M Locals (option ToolResult) :=
  if jseq (Data.chainName contractAData) (Data.chainName contractBData)
  then ret None
  else
    let logPrefix :=
      cat [js "  Peering "; Data.chainName contractAData;
           js " (EID: "; ofZ (Data.lzEid contractAData);
           js ") with "; Data.chainName contractBData;
           js " (EID: "; ofZ (Data.lzEid contractBData);
           js ", Address: "; Data.address contractBData; js "):"] in
    tryCatch
      (peerAddressBytes32 <-
         lift (formatAddressForLayerZero (Data.address contractBData)) ;;
       pushPeering (cat [logPrefix; js " Formatting peer address ";
                         Data.address contractBData; js " to "; peerAddressBytes32]) ;;
       tx <- call (SetPeer (Data.contractInstance contractAData)
                           (Data.lzEid contractBData) peerAddressBytes32)
                  (fun tr => setPeer world tr (Data.contractInstance contractAData)
                               (Data.lzEid contractBData) peerAddressBytes32) ;;
       pushPeering (cat [logPrefix;
                         js " setPeer transaction sent. Waiting for confirmation... TxHash: ";
                         hash tx]) ;;
       wait tx ;;
       let successMsg := cat [logPrefix; js " SUCCESS."] in
       pushResult successMsg ;;
       pushPeering successMsg ;;
       ret None)
      (fun error =>
       let errorMsg := cat [logPrefix; js " FAILURE: "; errText error] in
       pushResult errorMsg ;;
       pushPeering errorMsg ;;
       consoleError errorMsg error ;;
       ret (Some (errorResult (cat [js "Error: Failed to Deploy OFT: "; errorMsg])))).

Definition peeringPhase : M Locals (option ToolResult) :=
  pushResult (10 :: js "Phase C: Peering Phase started.") ;;
  st <- get ;;
  let deployed := deployedContractsData st in
  returned <-
    (if (length deployed <? 2)%nat then
       let msg :=
         js "Skipping peering phase: Less than 2 contracts successfully deployed." in
       pushResult msg ;;
       pushPeering msg ;;
       ret None
     else
       pushResult (cat [js "Found "; ofZ (Z.of_nat (length deployed));
                        js " successfully deployed contracts for peering."]) ;;
       forOf deployed (fun contractAData =>
         forOf deployed (fun contractBData =>
           peerWith contractAData contractBData))) ;;
  match returned with
  | Some r => ret (Some r)
  | None => pushResult (js "Peering Phase completed.") ;; ret None
  end.

(** ** Phase D *)

(** The inner loop that fills [optionsToSet]: one entry for every deployed
    contract on another chain. *)
Definition optionsFor (contractData : Data.t) (deployed : list Data.t)
  : list EnforcedOption :=
  map (fun peerData =>
         {| eid := Data.lzEid peerData;
            msgType := 1;
            options := standardOptionsHex |})
      (filter (fun peerData =>
                 negb (jseq (Data.chainName contractData) (Data.chainName peerData)))
              deployed).

Definition enforceOn (deployed : list Data.t) (contractData : Data.t)
  : M Locals (option ToolResult) :=
  let logPrefix :=
    cat [js "  Configuring enforced options on "; Data.chainName contractData;
         js " (Address: "; Data.address contractData; js "):"] in
  tryCatch
    (let optionsToSet := optionsFor contractData deployed in
     let count := ofZ (Z.of_nat (length optionsToSet)) in
     if (0 <? length optionsToSet)%nat then
       pushEnforced
         (cat [logPrefix; js " Preparing to set options for "; count; js " peers: ";
               join (js ", ") (map (fun o => cat [js "EID "; ofZ (eid o)]) optionsToSet)]) ;;
       tx <- call (SetEnforcedOptions (Data.contractInstance contractData) optionsToSet)
                  (fun tr => setEnforcedOptions world tr
                               (Data.contractInstance contractData) optionsToSet) ;;
       pushEnforced
         (cat [logPrefix;
               js " setEnforcedOptions transaction sent. Waiting for confirmation... TxHash: ";
               hash tx]) ;;
       wait tx ;;
       let successMsg :=
         cat [logPrefix; js " SUCCESS: Set enforced options for "; count; js " peers."] in
       pushResult successMsg ;;
       pushEnforced successMsg ;;
       ret None
     else
       let noPeersMsg := cat [logPrefix; js " No peers to set enforced options for."] in
       pushResult noPeersMsg ;;
       pushEnforced noPeersMsg ;;
       ret None)
    (fun error =>
     let errorMsg := cat [logPrefix; js " FAILURE: "; errText error] in
     pushResult errorMsg ;;
     pushEnforced errorMsg ;;
     consoleError errorMsg error ;;
     ret (Some (errorResult (cat [js "Error: Failed to Deploy OFT: "; errorMsg])))).

Definition enforcedOptionsPhase : M Locals (option ToolResult) :=
  pushResult (10 :: js "Phase D: Enforced Options Phase started.") ;;
  pushResult (cat [js "Standard options hex for enforced options: ";
                   standardOptionsHex]) ;;
  st <- get ;;
  let deployed := deployedContractsData st in
  returned <-
    (if (length deployed =? 0)%nat then
       let msg :=
         js "Skipping enforced options phase: No contracts successfully deployed." in
       pushResult msg ;;
       pushEnforced msg ;;
       ret None
     else forOf deployed (enforceOn deployed)) ;;
  match returned with
  | Some r => ret (Some r)
  | None => pushResult (js "Enforced Options Phase completed.") ;; ret None
  end.

(** ** Phase E *)
Definition fullSuccessStatus : jsstring :=
  js "Successfully deployed and configured on all attempted chains where deployment succeeded.".

Definition someErrorsStatus : jsstring :=
  cat [js "Deployment and configuration process completed.";
       js " Some errors occurred. Check detailed logs."].

Definition allFailedStatus : jsstring :=
  js "Deployment failed on all target chains.".

Definition overallStatusOf (st : Locals) : jsstring :=
  if existsb (fun s => jseq (deploymentStatus s) (js "Failed"))
             (deployedContractsSummary st)
     || existsb (fun r => includes r (js "FAILURE")) (results st)
  then someErrorsStatus
  else if (length (deployedContractsData st) =? 0)%nat
  then allFailedStatus
  else fullSuccessStatus.

Definition reportPhase : M Locals ToolResult :=
  pushResult (10 :: js "Phase E: Preparing results.") ;;
  st <- get ;;
  let overallStatus := overallStatusOf st in
  pushResult (cat [js "Overall Status: "; overallStatus]) ;;
  st <- get ;;
  ret {| content :=
           DeployJson
             {| overallStatus := overallStatus;
                deployedContracts := deployedContractsSummary st;
                report_peeringResults := peeringResults st;
                report_enforcedOptionsResults := enforcedOptionsResults st;
                detailedExecutionLog := results st |};
         isError := false |}.

(** ** Phase B, then C, D and E *)
Definition deploymentPhase (params : DeployParams) (OFT_ABI : Abi)
    (OFT_BYTECODE envOwnerAddress : jsstring) : M Locals (option ToolResult) :=
  pushResult (10 :: js "Phase B: Deployment Phase started.") ;;
  let deployOwner :=
    match owner params with
    | Some (c :: o) => c :: o
    | _ => envOwnerAddress
    end in
  pushResult (cat [js "Deployment owner set to: "; deployOwner]) ;;
  returned <- forOf (targetChains params)
                    (deployOnChain params OFT_ABI OFT_BYTECODE deployOwner) ;;
  match returned with
  | Some r => ret (Some r)
  | None => pushResult (js "Deployment Phase completed.") ;; ret None
  end.

Definition afterChecks (params : DeployParams) (OFT_ABI : Abi)
    (OFT_BYTECODE envOwnerAddress : jsstring) : M Locals ToolResult :=
  returned <- deploymentPhase params OFT_ABI OFT_BYTECODE envOwnerAddress ;;
  match returned with
  | Some r => ret r
  | None =>
      returned <- peeringPhase ;;
      match returned with
      | Some r => ret r
      | None =>
          returned <- enforcedOptionsPhase ;;
          match returned with
          | Some r => ret r
          | None => reportPhase
          end
      end
  end.

(** ** Phase A and the handler of [deploy-and-configure-oft-multichain] *)
Definition abiIsPlaceholder (OFT_ABI : Abi) : bool :=
  match OFT_ABI with
  | AbiString s => jseq s (js "ABI_PLACEHOLDER")
  | _ => false
  end.

Definition bytecodeIsPlaceholder (OFT_BYTECODE : BytecodeObject) : bool :=
  match OFT_BYTECODE with
  | ObjectString b => jseq b (js "BYTECODE_PLACEHOLDER")
  | _ => false
  end.

(** The test of the artifact: its six operands are evaluated from left to
    right up to the first that holds, and the last two throw on [null]. *)
Definition artifactUnusable (OFT_ABI : Abi) (OFT_BYTECODE : BytecodeObject)
  : Result bool :=
  if abiIsPlaceholder OFT_ABI then Ok true
  else if bytecodeIsPlaceholder OFT_BYTECODE then Ok true
  else if match OFT_ABI with AbiUndefined => true | _ => false end then Ok true
  else if match OFT_BYTECODE with ObjectUndefined => true | _ => false end then Ok true
  else
    rbind (abiLengthIsZero OFT_ABI) (fun abiIsEmpty =>
      if abiIsEmpty then Ok true else objectLengthIsZero OFT_BYTECODE).

(** [if (OFT_BYTECODE && !OFT_BYTECODE.startsWith('0x')) OFT_BYTECODE = '0x'
    + OFT_BYTECODE]: a truthy value that is not a string has no method
    [startsWith].  A bytecode that is [false] or [0] is left as it is; the
    handler passes it on to [solidityPacked] only, which refuses it as it
    refuses the empty string, and the empty string stands for it from here
    on. *)
Definition withPrefix (OFT_BYTECODE : BytecodeObject) : Result jsstring :=
  match OFT_BYTECODE with
  | ObjectString b =>
      Ok (if (0 <? length b)%nat && negb (startsWith b (js "0x"))
          then js "0x" ++ b else b)
  | ObjectTruthy _ =>
      Throw (ErrorObj (js "TypeError")
                      (js "OFT_BYTECODE.startsWith is not a function"))
  | ObjectUndefined | ObjectNull | ObjectFalsy => Ok []
  end.

Definition placeholderMessage : jsstring :=
  js "Error: OFT_ABI or OFT_BYTECODE are placeholders. Please replace them in layerzero-mcp.ts.".

Definition deployAndConfigureOftMultichain (params : DeployParams)
  : M Locals ToolResult :=
  pushResult (js "Phase A: Initial Checks & Setup started.") ;;
  match OWNER_ADDRESS env with
  | Some (c :: o) =>
      let envOwnerAddress := c :: o in
      pushResult (cat [js "OWNER_ADDRESS found: "; envOwnerAddress]) ;;
      MyOFT <- call (ReadFile oftPath) (fun tr => readJson world tr oftPath) ;;
      let OFT_ABI := abi MyOFT in
      OFT_BYTECODE <- lift (objectOf (bytecode MyOFT)) ;;
      unusable <- lift (artifactUnusable OFT_ABI OFT_BYTECODE) ;;
      if unusable then
        pushResult placeholderMessage ;;
        ret (errorResult placeholderMessage)
      else
        pushResult (js "OFT_ABI and OFT_BYTECODE are not placeholders.") ;;
        OFT_BYTECODE <- lift (withPrefix OFT_BYTECODE) ;;
        match targetChains params with
        | [] =>
            pushResult (js "Error: targetChains array is empty.") ;;
            ret (errorResult
                   (js "Error: Failed to Deploy OFT: Error: targetChains array is empty. Please provide at least one target chain."))
        | _ :: _ =>
            pushResult (cat [js "Target chains for deployment: ";
                             join (js ", ") (targetChains params)]) ;;
            pushResult (js "Initialization complete.") ;;
            afterChecks params OFT_ABI OFT_BYTECODE envOwnerAddress
        end
  | _ =>
      pushResult (js "Error: OWNER_ADDRESS is not set in environment variables.") ;;
      ret (errorResult (js "Error: OWNER_ADDRESS is not set in environment variables."))
  end.

(** ** The handler of [bridge-oft] *)
Definition abiUnusable (OFT_ABI : Abi) : Result bool :=
  if abiIsPlaceholder OFT_ABI then Ok true
  else if match OFT_ABI with AbiUndefined => true | _ => false end then Ok true
  else abiLengthIsZero OFT_ABI.

Definition placeholderAbiMessage : jsstring :=
  js "Error: Placeholder ABI detected. Please replace OFT_ABI in layerzero-mcp.ts with your actual contract ABI to interact with existing contracts.".

Definition sameChainMessage : jsstring :=
  js "Error: Source and destination chains cannot be the same.".

Definition amountDecimals : nat := 18.

Definition bridgeOft (params : BridgeParams) : M unit ToolResult :=
  tryCatch
    (MyOFT <- call (ReadFile oftPath) (fun tr => readJson world tr oftPath) ;;
     let OFT_ABI := abi MyOFT in
     unusable <- lift (abiUnusable OFT_ABI) ;;
     if unusable then ret (errorResult placeholderAbiMessage)
     else if jseq (fromChain params) (toChain params)
     then ret (errorResult sameChainMessage)
     else
       signer <- getSigner world env (fromChain params) ;;
       fromNetworkConfig <- lift (getNetworkConfig env (fromChain params)) ;;
       toNetworkConfig <- lift (getNetworkConfig env (toChain params)) ;;
       amountBigInt <- lift (parseUnits (amount params) amountDecimals) ;;
       contract <- newContract (tokenAddress params) OFT_ABI signer ;;
       formattedReceiverAddress <-
         lift (formatAddressForLayerZero (receiverAddress params)) ;;
       let sendParam :=
         {| dstEid := lzEid toNetworkConfig;
            to := formattedReceiverAddress;
            amountLD := amountBigInt;
            minAmountLD := amountBigInt;
            Runtime.extraOptions :=
              match extraOptions params with
              | [] => js "0x"
              | given => given
              end;
            composeMsg := js "0x";
            oftCmd := js "0x" |} in
       fees <- call (QuoteSend contract sendParam false)
                    (fun tr => quoteSend world tr contract sendParam false) ;;
       let nativeFee := fst fees in
       let messagingFee := {| Runtime.nativeFee := nativeFee; lzTokenFee := 0 |} in
       tx <- call (Send contract sendParam messagingFee (signerAddress signer) nativeFee)
                  (fun tr => send world tr contract sendParam messagingFee
                               (signerAddress signer) nativeFee) ;;
       wait tx ;;
       fee <- lift (formatUnits nativeFee) ;;
       ret {| content :=
                BridgeJson
                  {| transactionHash := hash tx;
                     receipt_fromChain := fromChain params;
                     receipt_toChain := toChain params;
                     amountSent := amount params;
                     sender := signerAddress signer;
                     receiver := receiverAddress params;
                     estimatedNativeFee := fee |};
              isError := false |})
    (fun error =>
     consoleError (js "Error bridging OFT:") error ;;
     ret (errorResult (cat [js "Error: Failed to bridge OFT: "; errText error]))).

End Handlers.

(** ** The parameter schemas

    What a caller sends, and what the schema makes of it before the handler
    runs ([None]: the request is refused and the handler is not called). *)
Record DeployRequest : Type :=
  { req_tokenName : jsstring;
    req_tokenSymbol : jsstring;
    req_initialTotalSupply : jsstring;
    req_decimals : option Z;
    req_targetChains : list jsstring;
    req_owner : option jsstring }.

Definition isNetworkKey (chain : jsstring) : bool :=
  existsb (jseq chain) networkKeys.

Definition deployAndConfigureOftParams (req : DeployRequest) : option DeployParams :=
  let decimals :=
    match req_decimals req with
    | None => Some 18
    | Some d => if (0 <=? d) && (d <=? 18) then Some d else None
    end in
  match decimals with
  | None => None
  | Some d =>
      if forallb isNetworkKey (req_targetChains req)
         && (1 <=? length (req_targetChains req))%nat
      then Some {| tokenName := req_tokenName req;
                   tokenSymbol := req_tokenSymbol req;
                   initialTotalSupply := req_initialTotalSupply req;
                   decimals := d;
                   targetChains := req_targetChains req;
                   owner := req_owner req |}
      else None
  end.

Record BridgeRequest : Type :=
  { req_tokenAddress : jsstring;
    req_amount : jsstring;
    req_fromChain : jsstring;
    req_toChain : jsstring;
    req_receiverAddress : jsstring;
    req_extraOptions : option jsstring }.

Definition bridgeOftParams (req : BridgeRequest) : option BridgeParams :=
  if isNetworkKey (req_fromChain req) && isNetworkKey (req_toChain req)
  then Some {| tokenAddress := req_tokenAddress req;
               amount := req_amount req;
               fromChain := req_fromChain req;
               toChain := req_toChain req;
               receiverAddress := req_receiverAddress req;
               extraOptions :=
                 match req_extraOptions req with
                 | Some o => o
                 | None => js "0x"
                 end |}
  else None.

(** A run of a handler from a fresh invocation. *)
Definition runDeploy (world : World) (env : Env) (params : DeployParams)
  : Result ToolResult * Locals * Trace :=
  deployAndConfigureOftMultichain world env params noLocals [].

Definition runBridge (world : World) (env : Env) (params : BridgeParams)
  : Result ToolResult * unit * Trace :=
  bridgeOft world env params tt [].

End Server.

(* ===================================================================== *)
(** * Loading the modules *)
(* ===================================================================== *)

Module Startup.
Import Server.

(** [process.env] once [dotenv.config()] has run: the variables the two
    modules read, each a string or [undefined]. *)
Record ProcessEnv : Type :=
  { var_PRIVATE_KEY : option jsstring;
    var_OWNER_ADDRESS : option jsstring;
    var_ARBITRUM_SEPOLIA_RPC_URL : option jsstring;
    var_BASE_SEPOLIA_RPC_URL : option jsstring;
    var_ARBITRUM_FACTORY_ADDRESS : option jsstring;
    var_BASE_FACTORY_ADDRESS : option jsstring }.

(** [!value] *)
Definition unset (value : option jsstring) : bool :=
  match value with
  | Some (_ :: _) => false
  | _ => true
  end.

Definition missing (variable : string) : JsError :=
  newError (cat [js "Missing "; js variable; js " in environment variables."]).

(** The top level of [utils.ts]: the four variables it cannot do without. *)
Definition loadUtils (vars : ProcessEnv) : Result unit :=
  if unset (var_PRIVATE_KEY vars) then Throw (missing "PRIVATE_KEY")
  else if unset (var_OWNER_ADDRESS vars) then Throw (missing "OWNER_ADDRESS")
  else if unset (var_ARBITRUM_SEPOLIA_RPC_URL vars)
  then Throw (missing "ARBITRUM_SEPOLIA_RPC_URL")
  else if unset (var_BASE_SEPOLIA_RPC_URL vars)
  then Throw (missing "BASE_SEPOLIA_RPC_URL")
  else Ok tt.

(** A variable read where the code takes it to be set. *)
Definition valueOf (value : option jsstring) : jsstring :=
  match value with
  | Some v => v
  | None => []
  end.

(** The top level of [index.ts], which imports [utils.ts] first: its own
    check of [OWNER_ADDRESS], the check that [NETWORKS] has a key, and the
    environment the handlers then run in. *)
Definition loadIndex (vars : ProcessEnv) : Result Env :=
  rbind (loadUtils vars) (fun _ =>
    if unset (var_OWNER_ADDRESS vars) then
      Throw (newError (js "Missing OWNER_ADDRESS in environment variables. Make sure it's set in your .env file."))
    else if (length networkKeys =? 0)%nat then
      Throw (newError (js "NETWORKS object is empty. Please define at least one network in utils.ts."))
    else
      Ok {| PRIVATE_KEY := valueOf (var_PRIVATE_KEY vars);
            OWNER_ADDRESS := var_OWNER_ADDRESS vars;
            ARBITRUM_SEPOLIA_RPC_URL := valueOf (var_ARBITRUM_SEPOLIA_RPC_URL vars);
            BASE_SEPOLIA_RPC_URL := valueOf (var_BASE_SEPOLIA_RPC_URL vars);
            ARBITRUM_FACTORY_ADDRESS := var_ARBITRUM_FACTORY_ADDRESS vars;
            BASE_FACTORY_ADDRESS := var_BASE_FACTORY_ADDRESS vars |}).

End Startup.

(* ===================================================================== *)
(** * Worlds and requests used as examples *)
(* ===================================================================== *)

Module Scenarios.
Import Server.

Definition env0 : Env :=
  {| PRIVATE_KEY := js "0x0123456789abcdef0123456789abcdef0123456789abcdef0123456789abcdef";
     OWNER_ADDRESS := Some (js "0x1111111111111111111111111111111111111111");
     ARBITRUM_SEPOLIA_RPC_URL := js "https://arb.example";
     BASE_SEPOLIA_RPC_URL := js "https://base.example";
     ARBITRUM_FACTORY_ADDRESS := Some (js "0x754a2643Ce68e0e34510B1E246254f93946AE3a1");
     BASE_FACTORY_ADDRESS := Some (js "0x754a2643Ce68e0e34510B1E246254f93946AE3a1") |}.

Definition artifact0 : Artifact :=
  {| abi := AbiArray [js "constructor"; js "setPeer"; js "setEnforcedOptions"];
     bytecode := BytecodeValue (ObjectString (js "6080")) |}.

Definition rpcError : JsError := ErrorObj (js "Error") (js "execution reverted").

(** Every call succeeds. *)
Definition calm : World :=
  {| readJson := fun _ _ => Ok artifact0;
     walletAddress := fun _ _ => Ok (js "0x2222222222222222222222222222222222222222");
     contractError := fun _ _ _ => None;
     interfaceError := fun _ => None;
     encodeDeploy := fun _ _ => Ok (js "0xc0de");
     factoryDeploy := fun _ _ _ _ => Ok {| hash := js "0xd1" |};
     txWait := fun _ _ => Ok tt;
     lastDeployedAddress := fun _ _ => Ok (js "0x3333333333333333333333333333333333333333");
     setPeer := fun _ _ _ _ => Ok {| hash := js "0xd2" |};
     setEnforcedOptions := fun _ _ _ => Ok {| hash := js "0xd3" |};
     quoteSend := fun _ _ _ _ => Ok (1500000000000000, 0);
     send := fun _ _ _ _ _ _ => Ok {| hash := js "0xd4" |} |}.

(** Every call succeeds, except that [setPeer] reverts. *)
Definition peerReverts : World :=
  {| readJson := readJson calm;
     walletAddress := walletAddress calm;
     contractError := contractError calm;
     interfaceError := interfaceError calm;
     encodeDeploy := encodeDeploy calm;
     factoryDeploy := factoryDeploy calm;
     txWait := txWait calm;
     lastDeployedAddress := lastDeployedAddress calm;
     setPeer := fun _ _ _ _ => Throw rpcError;
     setEnforcedOptions := setEnforcedOptions calm;
     quoteSend := quoteSend calm;
     send := send calm |}.

(** Every call succeeds, except that a second [deploy] reverts. *)
Definition deployedBefore (tr : Trace) : bool :=
  existsb (fun ev => match ev with FactoryDeploy _ _ _ => true | _ => false end) tr.

Definition secondDeployReverts : World :=
  {| readJson := readJson calm;
     walletAddress := walletAddress calm;
     contractError := contractError calm;
     interfaceError := interfaceError calm;
     encodeDeploy := encodeDeploy calm;
     factoryDeploy := fun tr _ _ _ =>
       if deployedBefore tr then Throw rpcError else Ok {| hash := js "0xd1" |};
     txWait := txWait calm;
     lastDeployedAddress := lastDeployedAddress calm;
     setPeer := setPeer calm;
     setEnforcedOptions := setEnforcedOptions calm;
     quoteSend := quoteSend calm;
     send := send calm |}.

(** The artifact file cannot be read. *)
Definition noArtifact : World :=
  {| readJson := fun _ _ =>
       Throw (ErrorObj (js "Error") (js "ENOENT: no such file or directory"));
     walletAddress := walletAddress calm;
     contractError := contractError calm;
     interfaceError := interfaceError calm;
     encodeDeploy := encodeDeploy calm;
     factoryDeploy := factoryDeploy calm;
     txWait := txWait calm;
     lastDeployedAddress := lastDeployedAddress calm;
     setPeer := setPeer calm;
     setEnforcedOptions := setEnforcedOptions calm;
     quoteSend := quoteSend calm;
     send := send calm |}.

(** The artifact file holds [null] as its ABI. *)
Definition nullAbi : World :=
  {| readJson := fun _ _ =>
       Ok {| abi := AbiNull; bytecode := BytecodeValue (ObjectString (js "6080")) |};
     walletAddress := walletAddress calm;
     contractError := contractError calm;
     interfaceError := interfaceError calm;
     encodeDeploy := encodeDeploy calm;
     factoryDeploy := factoryDeploy calm;
     txWait := txWait calm;
     lastDeployedAddress := lastDeployedAddress calm;
     setPeer := setPeer calm;
     setEnforcedOptions := setEnforcedOptions calm;
     quoteSend := quoteSend calm;
     send := send calm |}.

Definition gamma (chains : list jsstring) : DeployParams :=
  {| tokenName := js "Gamma";
     tokenSymbol := js "GMA";
     initialTotalSupply := js "1000000";
     decimals := 18;
     targetChains := chains;
     owner := None |}.

Definition bothChains : list jsstring := [js "ArbitrumSepolia"; js "baseSepolia"].

Definition bridge50 (src dst : jsstring) : BridgeParams :=
  {| tokenAddress := js "0x3333333333333333333333333333333333333333";
     amount := js "50";
     fromChain := src;
     toChain := dst;
     receiverAddress := js "0x4444444444444444444444444444444444444444";
     extraOptions := js "0x" |}.

End Scenarios.

(* ===================================================================== *)
(** * Vocabulary of the properties *)
(* ===================================================================== *)

Module Vocabulary.
Import Server.

(** A well-formed 20-byte account address: a hex string of 20 bytes. *)
Definition wellFormedAddress (address : jsstring) : Prop :=
  exists bs, getBytes address = Ok bs /\ length bs = 20%nat.

(** What holds of the outcome of a computation run from [st] and [tr]. *)
Definition wp {S A} (m : M S A) (Q : Result A -> S -> Trace -> Prop)
    (st : S) (tr : Trace) : Prop :=
  let '(r, st', tr') := m st tr in Q r st' tr'.

(** Calls that go to a chain's RPC endpoint; reading a local file and
    writing to the console do not. *)
Definition isNetworkCall (ev : Event) : bool :=
  match ev with
  | ReadFile _ | ConsoleError _ _ => false
  | _ => true
  end.

(** The amount a bridge request is sent with: every fee quote and every
    send carries [parseUnits(amount, 18)] as both [amountLD] and
    [minAmountLD], and a send carries the parameters that were quoted. *)
Definition carriesAmount (params : BridgeParams) (tr : Trace) (ev : Event) : Prop :=
  match ev with
  | QuoteSend _ p _ =>
      parseUnits (amount params) 18 = Ok (amountLD p) /\ minAmountLD p = amountLD p
  | Send c p _ _ _ =>
      parseUnits (amount params) 18 = Ok (amountLD p) /\ minAmountLD p = amountLD p /\
      In (QuoteSend c p false) tr
  | _ => True
  end.

(** What every deployment call of a request carries: the salt derived from
    the token's name and symbol, and the contract's bytecode followed by the
    constructor arguments, with the supply string parsed with no decimals
    as their third. *)
Definition carriesSaltAndSupply (world : World) (params : DeployParams)
    (ev : Event) : Prop :=
  match ev with
  | FactoryDeploy _ bytecodeWithArgs salt =>
      deploymentSalt (tokenName params) (tokenSymbol params) = Ok salt /\
      exists OFT_ABI OFT_BYTECODE lzEndpoint deployOwner supply constructorArgs,
        parseUnits (initialTotalSupply params) 0 = Ok supply /\
        encodeDeploy world OFT_ABI
          [ ArgString (tokenName params); ArgString (tokenSymbol params);
            ArgBigInt supply; ArgString lzEndpoint; ArgString deployOwner ]
        = Ok constructorArgs /\
        solidityPacked2 OFT_BYTECODE constructorArgs = Ok bytecodeWithArgs
  | _ => True
  end.

(** A string of decimal digits. *)
Definition digits (ds : jsstring) : Prop := Forall (fun c => isDigit c = true) ds.

(** The [setPeer] calls of a trace, in order: the contract called, the
    endpoint id and the peer given. *)
Definition setPeerCalls (tr : Trace) : list (Contract * Z * Result jsstring) :=
  flat_map (fun ev =>
              match ev with
              | SetPeer c peerEid peer => [(c, peerEid, Ok peer)]
              | _ => []
              end) tr.

(** The [setEnforcedOptions] calls of a trace, in order. *)
Definition setEnforcedCalls (tr : Trace) : list (Contract * list EnforcedOption) :=
  flat_map (fun ev =>
              match ev with
              | SetEnforcedOptions c opts => [(c, opts)]
              | _ => []
              end) tr.

(** The failures reported on the console. *)
Definition consoleErrors (tr : Trace) : list JsError :=
  flat_map (fun ev =>
              match ev with
              | ConsoleError _ e => [e]
              | _ => []
              end) tr.

(** The mesh: from every deployed contract to every deployed contract on
    another chain, with the other's endpoint id and its address in peer
    format. *)
Definition peerCallsFrom (A : Data.t) (deployed : list Data.t)
  : list (Contract * Z * Result jsstring) :=
  flat_map (fun B =>
              if jseq (Data.chainName A) (Data.chainName B) then []
              else [(Data.contractInstance A, Data.lzEid B,
                     formatAddressForLayerZero (Data.address B))])
           deployed.

Definition meshCalls (deployed : list Data.t) : list (Contract * Z * Result jsstring) :=
  flat_map (fun A => peerCallsFrom A deployed) deployed.

(** One call per deployed contract that has a peer, with an entry for each
    of its peers. *)
Definition enforcedCallFor (deployed : list Data.t) (A : Data.t)
  : list (Contract * list EnforcedOption) :=
  if (0 <? length (optionsFor A deployed))%nat
  then [(Data.contractInstance A, optionsFor A deployed)]
  else [].

Definition enforcedCalls (deployed : list Data.t) : list (Contract * list EnforcedOption) :=
  flat_map (enforcedCallFor deployed) deployed.

(** The entry of the summary for a deployment that succeeded. *)
Definition succeeded (s : DeployedContractSummary) : Prop :=
  deploymentStatus s = js "Success" /\ error s = None /\
  exists address, contractAddress s = Some address.

(** The test of the loops over pairs: [B] is on another chain than [A]. *)
Definition onOtherChain (A B : Data.t) : bool :=
  negb (jseq (Data.chainName A) (Data.chainName B)).

(** Some line of a log holds the text the handler looks for in phase E. *)
Definition mentionsFailure (log : list jsstring) : bool :=
  existsb (fun r => includes r (js "FAILURE")) log.

(** What a successful deployment on [chain] leaves behind. *)
Definition deployedOn (env : Env) (chain : jsstring) (d : Data.t) : Prop :=
  Data.chainName d = chain /\
  getNetworkConfig env chain = Ok (Data.networkConfig d) /\
  Data.lzEid d = lzEid (Data.networkConfig d).

(** The contracts and summary entries that deployments on [chains], one
    after the other and all successful, add to the handler's arrays. *)
Definition deployedAll (env : Env) (chains : list jsstring) (st st' : Locals) : Prop :=
  exists ds ss,
    deployedContractsData st' = deployedContractsData st ++ ds /\
    Forall2 (deployedOn env) chains ds /\
    deployedContractsSummary st' = deployedContractsSummary st ++ ss /\
    Forall succeeded ss.

(** The notices of the phases that have nothing to do. *)
Definition peeringSkipped : jsstring :=
  js "Skipping peering phase: Less than 2 contracts successfully deployed.".

Definition noPeersFor (d : Data.t) : jsstring :=
  js "  Configuring enforced options on " ++ Data.chainName d ++
  js " (Address: " ++ Data.address d ++ js "):" ++
  js " No peers to set enforced options for.".

(** The handler's arrays at the start of the loop of phase B, and at the
    start of its [try] block for a chain. *)
Definition atLoopStart (params : DeployParams) (envOwnerAddress : jsstring)
    (st : Locals) : Locals :=
  let deployOwner :=
    match owner params with
    | Some (c :: o) => c :: o
    | _ => envOwnerAddress
    end in
  snd (fst ((bind (pushResult (10 :: js "Phase B: Deployment Phase started."))
               (fun _ => pushResult (cat [js "Deployment owner set to: "; deployOwner])))
              st [])).

Definition deployOwnerOf (params : DeployParams) (envOwnerAddress : jsstring) : jsstring :=
  match owner params with
  | Some (c :: o) => c :: o
  | _ => envOwnerAddress
  end.

Definition atAttempt (chain : jsstring) (st : Locals) : Locals :=
  snd (fst (pushResult (cat [js "Attempting deployment on "; chain; js "..."]) st [])).

(** A big-endian integer. *)
Definition bigEndian (bs : bytes) : Z := fold_left (fun acc b => 256 * acc + b) bs 0.

Import Startup.

(** ** The address format *)

(** A digit of a hex string as [hexlify] writes it. *)
Definition isLowerHexDigit (c : Z) : bool :=
  ((48 <=? c) && (c <=? 57)) || ((97 <=? c) && (c <=? 102)).

(** The letters A to Z of a string in lower case, as in a checksummed
    address written without its capitals. *)
Definition asciiLower (s : jsstring) : jsstring :=
  map (fun c => if (65 <=? c) && (c <=? 90) then c + 32 else c) s.

(** A hex digit, in either case. *)
Definition isHexDigit (c : Z) : bool :=
  ((48 <=? c) && (c <=? 57)) || ((97 <=? c) && (c <=? 102))
  || ((65 <=? c) && (c <=? 70)).

(** A hex string of whole bytes: the characters 0x, the x in either case,
    and then hex digits, two for each byte. *)
Definition hexStringOfBytes (s : jsstring) : bool :=
  match s with
  | zero :: x :: digits =>
      (zero =? 48) && ((x =? 120) || (x =? 88))
      && Nat.even (length digits) && forallb isHexDigit digits
  | _ => false
  end.

(** The number of bytes that a hex string of whole bytes holds. *)
Definition byteLength (s : jsstring) : nat := (length s - 2) / 2.

(** ** Loading the modules *)

(** The variables without which the modules do not load, in the order in
    which they are checked. *)
Definition required : list (string * (ProcessEnv -> option jsstring)) :=
  [ ("PRIVATE_KEY", var_PRIVATE_KEY);
    ("OWNER_ADDRESS", var_OWNER_ADDRESS);
    ("ARBITRUM_SEPOLIA_RPC_URL", var_ARBITRUM_SEPOLIA_RPC_URL);
    ("BASE_SEPOLIA_RPC_URL", var_BASE_SEPOLIA_RPC_URL) ]%string.

(** The first of the required variables that is not set. *)
Definition firstUnset (vars : ProcessEnv) : option string :=
  option_map fst (find (fun entry => unset (snd entry vars)) required).

(** ** The calls of a bridge request *)

(** The contract a bridge request works on: the token at the address given,
    through a signer on the source chain. *)
Definition onSourceChain (env : Env) (params : BridgeParams) (c : Contract) : Prop :=
  exists fromNetwork,
    getNetworkConfig env (fromChain params) = Ok fromNetwork /\
    signerRpc (runner c) = rpc fromNetwork /\
    target c = tokenAddress params.

(** The parameters a bridge request is quoted and sent with. *)
Definition sendParamOf (env : Env) (params : BridgeParams) (p : SendParam) : Prop :=
  exists toNetwork,
    getNetworkConfig env (toChain params) = Ok toNetwork /\
    dstEid p = lzEid toNetwork /\
    formatAddressForLayerZero (receiverAddress params) = Ok (to p) /\
    Runtime.extraOptions p =
      match extraOptions params with
      | [] => js "0x"
      | given => given
      end /\
    composeMsg p = js "0x" /\ oftCmd p = js "0x".

(** What a call of the bridge handler may be. *)
Definition bridgeCall (env : Env) (params : BridgeParams) (ev : Event) : Prop :=
  match ev with
  | ReadFile path => path = oftPath
  | NewWallet url =>
      fromChain params <> toChain params /\
      exists fromNetwork,
        getNetworkConfig env (fromChain params) = Ok fromNetwork /\
        url = rpc fromNetwork
  | QuoteSend c p payInLzToken =>
      onSourceChain env params c /\ sendParamOf env params p /\ payInLzToken = false
  | Send c p fee refundAddress value =>
      onSourceChain env params c /\ sendParamOf env params p /\
      lzTokenFee fee = 0 /\ value = nativeFee fee /\
      refundAddress = signerAddress (runner c)
  | TxWait _ => True
  | ConsoleError msg _ => msg = js "Error bridging OFT:"
  | FactoryDeploy _ _ _ | LastDeployedAddress _ | SetPeer _ _ _
  | SetEnforcedOptions _ _ => False
  end.

Definition sendCalls (tr : Trace) : list Event :=
  filter (fun ev => match ev with Send _ _ _ _ _ => true | _ => false end) tr.

Definition quoteCalls (tr : Trace) : list Event :=
  filter (fun ev => match ev with QuoteSend _ _ _ => true | _ => false end) tr.

(** ** The parts of the deployment handler *)

(** The handler's arrays of records are the same; its logs may differ. *)
Definition sameRecords (st st' : Locals) : Prop :=
  deployedContractsSummary st' = deployedContractsSummary st /\
  deployedContractsData st' = deployedContractsData st.

(** The bytecode of the artifact as the handler uses it, with its prefix. *)
Definition prefixed (object : jsstring) : jsstring :=
  if startsWith object (js "0x") then object else js "0x" ++ object.

(** The errors of phase A. *)
Definition ownerMissingMessage : jsstring :=
  js "Error: OWNER_ADDRESS is not set in environment variables.".

Definition noChainsMessage : jsstring :=
  js "Error: Failed to Deploy OFT: Error: targetChains array is empty. Please provide at least one target chain.".

(** [!process.env.OWNER_ADDRESS] *)
Definition ownerMissing (env : Env) : Prop :=
  OWNER_ADDRESS env = None \/ OWNER_ADDRESS env = Some [].

(** What a loop body, a phase or the handler ends with: it goes on, it
    returns a result, or it throws. *)
Definition outcome (I : Locals -> Trace -> Prop)
    (R : ToolResult -> Locals -> Trace -> Prop)
    (T : JsError -> Locals -> Trace -> Prop)
    (r : Result (option ToolResult)) (st : Locals) (tr : Trace) : Prop :=
  match r with
  | Ok None => I st tr
  | Ok (Some res) => R res st tr
  | Throw e => T e st tr
  end.

Definition answer (R : ToolResult -> Locals -> Trace -> Prop)
    (T : JsError -> Locals -> Trace -> Prop)
    (r : Result ToolResult) (st : Locals) (tr : Trace) : Prop :=
  match r with
  | Ok res => R res st tr
  | Throw e => T e st tr
  end.

(** ** The calls of a deployment request *)

(** The factory of a chain of the request, through a signer on that chain. *)
Definition factoryOf (env : Env) (params : DeployParams) (factory : Contract) : Prop :=
  exists chain network,
    In chain (targetChains params) /\
    getNetworkConfig env chain = Ok network /\
    signerRpc (runner factory) = rpc network /\
    Utils.lookup (FACTORY_ADDRESSES env) chain = Some (Some (target factory)) /\
    target factory <> [].

(** What a call of the deployment handler may be. *)
Definition deployCall (env : Env) (params : DeployParams) (ev : Event) : Prop :=
  match ev with
  | ReadFile path => path = oftPath \/ path = factoryPath
  | NewWallet url =>
      exists chain network,
        In chain (targetChains params) /\
        getNetworkConfig env chain = Ok network /\ url = rpc network
  | FactoryDeploy factory _ _ => factoryOf env params factory
  | LastDeployedAddress factory => factoryOf env params factory
  | SetPeer _ _ peer => exists bs, getBytes peer = Ok bs /\ length bs = 32%nat
  | SetEnforcedOptions _ opts =>
      opts <> [] /\
      Forall (fun o => msgType o = 1 /\ options o = standardOptionsHex) opts
  | TxWait _ | ConsoleError _ _ => True
  | QuoteSend _ _ _ | Send _ _ _ _ _ => False
  end.

(** The transaction a call returned, when it returned one: the answer of
    the world to the call, made after the calls [before]. *)
Definition sentBy (world : World) (before : Trace) (ev : Event) : option Tx :=
  let sent (r : Result Tx) :=
    match r with
    | Ok tx => Some tx
    | Throw _ => None
    end in
  match ev with
  | FactoryDeploy factory code salt => sent (factoryDeploy world before factory code salt)
  | SetPeer c peerEid peer => sent (setPeer world before c peerEid peer)
  | SetEnforcedOptions c opts => sent (setEnforcedOptions world before c opts)
  | Send c p fee refundAddress value =>
      sent (send world before c p fee refundAddress value)
  | _ => None
  end.

(** A trace in which every transaction sent is waited for at once. *)
Inductive Awaited (world : World) : Trace -> Prop :=
| awaited_nil : Awaited world []
| awaited_call tr ev :
    Awaited world tr -> sentBy world tr ev = None -> Awaited world (tr ++ [ev])
| awaited_sent tr ev tx :
    Awaited world tr -> sentBy world tr ev = Some tx ->
    Awaited world (tr ++ [ev; TxWait tx]).

(** ** Phase A *)

(** An artifact the deployment handler accepts.  Its ABI is an array with
    an entry, or a string that is neither empty nor the placeholder, or a
    value that is neither [undefined] nor [null] and has no length 0.  Its
    bytecode is a string that is neither empty nor the placeholder, or
    [false] or [0], which the test lets through and which no deployment can
    be made with. *)
Definition usable (OFT_ABI : Abi) (OFT_BYTECODE : BytecodeObject) : Prop :=
  match OFT_ABI with
  | AbiUndefined | AbiNull => False
  | AbiString s => s <> [] /\ s <> js "ABI_PLACEHOLDER"
  | AbiArray fragments => fragments <> []
  | AbiOther lengthIsZero => lengthIsZero = false
  end /\
  match OFT_BYTECODE with
  | ObjectString b => b <> [] /\ b <> js "BYTECODE_PLACEHOLDER"
  | ObjectFalsy => True
  | ObjectUndefined | ObjectNull | ObjectTruthy _ => False
  end.

(** The checks of phase A pass. *)
Definition checksPass (world : World) (env : Env) (params : DeployParams) : Prop :=
  exists owner artifact object,
    OWNER_ADDRESS env = Some owner /\ owner <> [] /\
    readJson world [] oftPath = Ok artifact /\
    bytecode artifact = BytecodeValue object /\
    usable (abi artifact) object /\
    targetChains params <> [].

(** The trace begins with the reading of the token's artifact. *)
Definition readsArtifactFirst (tr : Trace) : Prop :=
  exists more, tr = ReadFile oftPath :: more.

(** What phase A makes of a run that ends with [r] after the calls [tr]. *)
Definition phaseA (world : World) (env : Env) (params : DeployParams)
    (r : Result ToolResult) (tr : Trace) : Prop :=
  (Exists (fun ev => isNetworkCall ev = true) tr -> checksPass world env params) /\
  (ownerMissing env -> r = Ok (errorResult ownerMissingMessage) /\ tr = []) /\
  (~ ownerMissing env ->
   readsArtifactFirst tr /\
   (forall e, readJson world [] oftPath = Throw e ->
      r = Throw e /\ tr = [ReadFile oftPath]) /\
   (forall artifact e,
      readJson world [] oftPath = Ok artifact ->
      objectOf (bytecode artifact) = Throw e ->
      r = Throw e /\ tr = [ReadFile oftPath]) /\
   (forall artifact object e,
      readJson world [] oftPath = Ok artifact ->
      bytecode artifact = BytecodeValue object ->
      artifactUnusable (abi artifact) object = Throw e ->
      r = Throw e /\ tr = [ReadFile oftPath]) /\
   (forall artifact object,
      readJson world [] oftPath = Ok artifact ->
      bytecode artifact = BytecodeValue object ->
      artifactUnusable (abi artifact) object = Ok true ->
      r = Ok (errorResult placeholderMessage) /\ tr = [ReadFile oftPath]) /\
   (forall artifact object e,
      readJson world [] oftPath = Ok artifact ->
      bytecode artifact = BytecodeValue object ->
      artifactUnusable (abi artifact) object = Ok false ->
      withPrefix object = Throw e ->
      r = Throw e /\ tr = [ReadFile oftPath]) /\
   (forall artifact object code,
      readJson world [] oftPath = Ok artifact ->
      bytecode artifact = BytecodeValue object ->
      artifactUnusable (abi artifact) object = Ok false ->
      withPrefix object = Ok code ->
      targetChains params = [] ->
      r = Ok (errorResult noChainsMessage) /\ tr = [ReadFile oftPath])).

(** ** The order of the deployments *)

(** The deployment calls of a trace, in order: the factory called, the
    bytecode with the constructor arguments, and the salt. *)
Definition deployCallsOf (tr : Trace) : list (Contract * jsstring * jsstring) :=
  flat_map (fun ev =>
              match ev with
              | FactoryDeploy factory code salt => [(factory, code, salt)]
              | _ => []
              end) tr.

(** The deployment call for a chain: to the factory whose address the
    environment gives for the chain, through a signer on the chain, with the
    token's bytecode followed by its constructor arguments, of which the
    endpoint is the chain's, and with the salt of the token. *)
Definition deploymentFor (world : World) (env : Env) (params : DeployParams)
    (OFT_ABI : Abi) (OFT_BYTECODE deployOwner chain : jsstring)
    (call : Contract * jsstring * jsstring) : Prop :=
  let '(factory, bytecodeWithArgs, salt) := call in
  exists network supply constructorArgs,
    getNetworkConfig env chain = Ok network /\
    Utils.lookup (FACTORY_ADDRESSES env) chain = Some (Some (target factory)) /\
    signerRpc (runner factory) = rpc network /\
    parseUnits (initialTotalSupply params) 0 = Ok supply /\
    encodeDeploy world OFT_ABI
      (constructorArgsOf params supply (lzEndpoint network) deployOwner)
    = Ok constructorArgs /\
    solidityPacked2 OFT_BYTECODE constructorArgs = Ok bytecodeWithArgs /\
    deploymentSalt (tokenName params) (tokenSymbol params) = Ok salt.

(** The deployment calls of a trace are those for the first target chains
    of the request, in order, and for all of them when [complete] is set. *)
Definition inOrder (world : World) (env : Env) (params : DeployParams)
    (OFT_ABI : Abi) (OFT_BYTECODE deployOwner : jsstring)
    (complete : bool) (tr : Trace) : Prop :=
  exists k,
    Forall2 (deploymentFor world env params OFT_ABI OFT_BYTECODE deployOwner)
            (firstn k (targetChains params)) (deployCallsOf tr) /\
    (complete = true -> k = length (targetChains params)).

(** ** Failures *)

(** What the [catch] block of phase B computes before it reports a failure
    on [chain]: the salt and the bytecode with the constructor arguments,
    both once more. *)
Definition failureDetails (world : World) (env : Env) (params : DeployParams)
    (OFT_ABI : Abi) (OFT_BYTECODE deployOwner chain : jsstring)
  : Result (jsstring * jsstring) :=
  rbind (match interfaceError world OFT_ABI with
         | Some e => Throw e
         | None => Ok tt
         end) (fun _ =>
  rbind (parseUnits (initialTotalSupply params) 0) (fun supply =>
  rbind (getNetworkConfig env chain) (fun networkConfig =>
  rbind (encodeDeploy world OFT_ABI
           (constructorArgsOf params supply (lzEndpoint networkConfig) deployOwner))
        (fun constructorArgs =>
  rbind (solidityPacked2 OFT_BYTECODE constructorArgs) (fun bytecodeWithArgs =>
  rbind (deploymentSalt (tokenName params) (tokenSymbol params)) (fun salt =>
    Ok (salt, bytecodeWithArgs))))))).

(** The calls made from [before] to [after] hold a deployment call: the
    attempt that made them got as far as calling the factory. *)
Definition calledTheFactory (before after : Trace) : Prop :=
  exists events factory code salt,
    after = before ++ events /\ In (FactoryDeploy factory code salt) events.

(** The entry of the summary for a deployment that failed with [e]. *)
Definition failedOn (chain : jsstring) (e : JsError) : DeployedContractSummary :=
  {| chainName := chain;
     contractAddress := None;
     deploymentStatus := js "Failed";
     error := Some (errText e) |}.

(** A failure of phase B, C or D as the handler reports it: the result is an
    error whose text is the failure line; the line is the last of the log,
    and it was written to the console, with the error caught, as the last
    thing done and the only thing written there; it holds the word FAILURE
    and the text of the error. *)
Definition failureReported (res : ToolResult) (st : Locals) (tr : Trace) : Prop :=
  exists msg e pre log,
    res = errorResult (js "Error: Failed to Deploy OFT: " ++ msg) /\
    tr = pre ++ [ConsoleError msg e] /\ consoleErrors pre = [] /\
    results st = log ++ [msg] /\
    includes msg (js "FAILURE: ") = true /\
    exists head tail, msg = head ++ errText e ++ tail.

(** The handler threw [e] where its [catch] block computes the details of
    a failure. *)
Definition thrownByCatch (world : World) (env : Env) (params : DeployParams)
    (OFT_ABI : Abi) (OFT_BYTECODE deployOwner : jsstring) (e : JsError) : Prop :=
  exists chain,
    In chain (targetChains params) /\
    failureDetails world env params OFT_ABI OFT_BYTECODE deployOwner chain = Throw e.

(** A request refused by the checks of phase A: one of their three errors,
    with no call made to any chain and nothing written to the console. *)
Definition refusedByChecks (res : ToolResult) (tr : Trace) : Prop :=
  (res = errorResult ownerMissingMessage \/
   res = errorResult placeholderMessage \/
   res = errorResult noChainsMessage) /\
  Forall (fun ev => isNetworkCall ev = false) tr /\
  consoleErrors tr = [].

(** Where an error thrown by the deployment handler comes from: the reading
    of the artifact; the properties that phase A reads of it, when the
    bytecode is missing, when the ABI or the bytecode is [null], or when the
    bytecode is neither a string nor [false] nor [0]; or the [catch] block
    of phase B. *)
Definition thrownFrom (world : World) (env : Env) (params : DeployParams)
    (e : JsError) : Prop :=
  readJson world [] oftPath = Throw e \/
  (exists artifact,
      readJson world [] oftPath = Ok artifact /\
      rbind (objectOf (bytecode artifact)) (fun object =>
        rbind (artifactUnusable (abi artifact) object) (fun unusable =>
          if unusable then Ok [] else withPrefix object)) = Throw e) \/
  (exists owner artifact object code,
      OWNER_ADDRESS env = Some owner /\
      readJson world [] oftPath = Ok artifact /\
      bytecode artifact = BytecodeValue object /\
      withPrefix object = Ok code /\
      thrownByCatch world env params (abi artifact) code
                    (deployOwnerOf params owner) e).

(** ** Calls that fail *)

(** The error of an answer that is one. *)
Definition failure {A} (r : Result A) : option JsError :=
  match r with
  | Ok _ => None
  | Throw e => Some e
  end.

(** The error that a call was answered with, when it failed: the answer of
    the world to the call [ev], made after the calls [before]. *)
Definition failedWith (world : World) (env : Env) (before : Trace) (ev : Event)
  : option JsError :=
  match ev with
  | ReadFile path => failure (readJson world before path)
  | NewWallet url => failure (walletAddress world (PRIVATE_KEY env) url)
  | FactoryDeploy factory code salt =>
      failure (factoryDeploy world before factory code salt)
  | TxWait tx => failure (txWait world before tx)
  | LastDeployedAddress factory => failure (lastDeployedAddress world before factory)
  | SetPeer c peerEid peer => failure (setPeer world before c peerEid peer)
  | SetEnforcedOptions c opts => failure (setEnforcedOptions world before c opts)
  | QuoteSend c p payInLzToken => failure (quoteSend world before c p payInLzToken)
  | Send c p fee refundAddress value =>
      failure (send world before c p fee refundAddress value)
  | ConsoleError _ _ => None
  end.

(** A trace in which no call failed. *)
Inductive Unfailed (world : World) (env : Env) : Trace -> Prop :=
| unfailed_nil : Unfailed world env []
| unfailed_call tr ev :
    Unfailed world env tr -> failedWith world env tr ev = None ->
    Unfailed world env (tr ++ [ev]).

(** The calls that configure the mesh, made after the calls [before]: a
    [setPeer] call, a [setEnforcedOptions] call, and the wait for the
    transaction that either returned. *)
Definition configures (before : Trace) (ev : Event) : bool :=
  match ev with
  | SetPeer _ _ _ | SetEnforcedOptions _ _ => true
  | TxWait _ =>
      match rev before with
      | SetPeer _ _ _ :: _ | SetEnforcedOptions _ _ :: _ => true
      | _ => false
      end
  | _ => false
  end.

(** A run that stops at the first call that fails.  Either no call failed;
    or the call that failed is the last thing done, it is no call that
    configures the mesh, and the handler threw; or the failure was written
    to the console, as the one thing done after the call, and the handler
    returned the error of the failure, which holds the text of the error. *)
Definition stopsAtFailure (world : World) (env : Env)
    (r : Result ToolResult) (tr : Trace) : Prop :=
  Unfailed world env tr \/
  exists pre ev e,
    Unfailed world env pre /\ failedWith world env pre ev = Some e /\
    ((tr = pre ++ [ev] /\ configures pre ev = false /\ exists e', r = Throw e') \/
     (exists msg head tail,
        tr = pre ++ [ev; ConsoleError msg e] /\
        r = Ok (errorResult (js "Error: Failed to Deploy OFT: " ++ msg)) /\
        msg = head ++ errText e ++ tail)).

(** ** The records of the deployed contracts *)

(** The entry of the summary for a contract that was deployed. *)
Definition summaryOf (d : Data.t) : DeployedContractSummary :=
  {| chainName := Data.chainName d;
     contractAddress := Some (Data.address d);
     deploymentStatus := js "Success";
     error := None |}.

(** The record the handler keeps of a deployed contract: the configuration
    and the endpoint id are those of its chain, and the contract instance is
    the token's contract at the address deployed to, through a signer on
    that chain. *)
Definition recorded (env : Env) (OFT_ABI : Abi) (d : Data.t) : Prop :=
  getNetworkConfig env (Data.chainName d) = Ok (Data.networkConfig d) /\
  Data.lzEid d = lzEid (Data.networkConfig d) /\
  target (Data.contractInstance d) = Data.address d /\
  interface (Data.contractInstance d) = OFT_ABI /\
  signerRpc (runner (Data.contractInstance d)) = rpc (Data.networkConfig d).

(** The summary says what the records say. *)
Definition wellRecorded (env : Env) (OFT_ABI : Abi) (st : Locals) : Prop :=
  deployedContractsSummary st = map summaryOf (deployedContractsData st) /\
  Forall (recorded env OFT_ABI) (deployedContractsData st).

(** The hex digits of the artifact's bytecode, which may or may not be
    written with the prefix 0x. *)
Definition digitsOfBytecode (object : jsstring) : jsstring :=
  if startsWith object (js "0x") then skipn 2 object else object.

End Vocabulary.
Import Vocabulary Server Scenarios Startup.

(* ===================================================================== *)
(** * Facts about the library functions *)
(* ===================================================================== *)

Section HexFacts.

Lemma jseq_true (a b : jsstring) : jseq a b = true <-> a = b.
Proof.
  unfold jseq. destruct (list_eq_dec Z.eq_dec a b); split; congruence.
Qed.

Lemma jseq_false a b : jseq a b = false -> a <> b.
Proof.
  intros H Heq. apply jseq_true in Heq. congruence.
Qed.

(** Template literals of two and of three parts. *)
Lemma cat2 a b : cat [a; b] = a ++ b.
Proof. unfold cat. cbn [concat]. rewrite app_nil_r. reflexivity. Qed.

Lemma cat3 a b c : cat [a; b; c] = a ++ b ++ c.
Proof. unfold cat. cbn [concat]. rewrite app_nil_r. reflexivity. Qed.


Lemma hexVal_range c v : hexVal c = Some v -> 0 <= v < 16.
Proof.
  unfold hexVal.
  destruct ((48 <=? c) && (c <=? 57)) eqn:E1;
    [ intros [= <-]; lia |].
  destruct ((97 <=? c) && (c <=? 102)) eqn:E2;
    [ intros [= <-]; lia |].
  destruct ((65 <=? c) && (c <=? 70)) eqn:E3;
    [ intros [= <-]; lia | discriminate ].
Qed.

Lemma hexPairs_cons2 a b rest :
  hexPairs (a :: b :: rest) =
  match hexVal a, hexVal b, hexPairs rest with
  | Some h, Some l, Some bs => Some (16 * h + l :: bs)
  | _, _, _ => None
  end.
Proof. reflexivity. Qed.

Lemma hexPairs_bytes : forall s bs, hexPairs s = Some bs -> Forall isByte bs.
Proof.
  fix IH 1. intros [| a [| b rest]] bs.
  - intros [= <-]. constructor.
  - discriminate.
  - rewrite hexPairs_cons2.
    destruct (hexVal a) as [h |] eqn:Ha; [| discriminate].
    destruct (hexVal b) as [l |] eqn:Hb; [| discriminate].
    destruct (hexPairs rest) as [bs' |] eqn:Hr; [| discriminate].
    intros H. apply (f_equal (fun o => match o with Some x => x | None => [] end)) in H.
    subst bs. constructor.
    + apply hexVal_range in Ha. apply hexVal_range in Hb. unfold isByte. lia.
    + apply (IH rest). exact Hr.
Qed.

Lemma hexVal_hexChar n : 0 <= n < 16 -> hexVal (hexChar n) = Some n.
Proof.
  intros Hn. unfold hexChar, hexVal.
  destruct (Z.ltb_spec n 10) as [Hdec | Hlet].
  - replace ((48 <=? 48 + n) && (48 + n <=? 57)) with true
      by (symmetry; apply andb_true_intro; split; apply Z.leb_le; lia).
    f_equal. lia.
  - replace ((48 <=? 87 + n) && (87 + n <=? 57)) with false
      by (symmetry; apply andb_false_intro2, Z.leb_gt; lia).
    replace ((97 <=? 87 + n) && (87 + n <=? 102)) with true
      by (symmetry; apply andb_true_intro; split; apply Z.leb_le; lia).
    f_equal. lia.
Qed.

Lemma byte_nibbles b : isByte b ->
  0 <= Z.shiftr b 4 < 16 /\ 0 <= Z.land b 15 < 16 /\
  16 * Z.shiftr b 4 + Z.land b 15 = b.
Proof.
  intros [Hlo Hhi].
  rewrite Z.shiftr_div_pow2 by lia.
  change 15 with (Z.ones 4). rewrite Z.land_ones by lia.
  change (2 ^ 4) with 16.
  pose proof (Z.div_mod b 16 ltac:(lia)).
  pose proof (Z.mod_pos_bound b 16 ltac:(lia)).
  assert (0 <= b / 16 < 16) by (split; [apply Z.div_pos | apply Z.div_lt_upper_bound]; lia).
  lia.
Qed.

Lemma hexPairs_hexDigits bs : Forall isByte bs -> hexPairs (hexDigits bs) = Some bs.
Proof.
  induction 1 as [| b bs Hb _ IH]; [reflexivity |].
  destruct (byte_nibbles b Hb) as (Hh & Hl & Heq).
  change (hexDigits (b :: bs))
    with (hexChar (Z.shiftr b 4) :: hexChar (Z.land b 15) :: hexDigits bs).
  rewrite hexPairs_cons2, (hexVal_hexChar _ Hh), (hexVal_hexChar _ Hl), IH, Heq.
  reflexivity.
Qed.

Lemma getBytes_hexlify bs : Forall isByte bs -> getBytes (hexlify bs) = Ok bs.
Proof.
  intros H. unfold hexlify. cbn. rewrite (hexPairs_hexDigits bs H). reflexivity.
Qed.

Lemma getBytes_bytes s bs : getBytes s = Ok bs -> Forall isByte bs.
Proof.
  unfold getBytes.
  destruct s as [| zero [| x digits]]; try discriminate.
  destruct ((zero =? 48) && ((x =? 120) || (x =? 88))); [| discriminate].
  destruct (hexPairs digits) as [bs' |] eqn:Hp; [| discriminate].
  intros H. apply hexPairs_bytes with (s := digits). congruence.
Qed.

End HexFacts.

Section ParseFacts.

Lemma takeDigits_app ds rest :
  digits ds ->
  match rest with [] => True | c :: _ => isDigit c = false end ->
  takeDigits (ds ++ rest) = (ds, rest).
Proof.
  intros Hds Hrest. induction Hds as [| c ds Hc _ IH].
  - destruct rest as [| c rest]; [reflexivity |].
    cbn [app takeDigits]. rewrite Hrest. reflexivity.
  - cbn [app takeDigits]. rewrite Hc, IH. reflexivity.
Qed.

Lemma takeDigits_all ds : digits ds -> takeDigits ds = (ds, []).
Proof.
  intros H. rewrite <- (app_nil_r ds) at 1. apply takeDigits_app; [exact H | exact I].
Qed.

Lemma digitsToZ_snoc ds c : digitsToZ (ds ++ [c]) = 10 * digitsToZ ds + (c - 48).
Proof. unfold digitsToZ. rewrite fold_left_app. reflexivity. Qed.

Lemma digitsToZ_zeros ds n : digitsToZ (ds ++ repeat 48 n) = digitsToZ ds * 10 ^ Z.of_nat n.
Proof.
  revert ds. induction n as [| n IH]; intros ds.
  - cbn [repeat]. rewrite app_nil_r. change (10 ^ Z.of_nat 0) with 1. lia.
  - change (repeat 48 (S n)) with ([48] ++ repeat 48 n).
    rewrite app_assoc, IH, digitsToZ_snoc, Nat2Z.inj_succ, Z.pow_succ_r by lia. lia.
Qed.

Lemma digitsToZ_app a b :
  digitsToZ (a ++ b) = digitsToZ a * 10 ^ Z.of_nat (length b) + digitsToZ b.
Proof.
  induction b as [| c b IH] using rev_ind.
  - rewrite app_nil_r. cbn. lia.
  - rewrite app_assoc, !digitsToZ_snoc, IH, length_app. cbn [length].
    replace (Z.of_nat (length b + 1)) with (Z.succ (Z.of_nat (length b))) by lia.
    rewrite Z.pow_succ_r by lia. lia.
Qed.

Lemma digitsToZ_nonneg ds : digits ds -> 0 <= digitsToZ ds.
Proof.
  induction ds as [| c ds IH] using rev_ind; intros H; [cbn; lia |].
  apply Forall_app in H as [Hds Hc]. inversion Hc as [| ? ? Hd _]; subst.
  rewrite digitsToZ_snoc. specialize (IH Hds). unfold isDigit in Hd. lia.
Qed.

(** The padding loop appends zeros, and enough of them. *)
Lemma padRight_spec fuel : forall decimal decimals,
  exists k, padRight fuel decimal decimals = decimal ++ repeat 48 k /\
            ((decimals <= length decimal + 4 * fuel)%nat ->
             (decimals <= length decimal + k)%nat).
Proof.
  induction fuel as [| fuel IH]; intros decimal decimals; cbn [padRight].
  - exists 0%nat. rewrite app_nil_r. split; [reflexivity | lia].
  - destruct (Nat.ltb_spec (length decimal) decimals) as [Hlt | Hge].
    + destruct (IH (decimal ++ js "0000") decimals) as (k & -> & Hk).
      exists (4 + k)%nat. split.
      * rewrite <- app_assoc. reflexivity.
      * intros H. rewrite length_app in Hk. cbn [length js map list_ascii_of_string] in Hk.
        lia.
    + exists 0%nat. rewrite app_nil_r. split; [reflexivity | lia].
Qed.

Lemma skipn_zeros n m : skipn n (repeat 48 m) = repeat 48 (m - n).
Proof.
  revert m. induction n as [| n IH]; intros [| m]; cbn; auto.
Qed.

Lemma firstn_zeros n m : firstn n (repeat 48 m) = repeat 48 (Nat.min n m).
Proof.
  revert m. induction n as [| n IH]; intros [| m]; cbn; auto.
  rewrite IH. reflexivity.
Qed.

Lemma forallb_zeros n : forallb (Z.eqb 48) (repeat 48 n) = true.
Proof. induction n; [reflexivity | exact IHn]. Qed.

(** What [parseUnits] makes of the digits after the point. *)
Lemma fraction_padded frac decimals :
  (length frac <= decimals)%nat ->
  forallb (Z.eqb 48) (skipn decimals (padRight decimals frac decimals)) = true /\
  firstn decimals (padRight decimals frac decimals)
  = frac ++ repeat 48 (decimals - length frac).
Proof.
  intros Hlen.
  destruct (padRight_spec decimals frac decimals) as (k & -> & Hk).
  specialize (Hk ltac:(lia)). split.
  - rewrite skipn_app, skipn_all2 by lia. cbn [app].
    rewrite skipn_zeros. apply forallb_zeros.
  - rewrite firstn_app, firstn_all2 by lia. f_equal.
    rewrite firstn_zeros. f_equal. lia.
Qed.

Lemma takeSign_digits whole rest :
  digits whole ->
  match whole with [] => match rest with [] => True | c :: _ => c <> 45 end | _ => True end ->
  takeSign (whole ++ rest) = (false, whole ++ rest).
Proof.
  intros Hw Hrest. unfold takeSign. destruct whole as [| c whole].
  - destruct rest as [| c rest]; [reflexivity |]. cbn [app].
    destruct (Z.eqb_spec c 45); [contradiction | reflexivity].
  - inversion Hw as [| ? ? Hc _]; subst. cbn [app].
    unfold isDigit in Hc. destruct (Z.eqb_spec c 45); [lia | reflexivity].
Qed.

Lemma whole_or_zero whole :
  digitsToZ (match whole with [] => js "0" | _ :: _ => whole end) = digitsToZ whole.
Proof. destruct whole; reflexivity. Qed.

(** A string of digits, a point and at most [decimals] digits is the
    fixed-point number it reads as: the digits before the point count
    [10 ^ decimals] each, the digits after it fill the places below. *)
Lemma parseUnits_fixed_point whole frac decimals :
  digits whole -> digits frac ->
  (0 < length whole + length frac)%nat ->
  (length frac <= decimals)%nat ->
  parseUnits (whole ++ [46] ++ frac) decimals
  = checkValue (digitsToZ whole * 10 ^ Z.of_nat decimals
                + digitsToZ frac * 10 ^ Z.of_nat (decimals - length frac)).
Proof.
  intros Hw Hf Hpos Hlen. unfold parseUnits.
  rewrite takeSign_digits by (exact Hw || (destruct whole; cbn; [lia | exact I])).
  rewrite takeDigits_app by (exact Hw || reflexivity).
  cbn [app skipPoint]. change (46 =? 46) with true. cbv iota.
  rewrite takeDigits_all by exact Hf.
  destruct (Nat.eqb_spec (length whole + length frac) 0) as [H0 | _]; [lia |].
  destruct (fraction_padded frac decimals Hlen) as [-> ->].
  f_equal.
  rewrite digitsToZ_app, whole_or_zero, digitsToZ_zeros, length_app, repeat_length.
  f_equal. f_equal. f_equal. lia.
Qed.

(** A string of digits alone is the integer it reads as, times
    [10 ^ decimals]. *)
Lemma parseUnits_integer whole decimals :
  digits whole -> (0 < length whole)%nat ->
  parseUnits whole decimals = checkValue (digitsToZ whole * 10 ^ Z.of_nat decimals).
Proof.
  intros Hw Hpos. unfold parseUnits.
  rewrite <- (app_nil_r whole) at 1.
  rewrite takeSign_digits by (exact Hw || (destruct whole; cbn in *; [lia | exact I])).
  rewrite app_nil_r, takeDigits_all by exact Hw. cbn [skipPoint takeDigits length].
  destruct (Nat.eqb_spec (length whole + 0) 0) as [H0 | _]; [lia |].
  destruct (fraction_padded [] decimals ltac:(cbn; lia)) as [-> ->].
  f_equal. cbn [app length].
  rewrite digitsToZ_zeros, whole_or_zero. f_equal. f_equal. lia.
Qed.

(** With no decimals, a digit other than zero after the point is refused. *)
Lemma parseUnits_0_fraction whole frac :
  digits whole -> digits frac ->
  forallb (Z.eqb 48) frac = false ->
  parseUnits (whole ++ [46] ++ frac) 0
  = Throw (numericFault "too many decimals for format").
Proof.
  intros Hw Hf Hnz. unfold parseUnits.
  rewrite takeSign_digits by (exact Hw || (destruct whole; cbn; [lia | exact I])).
  rewrite takeDigits_app by (exact Hw || reflexivity).
  cbn [app skipPoint]. change (46 =? 46) with true. cbv iota.
  rewrite takeDigits_all by exact Hf.
  destruct frac as [| c frac]; [discriminate |].
  destruct (Nat.eqb_spec (length whole + length (c :: frac)) 0) as [H0 | _];
    [cbn in H0; lia |].
  cbn [padRight skipn]. rewrite Hnz. reflexivity.
Qed.

End ParseFacts.

Section LibraryExamples.

Example keccak256_of_nothing :
  keccak256 [] = js "0xc5d2460186f7233c927e7db2dcc703c0e500b653ca82273b7bfad8045d85a470".
Proof. vm_compute. reflexivity. Qed.

Example keccak256_of_abc :
  rbind (toUtf8Bytes (js "abc")) (fun data => Ok (keccak256 data)) =
  Ok (js "0x4e03657aea45a94fc7d47ba826c8d667c0d1e6e33a64a036ec44f58fa12d6c45").
Proof. vm_compute. reflexivity. Qed.

(** U+00E9, U+20AC and U+1F600 (a surrogate pair), and a lone high
    surrogate. *)
Example toUtf8Bytes_beyond_ascii :
  toUtf8Bytes [0xe9; 0x20ac; 0xd83d; 0xde00]
  = Ok [0xc3; 0xa9; 0xe2; 0x82; 0xac; 0xf0; 0x9f; 0x98; 0x80] /\
  toUtf8Bytes [0x41; 0xd83d] = Throw invalidSurrogate.
Proof. split; reflexivity. Qed.

Example parseUnits_examples :
  parseUnits (js "50") 18 = Ok 50000000000000000000 /\
  parseUnits (js "-0.5") 2 = Ok (-50) /\
  parseUnits (js "1.50") 1 = Ok 15 /\
  parseUnits (js "1.0") 0 = Ok 1 /\
  parseUnits (js "007") 0 = Ok 7 /\
  isOk (parseUnits (js "1.5") 0) = false /\
  isOk (parseUnits (js ".") 2) = false /\
  isOk (parseUnits (js "1e3") 0) = false /\
  isOk (parseUnits (js "500,000") 0) = false /\
  isOk (parseUnits (js "") 0) = false.
Proof. repeat split; reflexivity. Qed.

Example formatUnits_examples :
  formatUnits 1500000000000000 = Ok (js "0.0015") /\
  formatUnits 1 = Ok (js "0.000000000000000001") /\
  formatUnits 0 = Ok (js "0.0") /\
  formatUnits (-20000000000000000000) = Ok (js "-20.0").
Proof. repeat split; reflexivity. Qed.

End LibraryExamples.

Section AddressCodec.

Lemma repeat_zero_bytes n : Forall isByte (repeat 0 n).
Proof.
  induction n; cbn; constructor; [unfold isByte; lia | assumption].
Qed.

Lemma zeroPadValue_ok data bs len :
  getBytes data = Ok bs -> (length bs <= len)%nat ->
  zeroPadValue data len = Ok (hexlify (repeat 0 (len - length bs) ++ bs)) /\
  getBytes (hexlify (repeat 0 (len - length bs) ++ bs))
    = Ok (repeat 0 (len - length bs) ++ bs).
Proof.
  intros Hb Hlen. unfold zeroPadValue. rewrite Hb. cbn [rbind].
  apply Nat.leb_le in Hlen. rewrite Hlen. split; [reflexivity |].
  apply getBytes_hexlify. apply Forall_app. split.
  - apply repeat_zero_bytes.
  - eapply getBytes_bytes; eauto.
Qed.

(** C8.  For a hex string of exactly 20 bytes, [formatAddressForLayerZero]
    returns a hex string of exactly 32 bytes: twelve zero bytes followed by
    the twenty bytes of the address. *)
Theorem formatAddress_pads_20_to_32 (address : jsstring) (bs : bytes) :
  getBytes address = Ok bs ->
  length bs = 20%nat ->
  exists padded,
    formatAddressForLayerZero address = Ok padded /\
    padded = js "0x" ++ hexDigits (repeat 0 12) ++ hexDigits bs /\
    getBytes padded = Ok (repeat 0 12 ++ bs) /\
    length (repeat 0 12 ++ bs) = 32%nat /\
    firstn 12 (repeat 0 12 ++ bs) = repeat 0 12 /\
    skipn 12 (repeat 0 12 ++ bs) = bs.
Proof.
  intros Hb Hlen.
  destruct (zeroPadValue_ok address bs 32 Hb ltac:(lia)) as [Hpad Hback].
  rewrite Hlen in Hpad, Hback. change (32 - 20)%nat with 12%nat in Hpad, Hback.
  exists (hexlify (repeat 0 12 ++ bs)).
  split; [exact Hpad |].
  split; [unfold hexlify, hexDigits; rewrite flat_map_app; reflexivity |].
  split; [exact Hback |].
  split; [rewrite length_app, repeat_length; lia |].
  split; reflexivity.
Qed.

Lemma formatAddress_pads_20_to_32_witness :
  exists padded,
    formatAddressForLayerZero (js "0x6EDCE65403992e310A62460808c4b910D972f10f") = Ok padded /\
    padded = js "0x000000000000000000000000" ++
             js "6edce65403992e310a62460808c4b910d972f10f".
Proof.
  destruct (formatAddress_pads_20_to_32
              (js "0x6EDCE65403992e310A62460808c4b910D972f10f")
              [0x6E; 0xDC; 0xE6; 0x54; 0x03; 0x99; 0x2e; 0x31; 0x0A; 0x62;
               0x46; 0x08; 0x08; 0xc4; 0xb9; 0x10; 0xD9; 0x72; 0xf1; 0x0f]
              eq_refl eq_refl) as (padded & Hfmt & Hstr & _).
  exists padded. split; [exact Hfmt | exact Hstr].
Defined.

(** C9, as stated, fails: a hex string of two bytes is not a 20-byte
    address, and [formatAddressForLayerZero] pads it instead of failing. *)
Lemma formatAddress_pads_short_input :
  ~ wellFormedAddress (js "0x1234") /\
  formatAddressForLayerZero (js "0x1234")
  = Ok (js "0x0000000000000000000000000000000000000000000000000000000000001234").
Proof.
  split; [| reflexivity].
  intros (bs & Hb & Hlen). cbv in Hb. injection Hb as <-. discriminate Hlen.
Qed.

Lemma isHexDigit_hexVal c :
  isHexDigit c = match hexVal c with Some _ => true | None => false end.
Proof.
  unfold isHexDigit, hexVal.
  destruct ((48 <=? c) && (c <=? 57)); [reflexivity |].
  destruct ((97 <=? c) && (c <=? 102)); [reflexivity |].
  destruct ((65 <=? c) && (c <=? 70)); reflexivity.
Qed.

(** The pairs of digits of a string are bytes exactly when the string has an
    even number of characters, all of them hex digits. *)
Lemma hexPairs_defined : forall digits,
  match hexPairs digits with Some _ => true | None => false end
  = Nat.even (length digits) && forallb isHexDigit digits.
Proof.
  fix IH 1. intros [| a [| b rest]]; [reflexivity | reflexivity |].
  rewrite hexPairs_cons2.
  change (Nat.even (length (a :: b :: rest))) with (Nat.even (length rest)).
  cbn [forallb]. rewrite !isHexDigit_hexVal. pose proof (IH rest) as H.
  destruct (hexPairs rest), (Nat.even (length rest)), (forallb isHexDigit rest);
    cbn [andb] in H; try discriminate H;
    destruct (hexVal a), (hexVal b); reflexivity.
Qed.

Lemma hexPairs_length : forall digits bs,
  hexPairs digits = Some bs -> length digits = (2 * length bs)%nat.
Proof.
  fix IH 1. intros [| a [| b rest]] bs.
  - intros [= <-]. reflexivity.
  - discriminate.
  - rewrite hexPairs_cons2.
    destruct (hexVal a), (hexVal b); try discriminate.
    destruct (hexPairs rest) as [bs' |] eqn:Hr; [| discriminate].
    intros H. apply (f_equal (fun o => match o with Some x => x | None => [] end)) in H.
    subst bs. cbn [length]. rewrite (IH rest bs' Hr). lia.
Qed.

(** The digit that [hexlify] writes for the value of a hex digit is that
    digit in lower case. *)
Lemma hexChar_hexVal c v :
  hexVal c = Some v -> hexChar v = (if (65 <=? c) && (c <=? 90) then c + 32 else c).
Proof.
  unfold hexVal, hexChar.
  destruct ((48 <=? c) && (c <=? 57)) eqn:E1.
  { intros [= <-]. apply andb_true_iff in E1. destruct E1 as [H1 H2].
    apply Z.leb_le in H1, H2.
    destruct (Z.ltb_spec (c - 48) 10); [| lia].
    replace ((65 <=? c) && (c <=? 90)) with false
      by (symmetry; apply andb_false_intro1, Z.leb_gt; lia).
    lia. }
  destruct ((97 <=? c) && (c <=? 102)) eqn:E2.
  { intros [= <-]. apply andb_true_iff in E2. destruct E2 as [H1 H2].
    apply Z.leb_le in H1, H2.
    destruct (Z.ltb_spec (c - 87) 10); [lia |].
    replace ((65 <=? c) && (c <=? 90)) with false
      by (symmetry; apply andb_false_intro2, Z.leb_gt; lia).
    lia. }
  destruct ((65 <=? c) && (c <=? 70)) eqn:E3; [| discriminate].
  intros [= <-]. apply andb_true_iff in E3. destruct E3 as [H1 H2].
  apply Z.leb_le in H1, H2.
  destruct (Z.ltb_spec (c - 55) 10); [lia |].
  replace ((65 <=? c) && (c <=? 90)) with true
    by (symmetry; apply andb_true_intro; split; apply Z.leb_le; lia).
  lia.
Qed.

Lemma nibbles_of_byte h l :
  0 <= h < 16 -> 0 <= l < 16 ->
  Z.shiftr (16 * h + l) 4 = h /\ Z.land (16 * h + l) 15 = l.
Proof.
  intros Hh Hl.
  rewrite Z.shiftr_div_pow2 by lia.
  change 15 with (Z.ones 4). rewrite Z.land_ones by lia.
  change (2 ^ 4) with 16. split.
  - symmetry. apply (Z.div_unique (16 * h + l) 16 h l); lia.
  - symmetry. apply (Z.mod_unique (16 * h + l) 16 h l); lia.
Qed.

(** [hexlify] writes the bytes of a hex string with the digits of the
    string, in lower case. *)
Lemma hexDigits_hexPairs : forall digits bs,
  hexPairs digits = Some bs -> hexDigits bs = asciiLower digits.
Proof.
  fix IH 1. intros [| a [| b rest]] bs.
  - intros [= <-]. reflexivity.
  - discriminate.
  - rewrite hexPairs_cons2.
    destruct (hexVal a) as [h |] eqn:Ha; [| discriminate].
    destruct (hexVal b) as [l |] eqn:Hb; [| discriminate].
    destruct (hexPairs rest) as [bs' |] eqn:Hr; [| discriminate].
    intros H. apply (f_equal (fun o => match o with Some x => x | None => [] end)) in H.
    subst bs.
    destruct (nibbles_of_byte h l (hexVal_range _ _ Ha) (hexVal_range _ _ Hb))
      as [Hh Hl].
    change (hexDigits (16 * h + l :: bs'))
      with (hexChar (Z.shiftr (16 * h + l) 4) :: hexChar (Z.land (16 * h + l) 15)
            :: hexDigits bs').
    rewrite Hh, Hl, (hexChar_hexVal _ _ Ha), (hexChar_hexVal _ _ Hb), (IH rest bs' Hr).
    reflexivity.
Qed.

Lemma hexDigits_zeros n : hexDigits (repeat 0 n) = repeat 48 (2 * n).
Proof.
  induction n as [| n IH]; [reflexivity |].
  replace (2 * S n)%nat with (S (S (2 * n))) by lia.
  cbn [repeat]. rewrite <- IH. reflexivity.
Qed.

(** [getBytes] takes the hex strings of whole bytes, and no other string. *)
Lemma getBytes_defined s : isOk (getBytes s) = hexStringOfBytes s.
Proof.
  unfold getBytes, hexStringOfBytes.
  destruct s as [| zero [| x digits]]; [reflexivity | reflexivity |].
  rewrite <- andb_assoc, <- hexPairs_defined.
  destruct ((zero =? 48) && ((x =? 120) || (x =? 88))); [| reflexivity].
  destruct (hexPairs digits); reflexivity.
Qed.

Lemma getBytes_digits s bs :
  getBytes s = Ok bs ->
  length s = (2 + 2 * length bs)%nat /\ hexDigits bs = asciiLower (skipn 2 s).
Proof.
  unfold getBytes.
  destruct s as [| zero [| x digits]]; try discriminate.
  destruct ((zero =? 48) && ((x =? 120) || (x =? 88))); [| discriminate].
  destruct (hexPairs digits) as [bs' |] eqn:Hp; [| discriminate].
  intros [= <-]. cbn [length skipn].
  rewrite (hexPairs_length _ _ Hp). split; [lia | apply hexDigits_hexPairs; exact Hp].
Qed.

(** C9, amended.  [formatAddressForLayerZero] is a function of its argument
    that returns a value on every well-formed 20-byte address, which is a
    hex string of whole bytes of 42 characters.  It throws exactly when its
    argument is not a hex string of whole bytes or holds more than 32 bytes,
    that is, has more than 66 characters.  On every other argument, whatever
    its length, it returns the characters 0x, zeros that fill the string up
    to 66 characters, and the digits of the argument, in lower case: its
    bytes, padded on the left to 32 bytes. *)
Theorem formatAddress_failure_modes (address : jsstring) :
  (wellFormedAddress address <->
   hexStringOfBytes address = true /\ byteLength address = 20%nat) /\
  (wellFormedAddress address ->
   exists padded, formatAddressForLayerZero address = Ok padded) /\
  (isOk (formatAddressForLayerZero address) = false <->
   hexStringOfBytes address = false \/ (32 < byteLength address)%nat) /\
  (hexStringOfBytes address = true -> (byteLength address <= 32)%nat ->
   exists bs,
     getBytes address = Ok bs /\ length bs = byteLength address /\
     formatAddressForLayerZero address
     = Ok (js "0x" ++ repeat 48 (2 * (32 - byteLength address))
           ++ asciiLower (skipn 2 address)) /\
     getBytes (js "0x" ++ repeat 48 (2 * (32 - byteLength address))
               ++ asciiLower (skipn 2 address))
     = Ok (repeat 0 (32 - byteLength address) ++ bs)).
Proof.
  assert (forall bs, getBytes address = Ok bs -> byteLength address = length bs)
    as Hcount.
  { intros bs Hb. destruct (getBytes_digits _ _ Hb) as [Hlen _].
    unfold byteLength. rewrite Hlen.
    replace (2 + 2 * length bs - 2)%nat with (length bs * 2)%nat by lia.
    apply Nat.div_mul. discriminate. }
  assert (hexStringOfBytes address = true ->
          exists bs, getBytes address = Ok bs) as Hhex.
  { rewrite <- getBytes_defined. destruct (getBytes address); [eauto | discriminate]. }
  split; [| split; [| split]].
  - split.
    + intros (bs & Hb & Hlen). rewrite <- getBytes_defined, Hb, (Hcount bs Hb).
      split; [reflexivity | exact Hlen].
    + intros [Hh Hlen]. destruct (Hhex Hh) as (bs & Hb).
      exists bs. split; [exact Hb |]. rewrite <- (Hcount bs Hb). exact Hlen.
  - intros (bs & Hb & Hlen).
    destruct (zeroPadValue_ok address bs 32 Hb ltac:(lia)) as [Hpad _]. eauto.
  - rewrite <- getBytes_defined.
    unfold formatAddressForLayerZero, zeroPadValue.
    destruct (getBytes address) as [bs | e] eqn:Hb; cbn [rbind isOk].
    + rewrite (Hcount bs eq_refl).
      destruct (Nat.leb_spec (length bs) 32) as [Hle | Hgt]; cbn [isOk]; split.
      * discriminate.
      * intros [H | H]; [discriminate | lia].
      * intros _. right. exact Hgt.
      * reflexivity.
    + split; [intros _; left |]; reflexivity.
  - intros Hh Hlen. destruct (Hhex Hh) as (bs & Hb).
    pose proof (Hcount bs Hb) as Hn. rewrite Hn in Hlen |- *. clear Hcount.
    destruct (zeroPadValue_ok address bs 32 Hb Hlen) as [Hpad Hback].
    destruct (getBytes_digits _ _ Hb) as [_ Hdigits].
    assert (hexlify (repeat 0 (32 - length bs) ++ bs)
            = js "0x" ++ repeat 48 (2 * (32 - length bs))
              ++ asciiLower (skipn 2 address)) as Heq.
    { unfold hexlify, hexDigits. rewrite flat_map_app.
      fold (hexDigits (repeat 0 (32 - length bs))). fold (hexDigits bs).
      rewrite hexDigits_zeros, Hdigits. reflexivity. }
    exists bs. split; [exact Hb |]. split; [reflexivity |].
    rewrite <- Heq. split; [exact Hpad | exact Hback].
Qed.

Lemma formatAddress_failure_modes_witness :
  formatAddressForLayerZero (js "0x1234")
  = Ok (js "0x0000000000000000000000000000000000000000000000000000000000001234").
Proof.
  destruct (proj2 (proj2 (proj2 (formatAddress_failure_modes (js "0x1234"))))
              eq_refl ltac:(cbv; lia))
    as (bs & _ & _ & Hfmt & _).
  exact Hfmt.
Defined.

End AddressCodec.

(* ===================================================================== *)
(** * Reasoning about computations *)
(* ===================================================================== *)

Section Logic.
Context {S : Type}.

Lemma wp_run {A} (m : M S A) Q st tr r st' tr' :
  m st tr = (r, st', tr') -> wp m Q st tr -> Q r st' tr'.
Proof. unfold wp. intros ->. auto. Qed.

Lemma wp_mono {A} (m : M S A) (Q Q' : Result A -> S -> Trace -> Prop) st tr :
  (forall r st' tr', Q r st' tr' -> Q' r st' tr') ->
  wp m Q st tr -> wp m Q' st tr.
Proof. unfold wp. destruct (m st tr) as [[r st'] tr']. auto. Qed.

Lemma wp_ret {A} (a : A) Q (st : S) tr : Q (Ok a) st tr -> wp (ret a) Q st tr.
Proof. auto. Qed.

Lemma wp_throw {A} e (Q : Result A -> S -> Trace -> Prop) st tr :
  Q (Throw e) st tr -> wp (throw e) Q st tr.
Proof. auto. Qed.

Lemma wp_lift {A} (r : Result A) Q (st : S) tr : Q r st tr -> wp (lift r) Q st tr.
Proof. auto. Qed.

Lemma wp_modify (f : S -> S) Q st tr : Q (Ok tt) (f st) tr -> wp (modify f) Q st tr.
Proof. auto. Qed.

Lemma wp_get Q (st : S) tr : Q (Ok st) st tr -> wp get Q st tr.
Proof. auto. Qed.

Lemma wp_call {A} ev (answer : Trace -> Result A) Q (st : S) tr :
  Q (answer tr) st (tr ++ [ev]) -> wp (call ev answer) Q st tr.
Proof. auto. Qed.

Lemma wp_bind {A B} (m : M S A) (k : A -> M S B) Q st tr :
  wp m (fun r st' tr' =>
          match r with
          | Ok a => wp (k a) Q st' tr'
          | Throw e => Q (Throw e) st' tr'
          end) st tr ->
  wp (bind m k) Q st tr.
Proof.
  unfold wp, bind. destruct (m st tr) as [[[a | e] st'] tr']; auto.
Qed.

Lemma wp_tryCatch {A} (body : M S A) (handler : JsError -> M S A) Q st tr :
  wp body (fun r st' tr' =>
             match r with
             | Ok a => Q (Ok a) st' tr'
             | Throw e => wp (handler e) Q st' tr'
             end) st tr ->
  wp (tryCatch body handler) Q st tr.
Proof.
  unfold wp, tryCatch. destruct (body st tr) as [[[a | e] st'] tr']; auto.
Qed.

Lemma wp_failWith (o : option JsError) (Q : Result unit -> S -> Trace -> Prop) st tr :
  match o with Some e => Q (Throw e) st tr | None => Q (Ok tt) st tr end ->
  wp (failWith o) Q st tr.
Proof. destruct o; auto. Qed.

(** A loop, with an invariant that follows the elements gone through. *)
Lemma wp_forOf {A R} (body : A -> M S (option R)) (I : list A -> S -> Trace -> Prop)
    (Q : Result (option R) -> S -> Trace -> Prop) :
  forall (todo done : list A) st tr,
  I done st tr ->
  (forall x pre post st tr,
      done ++ todo = pre ++ x :: post -> I pre st tr ->
      wp (body x) (fun r st' tr' =>
                     match r with
                     | Ok None => I (pre ++ [x]) st' tr'
                     | other => Q other st' tr'
                     end) st tr) ->
  (forall st tr, I (done ++ todo) st tr -> Q (Ok None) st tr) ->
  wp (forOf todo body) Q st tr.
Proof.
  induction todo as [| x todo IH]; intros done st tr HI Hbody Hend.
  - apply wp_ret. apply Hend. rewrite app_nil_r. exact HI.
  - cbn [forOf]. apply wp_bind.
    eapply wp_mono; [| apply (Hbody x done todo st tr eq_refl HI)].
    intros [[v |] | e] st' tr' H; cbn beta iota in *.
    + apply wp_ret. exact H.
    + apply (IH (done ++ [x])).
      * exact H.
      * intros y pre post st0 tr0 Heq. apply (Hbody y pre post).
        rewrite <- Heq, <- app_assoc. reflexivity.
      * intros st0 tr0. rewrite <- app_assoc. apply Hend.
    + exact H.
Qed.

End Logic.

(** One step through a computation: the continuation of a [bind], the
    outcome of a call or of an expression that may throw, a branch. *)
Ltac wp_step :=
  lazymatch goal with
  | |- wp (bind _ _) _ _ _ => apply wp_bind
  | |- wp (tryCatch _ _) _ _ _ => apply wp_tryCatch
  | |- wp (ret _) _ _ _ => apply wp_ret
  | |- wp (throw _) _ _ _ => apply wp_throw
  | |- wp (modify _) _ _ _ => apply wp_modify
  | |- wp get _ _ _ => apply wp_get
  | |- wp (failWith ?o) _ _ _ =>
      apply wp_failWith;
      lazymatch o with
      | Some _ => idtac
      | None => idtac
      | _ => destruct o eqn:?
      end
  | |- wp (lift ?r) _ _ _ =>
      apply wp_lift;
      lazymatch r with
      | Ok _ => idtac
      | Throw _ => idtac
      | _ => destruct r eqn:?
      end
  | |- wp (call _ ?f) _ _ ?tr =>
      apply wp_call;
      let ans := eval cbv beta in (f tr) in
      change (f tr) with ans; destruct ans eqn:?
  | |- wp (if ?b then _ else _) _ _ _ => destruct b eqn:?
  | |- wp (match ?x with _ => _ end) _ _ _ => destruct x eqn:?
  | |- wp (let _ := _ in _) _ _ _ => cbv zeta
  end; cbv beta iota.

Ltac wp_steps := repeat wp_step.

(** The same, for a property that does not look at the handler's local
    variables: they are forgotten as soon as they change. *)
Ltac forget_state :=
  lazymatch goal with
  | |- wp _ _ ?st _ =>
      tryif is_var st then idtac
      else (let st' := fresh "st" in generalize st; intros st')
  | _ => idtac
  end.

Ltac wp_steps_trace := repeat (wp_step; forget_state).

(** The same, with what is known of the calls of the computation: a case
    that the known answers rule out is dropped. *)
Ltac wp_known :=
  repeat (wp_step; try discriminate;
          repeat match goal with
                 | H : Ok ?x = Ok ?y |- _ => injection H as H; try subst x; try subst y
                 | H : Some ?x = Some ?y |- _ => injection H as H; try subst x; try subst y
                 | H : Throw ?x = Throw ?y |- _ =>
                     injection H as H; try subst x; try subst y
                 end).

(** A step that uses what is known of a part of the computation. *)
Ltac wp_focus :=
  lazymatch goal with
  | |- wp (bind _ _) _ _ _ => apply wp_bind
  | |- wp (tryCatch _ _) _ _ _ => apply wp_tryCatch
  | _ => idtac
  end.

Tactic Notation "wp_apply" uconstr(lemma) :=
  wp_focus; eapply wp_mono; [| eapply lemma ]; cbv beta.

(** Membership in a trace that is written out. *)
Ltac in_trace := clear; rewrite !in_app_iff; cbn [In]; auto 12.

(* ===================================================================== *)
(** * The bridge handler *)
(* ===================================================================== *)

Section Bridge.
Variable world : World.
Variable env : Env.

(** C5.  A bridge request whose source and destination chains are the same
    is answered with an error result, and nothing but the artifact file is
    touched: no signer is built, no fee is quoted, nothing is sent.  When
    the artifact is read and its ABI is usable, which the handler checks
    first, the error is the one for equal chains. *)
Theorem bridge_same_chain_rejected (params : BridgeParams) :
  fromChain params = toChain params ->
  exists text tr,
    runBridge world env params = (Ok (errorResult text), tt, tr) /\
    Forall (fun ev => isNetworkCall ev = false) tr /\
    (forall artifact,
        readJson world [] oftPath = Ok artifact ->
        abiUnusable (abi artifact) = Ok false ->
        text = sameChainMessage /\ tr = [ReadFile oftPath]).
Proof.
  intros Hsame.
  assert (jseq (fromChain params) (toChain params) = true) as Hjs
    by (apply jseq_true; exact Hsame).
  unfold runBridge, bridgeOft, tryCatch, bind, call, lift, consoleError, ret.
  destruct (readJson world [] oftPath) as [artifact | e] eqn:Hread.
  - destruct (abiUnusable (abi artifact)) as [[|] | e] eqn:Habi.
    + exists placeholderAbiMessage, [ReadFile oftPath]. cbn.
      split; [reflexivity |]. split; [repeat constructor |].
      intros a [= <-]. congruence.
    + rewrite Hjs. exists sameChainMessage, [ReadFile oftPath]. cbn.
      split; [reflexivity |]. split; [repeat constructor |]. auto.
    + eexists _, _. cbn. split; [reflexivity |].
      split; [repeat constructor |]. intros a [= <-]. congruence.
  - eexists _, _. cbn. split; [reflexivity |].
    split; [repeat constructor | discriminate].
Qed.

(** Every fee quote and every send of a run of the handler carries the
    amount parsed with 18 decimals, in both fields. *)
Lemma bridgeOft_carriesAmount (params : BridgeParams) :
  wp (bridgeOft world env params)
     (fun _ _ tr => Forall (carriesAmount params tr) tr) tt [].
Proof.
  unfold bridgeOft, getSigner, newContract, wait, consoleError, amountDecimals.
  wp_steps.
  all: repeat (apply Forall_app; split);
       repeat first [apply Forall_nil | apply Forall_cons].
  all: cbn [carriesAmount amountLD minAmountLD]; auto.
  all: repeat split; try reflexivity; try assumption; in_trace.
Qed.

(** A request that passes the checks, whose amount is a number and whose
    receiver can be padded gets to the fee quote, and from an answer to the
    quote to the send, with the amount parsed in both fields. *)
Lemma bridgeOft_quotes (params : BridgeParams)
    artifact fromNetwork toNetwork account amountBigInt formatted :
  let signer := {| signerRpc := rpc fromNetwork; signerAddress := account |} in
  let contract :=
    {| target := tokenAddress params; interface := abi artifact; runner := signer |} in
  let sendParam :=
    {| dstEid := lzEid toNetwork; to := formatted;
       amountLD := amountBigInt; minAmountLD := amountBigInt;
       Runtime.extraOptions :=
         match extraOptions params with
         | [] => js "0x"
         | given => given
         end;
       composeMsg := js "0x"; oftCmd := js "0x" |} in
  readJson world [] oftPath = Ok artifact ->
  abiUnusable (abi artifact) = Ok false ->
  fromChain params <> toChain params ->
  getNetworkConfig env (fromChain params) = Ok fromNetwork ->
  getNetworkConfig env (toChain params) = Ok toNetwork ->
  walletAddress world (PRIVATE_KEY env) (rpc fromNetwork) = Ok account ->
  parseUnits (amount params) 18 = Ok amountBigInt ->
  contractError world (tokenAddress params) (abi artifact) signer = None ->
  formatAddressForLayerZero (receiverAddress params) = Ok formatted ->
  wp (bridgeOft world env params)
     (fun _ _ tr =>
        exists rest,
          tr = ReadFile oftPath :: NewWallet (rpc fromNetwork)
               :: QuoteSend contract sendParam false :: rest /\
          forall fee lzFee,
            quoteSend world [ReadFile oftPath; NewWallet (rpc fromNetwork)]
                      contract sendParam false = Ok (fee, lzFee) ->
            exists rest',
              rest = Send contract sendParam {| nativeFee := fee; lzTokenFee := 0 |}
                          account fee :: rest') tt [].
Proof.
  intros signer contract sendParam Hread Habi Hchains Hfrom Hto Hwallet Hamount
    Hcontract Hreceiver.
  assert (jseq (fromChain params) (toChain params) = false) as Hjs.
  { destruct (jseq (fromChain params) (toChain params)) eqn:E; [| reflexivity].
    apply jseq_true in E. contradiction. }
  subst signer contract sendParam.
  unfold bridgeOft, getSigner, newContract, wait, consoleError, amountDecimals.
  rewrite Hjs.
  wp_known.
  all: cbn [app] in *; eexists; (split; [reflexivity |]).
  all: intros fee lzFee Hquote;
    match goal with
    | H : quoteSend _ _ _ _ _ = Throw _ |- _ => rewrite Hquote in H; discriminate
    | H : quoteSend _ _ _ _ _ = Ok ?fees |- _ =>
        is_var fees; rewrite Hquote in H; injection H as <-
    end.
  all: eexists; reflexivity.
Qed.

(** A receipt is given for tokens that were quoted and sent with the amount
    parsed. *)
Lemma bridgeOft_receipt (params : BridgeParams) :
  wp (bridgeOft world env params)
     (fun r _ tr =>
        forall res, r = Ok res -> isError res = false ->
        exists amountBigInt contract sendParam fee refundAddress value,
          parseUnits (amount params) 18 = Ok amountBigInt /\
          amountLD sendParam = amountBigInt /\
          minAmountLD sendParam = amountBigInt /\
          In (QuoteSend contract sendParam false) tr /\
          In (Send contract sendParam fee refundAddress value) tr) tt [].
Proof.
  unfold bridgeOft, getSigner, newContract, wait, consoleError, amountDecimals.
  wp_steps.
  all: intros res Hres Herror; try discriminate.
  all: try (injection Hres as <-; discriminate Herror).
  eexists _, _, _, _, _, _.
  split; [reflexivity |]. split; [| split; [| split]].
  3, 4: rewrite !in_app_iff; cbn [In]; eauto 12.
  all: reflexivity.
Qed.

(** An amount that is no number is neither quoted nor sent, and the request
    is answered with an error. *)
Lemma bridgeOft_unparsable (params : BridgeParams) e :
  parseUnits (amount params) 18 = Throw e ->
  wp (bridgeOft world env params)
     (fun r _ tr =>
        quoteCalls tr = [] /\ sendCalls tr = [] /\
        exists res, r = Ok res /\ isError res = true) tt [].
Proof.
  intros Hamount.
  unfold bridgeOft, getSigner, newContract, wait, consoleError, amountDecimals.
  wp_known.
  all: repeat split; eexists; split; reflexivity.
Qed.

End Bridge.

Lemma bridge_same_chain_rejected_witness :
  exists text tr,
    runBridge calm env0
      (bridge50 (js "baseSepolia") (js "baseSepolia"))
    = (Ok (errorResult text), tt, tr) /\
    Forall (fun ev => isNetworkCall ev = false) tr /\
    (forall artifact,
        readJson calm [] oftPath = Ok artifact ->
        abiUnusable (abi artifact) = Ok false ->
        text = sameChainMessage /\ tr = [ReadFile oftPath]).
Proof.
  exact (bridge_same_chain_rejected calm env0
           (bridge50 (js "baseSepolia") (js "baseSepolia")) eq_refl).
Defined.

(** C6.  The bridge handler parses the amount string with 18 decimals,
    whatever the token, and uses the integer it gets as both [amountLD] and
    [minAmountLD] of the parameters it passes to the fee quote and to the
    send.  Every fee quote and every send of every run carries that integer
    in both fields, and a send carries the very parameters that were
    quoted.  A request that passes the checks of the handler, whose amount
    is a number and whose receiver can be padded, gets to the fee quote with
    these parameters, and from an answer to the quote to the send with the
    same parameters.  A receipt is only given for tokens quoted and sent so.
    An amount that is no number is neither quoted nor sent, and is answered
    with an error.  Digits, a point and up to 18 digits are the fixed-point
    number they read as, scaled by 10^18, and the amount 50 is parsed to
    50 * 10^18. *)
Theorem bridge_amount_18_decimals (world : World) (env : Env) (params : BridgeParams) :
  let '(r, _, tr) := runBridge world env params in
  amountDecimals = 18%nat /\
  Forall (carriesAmount params tr) tr /\
  (forall artifact fromNetwork toNetwork account amountBigInt formatted,
      let signer := {| signerRpc := rpc fromNetwork; signerAddress := account |} in
      let contract :=
        {| target := tokenAddress params; interface := abi artifact;
           runner := signer |} in
      let sendParam :=
        {| dstEid := lzEid toNetwork; to := formatted;
           amountLD := amountBigInt; minAmountLD := amountBigInt;
           Runtime.extraOptions :=
             match extraOptions params with
             | [] => js "0x"
             | given => given
             end;
           composeMsg := js "0x"; oftCmd := js "0x" |} in
      readJson world [] oftPath = Ok artifact ->
      abiUnusable (abi artifact) = Ok false ->
      fromChain params <> toChain params ->
      getNetworkConfig env (fromChain params) = Ok fromNetwork ->
      getNetworkConfig env (toChain params) = Ok toNetwork ->
      walletAddress world (PRIVATE_KEY env) (rpc fromNetwork) = Ok account ->
      parseUnits (amount params) 18 = Ok amountBigInt ->
      contractError world (tokenAddress params) (abi artifact) signer = None ->
      formatAddressForLayerZero (receiverAddress params) = Ok formatted ->
      exists rest,
        tr = ReadFile oftPath :: NewWallet (rpc fromNetwork)
             :: QuoteSend contract sendParam false :: rest /\
        forall fee lzFee,
          quoteSend world [ReadFile oftPath; NewWallet (rpc fromNetwork)]
                    contract sendParam false = Ok (fee, lzFee) ->
          exists rest',
            rest = Send contract sendParam {| nativeFee := fee; lzTokenFee := 0 |}
                        account fee :: rest') /\
  (forall res, r = Ok res -> isError res = false ->
      exists amountBigInt contract sendParam fee refundAddress value,
        parseUnits (amount params) 18 = Ok amountBigInt /\
        amountLD sendParam = amountBigInt /\
        minAmountLD sendParam = amountBigInt /\
        In (QuoteSend contract sendParam false) tr /\
        In (Send contract sendParam fee refundAddress value) tr) /\
  (forall e, parseUnits (amount params) 18 = Throw e ->
      quoteCalls tr = [] /\ sendCalls tr = [] /\
      exists res, r = Ok res /\ isError res = true) /\
  (forall whole frac,
      digits whole -> digits frac ->
      (0 < length whole + length frac)%nat -> (length frac <= 18)%nat ->
      parseUnits (whole ++ [46] ++ frac) amountDecimals
      = checkValue (digitsToZ whole * 10 ^ 18
                    + digitsToZ frac * 10 ^ Z.of_nat (18 - length frac))) /\
  (forall whole,
      digits whole -> (0 < length whole)%nat ->
      parseUnits whole amountDecimals = checkValue (digitsToZ whole * 10 ^ 18)) /\
  parseUnits (js "50") amountDecimals = Ok (50 * 10 ^ 18).
Proof.
  pose proof (bridgeOft_carriesAmount world env params) as Hcarries.
  pose proof (bridgeOft_quotes world env params) as Hquotes.
  pose proof (bridgeOft_receipt world env params) as Hreceipt.
  pose proof (bridgeOft_unparsable world env params) as Hunparsable.
  unfold wp in Hcarries, Hquotes, Hreceipt, Hunparsable. unfold runBridge.
  destruct (bridgeOft world env params tt []) as [[r st] tr].
  split; [reflexivity |]. split; [exact Hcarries |].
  split; [exact Hquotes |]. split; [exact Hreceipt |].
  split; [exact Hunparsable |].
  split; [| split; [| reflexivity]].
  - intros whole frac Hw Hf Hpos Hlen.
    apply (parseUnits_fixed_point whole frac 18 Hw Hf Hpos Hlen).
  - intros whole Hw Hpos. apply (parseUnits_integer whole 18 Hw Hpos).
Qed.

Lemma bridge_amount_18_decimals_witness :
  exists contract sendParam fee refundAddress rest,
    snd (runBridge calm env0 (bridge50 (js "ArbitrumSepolia") (js "baseSepolia")))
    = ReadFile oftPath :: NewWallet (js "https://arb.example")
      :: QuoteSend contract sendParam false
      :: Send contract sendParam fee refundAddress 1500000000000000 :: rest /\
    amountLD sendParam = 50 * 10 ^ 18 /\
    minAmountLD sendParam = 50 * 10 ^ 18.
Proof.
  set (params := bridge50 (js "ArbitrumSepolia") (js "baseSepolia")).
  pose proof (bridge_amount_18_decimals calm env0 params) as H.
  destruct (runBridge calm env0 params) as [[r st] tr].
  destruct H as (_ & _ & Hquotes & _).
  destruct (Hquotes artifact0
              {| name := js "ArbitrumSepolia"; rpc := js "https://arb.example";
                 chainId := 421614;
                 lzEndpoint := js "0x6EDCE65403992e310A62460808c4b910D972f10f";
                 lzEid := 40231 |}
              {| name := js "baseSepolia"; rpc := js "https://base.example";
                 chainId := 84532;
                 lzEndpoint := js "0x6EDCE65403992e310A62460808c4b910D972f10f";
                 lzEid := 40245 |}
              (js "0x2222222222222222222222222222222222222222")
              (50 * 10 ^ 18)
              (js "0x0000000000000000000000004444444444444444444444444444444444444444")
              eq_refl eq_refl ltac:(discriminate) eq_refl eq_refl eq_refl eq_refl
              eq_refl eq_refl)
    as (rest & Htr & Hsend).
  destruct (Hsend 1500000000000000 0 eq_refl) as (rest' & ->).
  cbn [snd]. eexists _, _, _, _, rest'. split; [exact Htr |].
  split; reflexivity.
Defined.

(* ===================================================================== *)
(** * The deployment handler: what its calls carry *)
(* ===================================================================== *)

(** A trace that is written out satisfies a property of events when each of
    its events does. *)
Ltac forall_trace :=
  repeat (apply Forall_app; split);
  repeat first [assumption | apply Forall_nil | apply Forall_cons].

Section DeployCalls.
Variable world : World.
Variable env : Env.
Variable params : DeployParams.

Local Abbreviation P := (carriesSaltAndSupply world params).

Lemma deployFailed_calls OFT_ABI OFT_BYTECODE deployOwner chainName error st tr :
  Forall P tr ->
  wp (deployFailed world env params OFT_ABI OFT_BYTECODE deployOwner chainName error)
     (fun _ _ tr' => Forall P tr') st tr.
Proof.
  intros Htr.
  unfold deployFailed, consoleError, pushResult, pushSummary.
  wp_steps_trace.
  all: forall_trace; exact I.
Qed.

Lemma deployAttempt_calls OFT_ABI OFT_BYTECODE deployOwner chainName st tr :
  Forall P tr ->
  wp (deployAttempt world env params OFT_ABI OFT_BYTECODE deployOwner chainName)
     (fun _ _ tr' => Forall P tr') st tr.
Proof.
  intros Htr.
  unfold deployAttempt, getSigner, newContract, wait, pushResult, pushData,
    pushSummary.
  wp_steps_trace.
  all: forall_trace; try exact I.
  all: split; [assumption |].
  all: unfold constructorArgsOf in *; eauto 10.
Qed.

Lemma deployOnChain_calls OFT_ABI OFT_BYTECODE deployOwner chainName st tr :
  Forall P tr ->
  wp (deployOnChain world env params OFT_ABI OFT_BYTECODE deployOwner chainName)
     (fun _ _ tr' => Forall P tr') st tr.
Proof.
  intros Htr. unfold deployOnChain, pushResult.
  wp_step. wp_step. wp_apply deployAttempt_calls; [| exact Htr].
  intros [r | e] st' tr' H; [exact H |].
  apply deployFailed_calls. exact H.
Qed.

(** A loop keeps a property of the trace that its body keeps. *)
Lemma forOf_calls {A} (body : A -> M Locals (option ToolResult)) xs st tr :
  (forall x st tr, Forall P tr -> wp (body x) (fun _ _ tr' => Forall P tr') st tr) ->
  Forall P tr ->
  wp (forOf xs body) (fun _ _ tr' => Forall P tr') st tr.
Proof.
  intros Hbody Htr.
  apply (wp_forOf body (fun _ _ tr' => Forall P tr')) with (done := []).
  - exact Htr.
  - intros x pre post st0 tr0 _ H0.
    eapply wp_mono; [| apply Hbody; exact H0].
    intros [[v |] | e] st' tr' H; exact H.
  - auto.
Qed.

Lemma peerWith_calls contractAData contractBData st tr :
  Forall P tr ->
  wp (peerWith world contractAData contractBData)
     (fun _ _ tr' => Forall P tr') st tr.
Proof.
  intros Htr.
  unfold peerWith, wait, consoleError, pushResult, pushPeering.
  wp_steps_trace.
  all: forall_trace; exact I.
Qed.

Lemma enforceOn_calls deployed contractData st tr :
  Forall P tr ->
  wp (enforceOn world deployed contractData)
     (fun _ _ tr' => Forall P tr') st tr.
Proof.
  intros Htr.
  unfold enforceOn, wait, consoleError, pushResult, pushEnforced.
  wp_steps_trace.
  all: forall_trace; exact I.
Qed.

Lemma afterChecks_calls OFT_ABI OFT_BYTECODE envOwnerAddress st tr :
  Forall P tr ->
  wp (afterChecks world env params OFT_ABI OFT_BYTECODE envOwnerAddress)
     (fun _ _ tr' => Forall P tr') st tr.
Proof.
  intros Htr.
  unfold afterChecks, deploymentPhase, peeringPhase, enforcedOptionsPhase,
    reportPhase, pushResult, pushPeering, pushEnforced.
  wp_step. wp_step. wp_step. forget_state. wp_step. wp_step. forget_state.
  wp_apply forOf_calls; [| intros; apply deployOnChain_calls; assumption | exact Htr].
  intros r1 ? ? H1. destruct r1 as [[v |] |]; [wp_steps_trace; exact H1 | | exact H1].
  wp_steps_trace; try exact H1.
  - (* fewer than two contracts: no peering *)
    wp_apply forOf_calls;
      [| intros; apply enforceOn_calls; assumption | exact H1].
    intros r2 ? ? H2. destruct r2 as [[v |] |]; wp_steps_trace; exact H2.
  - (* the mesh *)
    wp_apply forOf_calls;
      [| intros; apply forOf_calls; [intros; apply peerWith_calls |]; assumption
       | exact H1].
    intros r2 ? ? H2. destruct r2 as [[v |] |]; wp_steps_trace; try exact H2.
    wp_apply forOf_calls;
      [| intros; apply enforceOn_calls; assumption | exact H2].
    intros r3 ? ? H3. destruct r3 as [[v |] |]; wp_steps_trace; exact H3.
Qed.

Lemma handler_calls :
  wp (deployAndConfigureOftMultichain world env params)
     (fun _ _ tr' => Forall P tr') noLocals [].
Proof.
  unfold deployAndConfigureOftMultichain, pushResult.
  wp_steps_trace.
  all: try (forall_trace; exact I).
  all: wp_apply afterChecks_calls; [intros ? ? ? H; exact H |].
  all: forall_trace; exact I.
Qed.

End DeployCalls.

Section Salt.

Lemma digest_length data : length (Keccak.digest data) = 32%nat.
Proof.
  unfold Keccak.digest, Keccak.squeeze. rewrite length_map, length_seq. reflexivity.
Qed.

Lemma digest_bytes data : Forall isByte (Keccak.digest data).
Proof.
  unfold Keccak.digest, Keccak.squeeze. apply Forall_map, Forall_forall.
  intros i _. unfold isByte. change 255 with (Z.ones 8).
  rewrite Z.land_ones by lia. apply Z.mod_pos_bound. lia.
Qed.

Lemma deploymentSalt_ok tokenName tokenSymbol salt :
  deploymentSalt tokenName tokenSymbol = Ok salt ->
  exists data,
    toUtf8Bytes (tokenName ++ js ":" ++ tokenSymbol) = Ok data /\
    salt = hexlify (Keccak.digest data) /\
    getBytes salt = Ok (Keccak.digest data) /\
    length (Keccak.digest data) = 32%nat.
Proof.
  unfold deploymentSalt, cat. cbn [concat]. rewrite app_nil_r.
  destruct (toUtf8Bytes (tokenName ++ js ":" ++ tokenSymbol)) as [data | e];
    [| discriminate].
  cbn [rbind]. intros H. injection H as <-. exists data. unfold keccak256.
  split; [reflexivity |]. split; [reflexivity |].
  split; [apply getBytes_hexlify, digest_bytes | apply digest_length].
Qed.

End Salt.

Lemma handler_trace world env params :
  Forall (carriesSaltAndSupply world params) (snd (runDeploy world env params)).
Proof.
  pose proof (handler_calls world env params) as H.
  unfold wp in H. unfold runDeploy.
  destruct (deployAndConfigureOftMultichain world env params noLocals [])
    as [[r st] tr]. exact H.
Qed.

(** C3.  In every run of the deployment handler, every deployment call, on
    whichever chain, carries as its salt the hex string of the 32-byte
    keccak256 digest of the UTF-8 bytes of [tokenName], a colon and
    [tokenSymbol].  The salt is a function of the two strings alone: two
    requests with the same name and symbol, in whatever world and on
    whatever chains, use the same salt in all their deployment calls. *)
Theorem salt_from_name_and_symbol :
  (forall world env params factory code salt,
      In (FactoryDeploy factory code salt) (snd (runDeploy world env params)) ->
      exists data,
        toUtf8Bytes (tokenName params ++ js ":" ++ tokenSymbol params) = Ok data /\
        salt = hexlify (Keccak.digest data) /\
        getBytes salt = Ok (Keccak.digest data) /\
        length (Keccak.digest data) = 32%nat) /\
  (forall world1 env1 params1 world2 env2 params2 factory1 code1 salt1
          factory2 code2 salt2,
      tokenName params1 = tokenName params2 ->
      tokenSymbol params1 = tokenSymbol params2 ->
      In (FactoryDeploy factory1 code1 salt1) (snd (runDeploy world1 env1 params1)) ->
      In (FactoryDeploy factory2 code2 salt2) (snd (runDeploy world2 env2 params2)) ->
      salt1 = salt2).
Proof.
  assert (forall world env params factory code salt,
             In (FactoryDeploy factory code salt) (snd (runDeploy world env params)) ->
             deploymentSalt (tokenName params) (tokenSymbol params) = Ok salt) as Hsalt.
  { intros world env params factory code salt Hin.
    pose proof (handler_trace world env params) as H.
    rewrite Forall_forall in H. apply H in Hin. exact (proj1 Hin). }
  split.
  - intros world env params factory code salt Hin.
    apply deploymentSalt_ok. eapply Hsalt. exact Hin.
  - intros world1 env1 params1 world2 env2 params2 f1 c1 s1 f2 c2 s2 Hn Hs H1 H2.
    apply Hsalt in H1, H2. rewrite Hn, Hs in H1. congruence.
Qed.

Lemma salt_from_name_and_symbol_witness :
  exists factory code data,
    In (FactoryDeploy factory code (hexlify (Keccak.digest data)))
       (snd (runDeploy calm env0 (gamma bothChains))) /\
    toUtf8Bytes (js "Gamma:GMA") = Ok data.
Proof.
  pose (factory :=
          {| target := js "0x754a2643Ce68e0e34510B1E246254f93946AE3a1";
             interface := abi artifact0;
             runner := {| signerRpc := js "https://base.example";
                          signerAddress := js "0x2222222222222222222222222222222222222222" |} |}).
  pose (salt := js "0x6b773b52c94606d250d06e47f5c1929656cf7433d155255db756fcc44db75957").
  assert (In (FactoryDeploy factory (js "0x6080c0de") salt)
             (snd (runDeploy calm env0 (gamma bothChains)))) as Hin.
  { vm_compute. do 8 right. left. reflexivity. }
  destruct (proj1 salt_from_name_and_symbol calm env0 (gamma bothChains)
              factory (js "0x6080c0de") salt Hin) as (data & Hdata & Hsalt & _).
  exists factory, (js "0x6080c0de"), data. split.
  - rewrite <- Hsalt. exact Hin.
  - exact Hdata.
Defined.

(* ===================================================================== *)
(** * The deployment handler: what its phases do *)
(* ===================================================================== *)

(** A step that keeps the handler's arrays written out, but for the log. *)
Ltac forget_log :=
  cbn [results deployedContractsSummary deployedContractsData peeringResults
       enforcedOptionsResults];
  lazymatch goal with
  | |- wp _ _ (Build_Locals ?log _ _ _ _) _ =>
      lazymatch log with
      | nil => idtac
      | _ =>
          tryif is_var log then idtac
          else (let log' := fresh "log" in generalize log; intros log')
      end
  | _ => idtac
  end.

Ltac wp_steps_log := repeat (wp_step; forget_log).

Ltac calls_of_trace :=
  unfold setPeerCalls, setEnforcedCalls, consoleErrors;
  rewrite ?flat_map_app; cbn [flat_map app]; rewrite ?app_nil_r.

Section Phases.
Variable world : World.
Variable env : Env.

Local Abbreviation deployedOn := (deployedOn env).
Local Abbreviation deployedAll := (deployedAll env).

Lemma jseq_refl a : jseq a a = true.
Proof. apply jseq_true. reflexivity. Qed.

(** The peering of one pair either makes its call and goes on, or reports
    the failure and returns an error; it never throws. *)
Lemma peerWith_spec A B st tr :
  wp (peerWith world A B)
     (fun r st' tr' =>
        deployedContractsData st' = deployedContractsData st /\
        deployedContractsSummary st' = deployedContractsSummary st /\
        setEnforcedCalls tr' = setEnforcedCalls tr /\
        match r with
        | Ok None =>
            setPeerCalls tr' = setPeerCalls tr ++ peerCallsFrom A [B] /\
            consoleErrors tr' = consoleErrors tr
        | Ok (Some res) => isError res = true
        | Throw _ => False
        end) st tr.
Proof.
  unfold peerWith, wait, consoleError, pushResult, pushPeering.
  destruct st as [log summary data peering enforced].
  wp_steps_log.
  all: cbn [deployedContractsData deployedContractsSummary isError errorResult].
  all: unfold peerCallsFrom; cbn [flat_map]; rewrite ?Heqb, ?Heqr.
  all: calls_of_trace; auto.
Qed.

Lemma peerCallsFrom_app A xs ys :
  peerCallsFrom A (xs ++ ys) = peerCallsFrom A xs ++ peerCallsFrom A ys.
Proof. apply flat_map_app. Qed.

Lemma meshCalls_short deployed : (length deployed < 2)%nat -> meshCalls deployed = [].
Proof.
  destruct deployed as [| d [| d' rest]]; cbn [length]; intros H; try lia.
  - reflexivity.
  - unfold meshCalls, peerCallsFrom. cbn [flat_map]. rewrite jseq_refl. reflexivity.
Qed.

(** The inner loop of the peering phase, for the contract [A]. *)
Lemma peerLoop_spec A Bs st tr :
  wp (forOf Bs (peerWith world A))
     (fun r st' tr' =>
        deployedContractsData st' = deployedContractsData st /\
        deployedContractsSummary st' = deployedContractsSummary st /\
        setEnforcedCalls tr' = setEnforcedCalls tr /\
        match r with
        | Ok None =>
            setPeerCalls tr' = setPeerCalls tr ++ peerCallsFrom A Bs /\
            consoleErrors tr' = consoleErrors tr
        | Ok (Some res) => isError res = true
        | Throw _ => False
        end) st tr.
Proof.
  apply (wp_forOf _
           (fun pre st' tr' =>
              deployedContractsData st' = deployedContractsData st /\
              deployedContractsSummary st' = deployedContractsSummary st /\
              setEnforcedCalls tr' = setEnforcedCalls tr /\
              setPeerCalls tr' = setPeerCalls tr ++ peerCallsFrom A pre /\
              consoleErrors tr' = consoleErrors tr))
    with (done := []).
  - cbn. rewrite app_nil_r. auto.
  - intros B pre post st0 tr0 _ (Hd & Hs & He & Hp & Hc).
    eapply wp_mono; [| apply peerWith_spec].
    intros [[res |] | e] st' tr' (Hd' & Hs' & He' & H); cbn beta iota.
    + repeat split; congruence.
    + destruct H as [Hp' Hc']. rewrite peerCallsFrom_app, app_assoc.
      repeat split; congruence.
    + contradiction.
  - cbn [app]. intros st' tr' (Hd & Hs & He & Hp & Hc). auto.
Qed.

(** The outer loop of the peering phase. *)
Lemma meshLoop_spec deployed As st tr :
  wp (forOf As (fun A => forOf deployed (peerWith world A)))
     (fun r st' tr' =>
        deployedContractsData st' = deployedContractsData st /\
        deployedContractsSummary st' = deployedContractsSummary st /\
        setEnforcedCalls tr' = setEnforcedCalls tr /\
        match r with
        | Ok None =>
            setPeerCalls tr' =
            setPeerCalls tr ++ flat_map (fun A => peerCallsFrom A deployed) As /\
            consoleErrors tr' = consoleErrors tr
        | Ok (Some res) => isError res = true
        | Throw _ => False
        end) st tr.
Proof.
  apply (wp_forOf _
           (fun pre st' tr' =>
              deployedContractsData st' = deployedContractsData st /\
              deployedContractsSummary st' = deployedContractsSummary st /\
              setEnforcedCalls tr' = setEnforcedCalls tr /\
              setPeerCalls tr' =
              setPeerCalls tr ++ flat_map (fun A => peerCallsFrom A deployed) pre /\
              consoleErrors tr' = consoleErrors tr))
    with (done := []).
  - cbn. rewrite app_nil_r. auto.
  - intros A pre post st0 tr0 _ (Hd & Hs & He & Hp & Hc).
    eapply wp_mono; [| apply peerLoop_spec].
    intros [[res |] | e] st' tr' (Hd' & Hs' & He' & H); cbn beta iota.
    + repeat split; congruence.
    + destruct H as [Hp' Hc']. rewrite flat_map_app, app_assoc.
      cbn [flat_map]. rewrite app_nil_r. repeat split; congruence.
    + contradiction.
  - cbn [app]. intros st' tr' (Hd & Hs & He & Hp & Hc). auto.
Qed.

(** Phase C: either the whole mesh is set and the phase goes on, or the
    first failure is returned as an error. *)
Lemma peeringPhase_spec st tr :
  wp (peeringPhase world)
     (fun r st' tr' =>
        deployedContractsData st' = deployedContractsData st /\
        deployedContractsSummary st' = deployedContractsSummary st /\
        setEnforcedCalls tr' = setEnforcedCalls tr /\
        match r with
        | Ok None =>
            setPeerCalls tr' = setPeerCalls tr ++ meshCalls (deployedContractsData st) /\
            consoleErrors tr' = consoleErrors tr
        | Ok (Some res) => isError res = true
        | Throw _ => False
        end) st tr.
Proof.
  unfold peeringPhase, pushResult, pushPeering.
  destruct st as [log summary data peering enforced].
  wp_step. wp_step; forget_log. wp_step. wp_step; forget_log. wp_step.
  destruct (Nat.ltb_spec (length data) 2) as [Hshort | Hmesh].
  - wp_steps_log. cbn [deployedContractsData deployedContractsSummary].
    rewrite (meshCalls_short data Hshort), app_nil_r. auto.
  - wp_step. wp_step; forget_log.
    eapply wp_mono; [| apply meshLoop_spec].
    intros [[res |] | e] st' tr' (Hd & Hs & He & H); cbn beta iota;
      [| | contradiction].
    + wp_steps_log. auto.
    + destruct st' as [log' summary' data' peering' enforced'].
      cbn [deployedContractsData deployedContractsSummary] in *.
      wp_steps_log. cbn [deployedContractsData deployedContractsSummary].
      destruct H as [Hp Hc]. auto.
Qed.

(** Phase D for one contract: a call when it has peers, a note when it has
    none, an error returned when the call fails; it never throws. *)
Lemma enforceOn_spec deployed A st tr :
  wp (enforceOn world deployed A)
     (fun r st' tr' =>
        deployedContractsData st' = deployedContractsData st /\
        deployedContractsSummary st' = deployedContractsSummary st /\
        setPeerCalls tr' = setPeerCalls tr /\
        match r with
        | Ok None =>
            setEnforcedCalls tr' = setEnforcedCalls tr ++ enforcedCallFor deployed A /\
            consoleErrors tr' = consoleErrors tr
        | Ok (Some res) => isError res = true
        | Throw _ => False
        end) st tr.
Proof.
  unfold enforceOn, wait, consoleError, pushResult, pushEnforced.
  destruct st as [log summary data peering enforced].
  wp_steps_log.
  all: cbn [deployedContractsData deployedContractsSummary isError errorResult].
  all: unfold enforcedCallFor; rewrite ?Heqb.
  all: calls_of_trace; auto.
Qed.

Lemma enforceLoop_spec deployed As st tr :
  wp (forOf As (enforceOn world deployed))
     (fun r st' tr' =>
        deployedContractsData st' = deployedContractsData st /\
        deployedContractsSummary st' = deployedContractsSummary st /\
        setPeerCalls tr' = setPeerCalls tr /\
        match r with
        | Ok None =>
            setEnforcedCalls tr' =
            setEnforcedCalls tr ++ flat_map (enforcedCallFor deployed) As /\
            consoleErrors tr' = consoleErrors tr
        | Ok (Some res) => isError res = true
        | Throw _ => False
        end) st tr.
Proof.
  apply (wp_forOf _
           (fun pre st' tr' =>
              deployedContractsData st' = deployedContractsData st /\
              deployedContractsSummary st' = deployedContractsSummary st /\
              setPeerCalls tr' = setPeerCalls tr /\
              setEnforcedCalls tr' =
              setEnforcedCalls tr ++ flat_map (enforcedCallFor deployed) pre /\
              consoleErrors tr' = consoleErrors tr))
    with (done := []).
  - cbn. rewrite app_nil_r. auto.
  - intros A pre post st0 tr0 _ (Hd & Hs & Hp & He & Hc).
    eapply wp_mono; [| apply enforceOn_spec].
    intros [[res |] | e] st' tr' (Hd' & Hs' & Hp' & H); cbn beta iota.
    + repeat split; congruence.
    + destruct H as [He' Hc']. rewrite flat_map_app, app_assoc.
      cbn [flat_map]. rewrite app_nil_r. repeat split; congruence.
    + contradiction.
  - cbn [app]. intros st' tr' (Hd & Hs & Hp & He & Hc). auto.
Qed.

Lemma enforcedOptionsPhase_spec st tr :
  wp (enforcedOptionsPhase world)
     (fun r st' tr' =>
        deployedContractsData st' = deployedContractsData st /\
        deployedContractsSummary st' = deployedContractsSummary st /\
        setPeerCalls tr' = setPeerCalls tr /\
        match r with
        | Ok None =>
            setEnforcedCalls tr' =
            setEnforcedCalls tr ++ enforcedCalls (deployedContractsData st) /\
            consoleErrors tr' = consoleErrors tr
        | Ok (Some res) => isError res = true
        | Throw _ => False
        end) st tr.
Proof.
  unfold enforcedOptionsPhase, pushResult, pushEnforced.
  destruct st as [log summary data peering enforced].
  wp_step. wp_step; forget_log. wp_step. wp_step; forget_log.
  wp_step. wp_step; forget_log. wp_step.
  destruct data as [| d data].
  - cbn [length Nat.eqb]. wp_steps_log.
    cbn [deployedContractsData deployedContractsSummary enforcedCalls flat_map].
    rewrite app_nil_r. auto.
  - cbn [length Nat.eqb]. cbv iota.
    eapply wp_mono; [| apply enforceLoop_spec].
    intros [[res |] | e] st' tr' (Hd & Hs & Hp & H); cbn beta iota;
      [| | contradiction].
    + wp_steps_log. auto.
    + destruct st' as [log' summary' data' peering' enforced'].
      cbn [deployedContractsData deployedContractsSummary] in *.
      wp_steps_log. cbn [deployedContractsData deployedContractsSummary].
      destruct H as [He Hc]. auto.
Qed.

(** Phase E: the report, never an error, and no call. *)
Lemma overallStatusOf_log summary data peering enforced log line :
  includes line (js "FAILURE") = false ->
  overallStatusOf (Build_Locals (log ++ [line]) summary data peering enforced)
  = overallStatusOf (Build_Locals log summary data peering enforced).
Proof.
  intros Hline. unfold overallStatusOf.
  cbn [deployedContractsData deployedContractsSummary results].
  rewrite existsb_app. cbn [existsb]. rewrite Hline, !orb_false_r. reflexivity.
Qed.

Lemma reportPhase_spec st tr :
  wp reportPhase
     (fun r st' tr' =>
        tr' = tr /\
        deployedContractsData st' = deployedContractsData st /\
        deployedContractsSummary st' = deployedContractsSummary st /\
        results st' =
        results st ++ [10 :: js "Phase E: Preparing results.";
                       js "Overall Status: " ++ overallStatusOf st] /\
        r = Ok {| content :=
                    DeployJson
                      {| overallStatus := overallStatusOf st;
                         deployedContracts := deployedContractsSummary st;
                         report_peeringResults := peeringResults st;
                         report_enforcedOptionsResults := enforcedOptionsResults st;
                         detailedExecutionLog := results st' |};
                  isError := false |}) st tr.
Proof.
  unfold reportPhase, pushResult.
  destruct st as [log summary data peering enforced].
  wp_steps.
  cbn [deployedContractsData deployedContractsSummary peeringResults
       enforcedOptionsResults results].
  rewrite overallStatusOf_log by (vm_compute; reflexivity).
  unfold cat. cbn [concat]. rewrite app_nil_r, <- app_assoc.
  repeat split.
Qed.

(** The status of the report, when every deployment recorded succeeded. *)
Lemma overallStatusOf_succeeded st :
  Forall succeeded (deployedContractsSummary st) ->
  overallStatusOf st =
  if mentionsFailure (results st) then someErrorsStatus
  else match deployedContractsData st with
       | [] => allFailedStatus
       | _ :: _ => fullSuccessStatus
       end.
Proof.
  intros Hok. unfold overallStatusOf, mentionsFailure.
  assert (existsb (fun s => jseq (deploymentStatus s) (js "Failed"))
                  (deployedContractsSummary st) = false) as ->.
  { induction Hok as [| s ss (Hs & _) _ IH]; [reflexivity |].
    cbn [existsb]. rewrite Hs, IH. reflexivity. }
  cbn [orb]. destruct (existsb _ (results st)); [reflexivity |].
  destruct (deployedContractsData st); reflexivity.
Qed.

Lemma mentionsFailure_report log status :
  status = someErrorsStatus \/ status = allFailedStatus \/ status = fullSuccessStatus ->
  mentionsFailure (log ++ [10 :: js "Phase E: Preparing results.";
                           js "Overall Status: " ++ status])
  = mentionsFailure log.
Proof.
  intros H. unfold mentionsFailure. rewrite existsb_app. cbn [existsb].
  replace (includes (10 :: js "Phase E: Preparing results.") (js "FAILURE"))
    with false by (vm_compute; reflexivity).
  replace (includes (js "Overall Status: " ++ status) (js "FAILURE")) with false
    by (destruct H as [-> | [-> | ->]]; vm_compute; reflexivity).
  rewrite !orb_false_r. reflexivity.
Qed.

(** ** Phase B *)

(** The [catch] block never goes on to the next chain: it returns an error
    that carries the text of the error it caught, after reporting it on the
    console and in the summary, unless encoding the constructor arguments or
    computing the salt again throws, in which case the handler throws. *)
Lemma deployFailed_spec params OFT_ABI OFT_BYTECODE deployOwner chain e st tr :
  wp (deployFailed world env params OFT_ABI OFT_BYTECODE deployOwner chain e)
     (fun r st' tr' =>
        deployedContractsData st' = deployedContractsData st /\
        match r with
        | Ok None => False
        | Ok (Some res) =>
            exists salt code,
              res = errorResult
                      (js "Error: Failed to Deploy OFT: " ++
                       deployFailureMessage chain e salt code) /\
              tr' = tr ++ [ConsoleError (deployFailureMessage chain e salt code) e] /\
              deployedContractsSummary st' =
              deployedContractsSummary st ++
              [{| chainName := chain; contractAddress := None;
                  deploymentStatus := js "Failed"; error := Some (errText e) |}]
        | Throw _ =>
            tr' = tr /\ deployedContractsSummary st' = deployedContractsSummary st
        end) st tr.
Proof.
  unfold deployFailed, consoleError, pushResult, pushSummary.
  destruct st as [log summary data peering enforced].
  wp_steps_log.
  all: cbn [deployedContractsData deployedContractsSummary]; auto.
  all: split; [reflexivity |]; eexists _, _; unfold cat; cbn [concat].
  all: rewrite app_nil_r; repeat split; reflexivity.
Qed.

(** The [try] block either deploys, and records the contract and its
    success, or throws; it makes no mesh call and reports nothing on the
    console. *)
Lemma deployAttempt_spec params OFT_ABI OFT_BYTECODE deployOwner chain st tr :
  wp (deployAttempt world env params OFT_ABI OFT_BYTECODE deployOwner chain)
     (fun r st' tr' =>
        setPeerCalls tr' = setPeerCalls tr /\
        setEnforcedCalls tr' = setEnforcedCalls tr /\
        consoleErrors tr' = consoleErrors tr /\
        match r with
        | Ok None =>
            exists d s,
              deployedContractsData st' = deployedContractsData st ++ [d] /\
              deployedOn chain d /\
              deployedContractsSummary st' = deployedContractsSummary st ++ [s] /\
              succeeded s
        | Ok (Some _) => False
        | Throw _ =>
            deployedContractsData st' = deployedContractsData st /\
            deployedContractsSummary st' = deployedContractsSummary st
        end) st tr.
Proof.
  unfold deployAttempt, getSigner, newContract, wait, pushResult, pushData,
    pushSummary.
  destruct st as [log summary data peering enforced].
  wp_steps_log.
  all: cbn [deployedContractsData deployedContractsSummary].
  all: calls_of_trace; auto.
  repeat split. eexists _, _. split; [reflexivity |].
  split; [| split; [reflexivity |]].
  - unfold deployedOn. cbn [Data.chainName Data.networkConfig Data.lzEid]. auto.
  - unfold succeeded. cbn. eauto.
Qed.

Lemma deployOnChain_spec params OFT_ABI OFT_BYTECODE deployOwner chain st tr :
  wp (deployOnChain world env params OFT_ABI OFT_BYTECODE deployOwner chain)
     (fun r st' tr' =>
        setPeerCalls tr' = setPeerCalls tr /\
        setEnforcedCalls tr' = setEnforcedCalls tr /\
        match r with
        | Ok None =>
            consoleErrors tr' = consoleErrors tr /\
            exists d s,
              deployedContractsData st' = deployedContractsData st ++ [d] /\
              deployedOn chain d /\
              deployedContractsSummary st' = deployedContractsSummary st ++ [s] /\
              succeeded s
        | Ok (Some res) => isError res = true
        | Throw _ => True
        end) st tr.
Proof.
  unfold deployOnChain, pushResult.
  destruct st as [log summary data peering enforced].
  wp_step. wp_step; forget_log. wp_apply deployAttempt_spec.
  intros [[res |] | e] st' tr' (Hp & He & Hc & H); cbn beta iota.
  - contradiction.
  - auto.
  - eapply wp_mono; [| apply deployFailed_spec].
    intros [[res |] | e'] st'' tr'' [Hd H']; cbn beta iota.
    + destruct H' as (salt & code & -> & -> & Hs).
      calls_of_trace. auto.
    + contradiction.
    + destruct H' as [-> Hs]. auto.
Qed.

Lemma deployedAll_refl st st' :
  deployedContractsData st' = deployedContractsData st ->
  deployedContractsSummary st' = deployedContractsSummary st ->
  deployedAll [] st st'.
Proof.
  intros Hd Hs. exists [], []. rewrite !app_nil_r. auto.
Qed.

Lemma deployedAll_step pre chain st st' st'' d s :
  deployedAll pre st st' ->
  deployedContractsData st'' = deployedContractsData st' ++ [d] ->
  deployedOn chain d ->
  deployedContractsSummary st'' = deployedContractsSummary st' ++ [s] ->
  succeeded s ->
  deployedAll (pre ++ [chain]) st st''.
Proof.
  intros (ds & ss & Hd & Hon & Hs & Hok) Hd' Hon' Hs' Hok'.
  exists (ds ++ [d]), (ss ++ [s]). rewrite Hd', Hd, Hs', Hs, <- !app_assoc.
  repeat split.
  - apply Forall2_app; [exact Hon | constructor; [exact Hon' | constructor]].
  - apply Forall_app. split; [exact Hok | constructor; [exact Hok' | constructor]].
Qed.

Lemma deployedAll_same chains st st' st'' :
  deployedAll chains st st' ->
  deployedContractsData st'' = deployedContractsData st' ->
  deployedContractsSummary st'' = deployedContractsSummary st' ->
  deployedAll chains st st''.
Proof.
  intros (ds & ss & Hd & Hon & Hs & Hok) Hd' Hs'.
  exists ds, ss. rewrite Hd', Hs'. auto.
Qed.

(** The loop of phase B goes on only over successes, and stops at the first
    chain whose deployment fails. *)
Lemma deployLoop_spec params OFT_ABI OFT_BYTECODE deployOwner chains st tr :
  wp (forOf chains (deployOnChain world env params OFT_ABI OFT_BYTECODE deployOwner))
     (fun r st' tr' =>
        setPeerCalls tr' = setPeerCalls tr /\
        setEnforcedCalls tr' = setEnforcedCalls tr /\
        match r with
        | Ok None => consoleErrors tr' = consoleErrors tr /\ deployedAll chains st st'
        | Ok (Some res) => isError res = true
        | Throw _ => True
        end) st tr.
Proof.
  apply (wp_forOf _
           (fun pre st' tr' =>
              setPeerCalls tr' = setPeerCalls tr /\
              setEnforcedCalls tr' = setEnforcedCalls tr /\
              consoleErrors tr' = consoleErrors tr /\
              deployedAll pre st st'))
    with (done := []).
  - repeat split. apply deployedAll_refl; reflexivity.
  - intros chain pre post st0 tr0 _ (Hp & He & Hc & Hall).
    eapply wp_mono; [| apply deployOnChain_spec].
    intros [[res |] | e] st' tr' (Hp' & He' & H); cbn beta iota.
    + repeat split; congruence.
    + destruct H as (Hc' & d & s & Hd & Hon & Hs & Hok).
      repeat split; try congruence.
      eapply deployedAll_step; eauto.
    + repeat split; congruence.
  - cbn [app]. intros st' tr' (Hp & He & Hc & Hall). auto.
Qed.

Lemma deploymentPhase_spec params OFT_ABI OFT_BYTECODE envOwnerAddress st tr :
  wp (deploymentPhase world env params OFT_ABI OFT_BYTECODE envOwnerAddress)
     (fun r st' tr' =>
        setPeerCalls tr' = setPeerCalls tr /\
        setEnforcedCalls tr' = setEnforcedCalls tr /\
        match r with
        | Ok None =>
            consoleErrors tr' = consoleErrors tr /\
            deployedAll (targetChains params) st st'
        | Ok (Some res) => isError res = true
        | Throw _ => True
        end) st tr.
Proof.
  unfold deploymentPhase, pushResult.
  destruct st as [log summary data peering enforced].
  wp_step. wp_step; forget_log. wp_step. wp_step. wp_step; forget_log.
  wp_apply deployLoop_spec.
  intros [[res |] | e] st' tr' (Hp & He & H); cbn beta iota.
  - wp_steps. auto.
  - destruct H as [Hc Hall].
    destruct st' as [log' summary' data' peering' enforced'].
    wp_steps_log. repeat split; auto.
  - auto.
Qed.

(** ** The handler after its checks

    When it returns a result that is not an error, every deployment
    succeeded, the whole mesh was set and every contract with a peer had its
    options enforced, nothing was reported on the console, and the result is
    the report, whose status says that errors occurred exactly when a line
    of its log holds the text FAILURE. *)
Lemma afterChecks_spec params OFT_ABI OFT_BYTECODE envOwnerAddress st tr :
  Forall succeeded (deployedContractsSummary st) ->
  wp (afterChecks world env params OFT_ABI OFT_BYTECODE envOwnerAddress)
     (fun r st' tr' =>
        match r with
        | Ok res =>
            isError res = false ->
            deployedAll (targetChains params) st st' /\
            setPeerCalls tr' = setPeerCalls tr ++ meshCalls (deployedContractsData st') /\
            setEnforcedCalls tr' =
            setEnforcedCalls tr ++ enforcedCalls (deployedContractsData st') /\
            consoleErrors tr' = consoleErrors tr /\
            exists report,
              content res = DeployJson report /\
              deployedContracts report = deployedContractsSummary st' /\
              overallStatus report =
              if mentionsFailure (detailedExecutionLog report) then someErrorsStatus
              else match deployedContractsData st' with
                   | [] => allFailedStatus
                   | _ :: _ => fullSuccessStatus
                   end
        | Throw _ => True
        end) st tr.
Proof.
  intros Hsummary. unfold afterChecks.
  wp_apply deploymentPhase_spec.
  intros [[res |] | e] st1 tr1 (Hp1 & He1 & H1); cbn beta iota; [| | exact I].
  { wp_steps. congruence. }
  destruct H1 as [Hc1 Hall].
  wp_apply peeringPhase_spec.
  intros [[res |] | e] st2 tr2 (Hd2 & Hs2 & He2 & H2); cbn beta iota;
    [| | contradiction].
  { wp_steps. congruence. }
  destruct H2 as [Hp2 Hc2].
  wp_apply enforcedOptionsPhase_spec.
  intros [[res |] | e] st3 tr3 (Hd3 & Hs3 & Hp3 & H3); cbn beta iota;
    [| | contradiction].
  { wp_steps. congruence. }
  destruct H3 as [He3 Hc3].
  eapply wp_mono; [| apply reportPhase_spec].
  intros r st4 tr4 (-> & Hd4 & Hs4 & Hlog & ->). intros _.
  assert (Forall succeeded (deployedContractsSummary st3)) as Hok3.
  { destruct Hall as (ds & ss & _ & _ & Hs & Hok).
    rewrite Hs3, Hs2, Hs. apply Forall_app. auto. }
  split; [| split; [| split; [| split]]].
  - eapply deployedAll_same; [exact Hall | congruence | congruence].
  - rewrite Hd4, Hd3, Hd2. congruence.
  - rewrite Hd4, Hd3. congruence.
  - congruence.
  - eexists. split; [reflexivity |]. cbn [deployedContracts overallStatus detailedExecutionLog].
    split; [congruence |].
    rewrite Hlog, Hd4, mentionsFailure_report.
    + apply overallStatusOf_succeeded. exact Hok3.
    + rewrite (overallStatusOf_succeeded st3 Hok3).
      destruct (mentionsFailure (results st3)); [auto |].
      destruct (deployedContractsData st3); auto.
Qed.

(** The handler: a result that is not an error is the report of a run in
    which everything succeeded. *)
Lemma handler_spec params :
  wp (deployAndConfigureOftMultichain world env params)
     (fun r st' tr' =>
        match r with
        | Ok res =>
            isError res = false ->
            targetChains params <> [] /\
            deployedAll (targetChains params) noLocals st' /\
            setPeerCalls tr' = meshCalls (deployedContractsData st') /\
            setEnforcedCalls tr' = enforcedCalls (deployedContractsData st') /\
            consoleErrors tr' = [] /\
            exists report,
              content res = DeployJson report /\
              deployedContracts report = deployedContractsSummary st' /\
              overallStatus report =
              if mentionsFailure (detailedExecutionLog report) then someErrorsStatus
              else match deployedContractsData st' with
                   | [] => allFailedStatus
                   | _ :: _ => fullSuccessStatus
                   end
        | Throw _ => True
        end) noLocals [].
Proof.
  unfold deployAndConfigureOftMultichain, pushResult, noLocals.
  wp_steps_log.
  all: try exact I.
  all: try (cbn [isError errorResult]; discriminate).
  all: wp_apply afterChecks_spec; [| constructor].
  all: intros [res | e] st' tr' H; [| exact I].
  all: intros Hres; destruct (H Hres) as (Hall & Hp & He & Hc & Hreport).
  all: split; [discriminate |].
  all: match goal with E : targetChains _ = _ |- _ => rewrite <- E end.
  all: split; [exact Hall |].
  all: auto.
Qed.

End Phases.

Lemma successful_run world env params res st tr :
  runDeploy world env params = (Ok res, st, tr) ->
  isError res = false ->
  targetChains params <> [] /\
  deployedAll env (targetChains params) noLocals st /\
  setPeerCalls tr = meshCalls (deployedContractsData st) /\
  setEnforcedCalls tr = enforcedCalls (deployedContractsData st) /\
  consoleErrors tr = [] /\
  exists report,
    content res = DeployJson report /\
    deployedContracts report = deployedContractsSummary st /\
    overallStatus report =
    if mentionsFailure (detailedExecutionLog report) then someErrorsStatus
    else match deployedContractsData st with
         | [] => allFailedStatus
         | _ :: _ => fullSuccessStatus
         end.
Proof.
  intros Hrun Hres.
  exact (wp_run _ _ _ _ _ _ _ Hrun (handler_spec world env params) Hres).
Qed.

(* ===================================================================== *)
(** * The mesh *)
(* ===================================================================== *)

Section Mesh.

Lemma others_all (A : Data.t) deployed :
  ~ In (Data.chainName A) (map Data.chainName deployed) ->
  filter (onOtherChain A) deployed = deployed.
Proof.
  induction deployed as [| B deployed IH]; intros Hnot; [reflexivity |].
  cbn [filter map In] in *. unfold onOtherChain at 1.
  destruct (jseq (Data.chainName A) (Data.chainName B)) eqn:E.
  - apply jseq_true in E. exfalso. apply Hnot. left. congruence.
  - cbn [negb]. rewrite IH by tauto. reflexivity.
Qed.

(** Among contracts on pairwise distinct chains, all but one are on another
    chain than a given one of them. *)
Lemma others_length (A : Data.t) deployed :
  NoDup (map Data.chainName deployed) ->
  In (Data.chainName A) (map Data.chainName deployed) ->
  length (filter (onOtherChain A) deployed) = (length deployed - 1)%nat.
Proof.
  induction deployed as [| B deployed IH]; intros Hnd Hin; [contradiction |].
  cbn [map] in Hnd. inversion Hnd as [| ? ? Hnot Hnd']; subst.
  cbn [filter length]. unfold onOtherChain at 1.
  destruct (jseq (Data.chainName A) (Data.chainName B)) eqn:E; cbn [negb].
  - apply jseq_true in E. rewrite others_all by congruence. lia.
  - destruct Hin as [Heq | Hin].
    + rewrite Heq, jseq_refl in E. discriminate.
    + cbn [length]. rewrite IH by assumption.
      destruct deployed; [contradiction | cbn [length]; lia].
Qed.

Lemma peerCallsFrom_length A deployed :
  length (peerCallsFrom A deployed) = length (filter (onOtherChain A) deployed).
Proof.
  unfold peerCallsFrom. induction deployed as [| B deployed IH]; [reflexivity |].
  cbn [flat_map filter]. unfold onOtherChain at 1.
  destruct (jseq (Data.chainName A) (Data.chainName B)); cbn [negb app length];
    rewrite IH; reflexivity.
Qed.

Lemma optionsFor_length A deployed :
  length (optionsFor A deployed) = length (filter (onOtherChain A) deployed).
Proof. unfold optionsFor. apply length_map. Qed.

Lemma flat_map_constant_length {X Y} (f : X -> list Y) (l : list X) n :
  Forall (fun x => length (f x) = n) l ->
  length (flat_map f l) = (length l * n)%nat.
Proof.
  induction 1 as [| x l Hx _ IH]; [reflexivity |].
  cbn [flat_map length]. rewrite length_app, Hx, IH. lia.
Qed.

(** On pairwise distinct chains the mesh has N (N - 1) calls. *)
Lemma meshCalls_length deployed :
  NoDup (map Data.chainName deployed) ->
  length (meshCalls deployed) = (length deployed * (length deployed - 1))%nat.
Proof.
  intros Hnd. unfold meshCalls. apply flat_map_constant_length.
  apply Forall_forall. intros A HA.
  rewrite peerCallsFrom_length. apply others_length; [exact Hnd |].
  apply in_map. exact HA.
Qed.

Lemma enforcedCalls_with_peers deployed l :
  Forall (fun A => (0 < length (optionsFor A deployed))%nat) l ->
  flat_map (enforcedCallFor deployed) l =
  map (fun A => (Data.contractInstance A, optionsFor A deployed)) l.
Proof.
  induction 1 as [| A l HA _ IH]; [reflexivity |].
  cbn [flat_map map]. rewrite IH. unfold enforcedCallFor at 1.
  apply Nat.ltb_lt in HA. rewrite HA. reflexivity.
Qed.

(** On two or more pairwise distinct chains every contract has peers, so
    there is one call to enforce options per contract. *)
Lemma enforcedCalls_all deployed :
  NoDup (map Data.chainName deployed) ->
  (2 <= length deployed)%nat ->
  enforcedCalls deployed =
  map (fun A => (Data.contractInstance A, optionsFor A deployed)) deployed /\
  Forall (fun A => length (optionsFor A deployed) = (length deployed - 1)%nat) deployed.
Proof.
  intros Hnd Hlen.
  assert (Forall (fun A => length (optionsFor A deployed) = (length deployed - 1)%nat)
                 deployed) as Hall.
  { apply Forall_forall. intros A HA. rewrite optionsFor_length.
    apply others_length; [exact Hnd | apply in_map; exact HA]. }
  split; [| exact Hall].
  apply enforcedCalls_with_peers.
  eapply Forall_impl; [| exact Hall]. cbv beta. intros A ->. lia.
Qed.

Lemma deployedOn_chains env chains ds :
  Forall2 (deployedOn env) chains ds -> map Data.chainName ds = chains.
Proof.
  induction 1 as [| c d chains ds (Hc & _) _ IH]; [reflexivity |].
  cbn [map]. rewrite Hc, IH. reflexivity.
Qed.

Lemma deployedOn_eids env chains ds :
  Forall2 (deployedOn env) chains ds ->
  Forall (fun d => exists network,
              getNetworkConfig env (Data.chainName d) = Ok network /\
              Data.lzEid d = lzEid network) ds.
Proof.
  induction 1 as [| c d chains ds (Hc & Hn & He) _ IH]; constructor; [| exact IH].
  exists (Data.networkConfig d). rewrite Hc. auto.
Qed.

End Mesh.

(** C2, as stated, fails, in two ways.  On two chains where both deployments
    succeed and the first [setPeer] reverts, one [setPeer] call is made, not
    two, and no [setEnforcedOptions] call, and the request ends in an error.
    And on a list that names the same chain twice, where both deployments
    succeed and no call fails, no [setPeer] and no [setEnforcedOptions] call
    is made, and the request ends in a report: two contracts on the same
    chain are no peers of each other. *)
Lemma mesh_is_cut_short_or_skipped :
  (let '(r, st, tr) := runDeploy peerReverts env0 (gamma bothChains) in
   map deploymentStatus (deployedContractsSummary st) = [js "Success"; js "Success"] /\
   length (setPeerCalls tr) = 1%nat /\
   length (setEnforcedCalls tr) = 0%nat /\
   exists text, r = Ok (errorResult text)) /\
  (let '(r, st, tr) :=
     runDeploy calm env0 (gamma [js "baseSepolia"; js "baseSepolia"]) in
   map deploymentStatus (deployedContractsSummary st) = [js "Success"; js "Success"] /\
   length (setPeerCalls tr) = 0%nat /\
   length (setEnforcedCalls tr) = 0%nat /\
   consoleErrors tr = [] /\
   exists report, r = Ok {| content := DeployJson report; isError := false |}).
Proof.
  split.
  - vm_compute. repeat split. eexists. reflexivity.
  - vm_compute. repeat split. eexists. reflexivity.
Qed.

(** The mesh of a request on two or more pairwise distinct chains that runs
    to a report: one contract per target chain, in order, each with the
    endpoint id of its chain; one [setPeer] call for every ordered pair of
    deployed contracts, N (N - 1) in all; one [setEnforcedOptions] call per
    deployed contract, in order, with N - 1 entries, one for each other
    contract, with its endpoint id, message type 1 and the standard
    options, whose last sixteen bytes are the number 200000. *)
Lemma successful_run_mesh world env params res st tr :
  runDeploy world env params = (Ok res, st, tr) ->
  isError res = false ->
  NoDup (targetChains params) ->
  (2 <= length (targetChains params))%nat ->
  let deployed := deployedContractsData st in
  let N := length (targetChains params) in
  map Data.chainName deployed = targetChains params /\
  Forall (fun d => exists network,
              getNetworkConfig env (Data.chainName d) = Ok network /\
              Data.lzEid d = lzEid network) deployed /\
  setPeerCalls tr = meshCalls deployed /\
  length (setPeerCalls tr) = (N * (N - 1))%nat /\
  setEnforcedCalls tr =
  map (fun A => (Data.contractInstance A, optionsFor A deployed)) deployed /\
  length (setEnforcedCalls tr) = N /\
  Forall (fun A =>
            length (optionsFor A deployed) = (N - 1)%nat /\
            optionsFor A deployed =
            map (fun B => {| eid := Data.lzEid B; msgType := 1;
                             options := standardOptionsHex |})
                (filter (onOtherChain A) deployed)) deployed /\
  exists bs, getBytes standardOptionsHex = Ok bs /\ bigEndian (skipn 6 bs) = 200000.
Proof.
  intros Hrun Hres Hnd Hlen deployed N.
  destruct (successful_run world env params res st tr Hrun Hres)
    as (_ & (ds & ss & Hd & Hon & _) & Hp & He & _).
  cbn [noLocals deployedContractsData app] in Hd. fold deployed in Hd, Hp, He.
  assert (map Data.chainName deployed = targetChains params) as Hchains
    by (rewrite Hd; eapply deployedOn_chains; exact Hon).
  assert (length deployed = N) as HN
    by (unfold N; rewrite <- Hchains; symmetry; apply length_map).
  assert (NoDup (map Data.chainName deployed)) as Hnd' by (rewrite Hchains; exact Hnd).
  destruct (enforcedCalls_all deployed Hnd' ltac:(lia)) as [Hcalls Hopts].
  split; [exact Hchains |].
  split; [rewrite Hd; eapply deployedOn_eids; exact Hon |].
  split; [exact Hp |].
  split; [rewrite Hp, meshCalls_length, HN by exact Hnd'; reflexivity |].
  split; [rewrite He; exact Hcalls |].
  split; [rewrite He, Hcalls, length_map; exact HN |].
  split.
  - eapply Forall_impl; [| exact Hopts]. cbv beta. intros A HA.
    split; [rewrite HA, HN; reflexivity | reflexivity].
  - eexists. split; [vm_compute; reflexivity | vm_compute; reflexivity].
Qed.

(* ===================================================================== *)
(** * A single deployed contract *)
(* ===================================================================== *)

Lemma wp_outcome {S A} (m : M S A) Q st tr :
  wp m Q st tr -> exists r st' tr', m st tr = (r, st', tr') /\ Q r st' tr'.
Proof.
  unfold wp. destruct (m st tr) as [[r st'] tr']. intros H.
  exists r, st', tr'. auto.
Qed.

Lemma optionsFor_alone d : optionsFor d [d] = [].
Proof. unfold optionsFor. cbn [filter]. rewrite jseq_refl. reflexivity. Qed.

(** C4, as stated, fails: on two chains where the first deployment succeeds
    and the second reverts, the request results in exactly one successful
    deployment, yet the handler ends in the [catch] block of phase B: it
    writes no notice that peering is skipped, the enforced-options phase
    does not run for the contract deployed, so no line says that it has no
    peers, and the result is an error. *)
Lemma one_success_then_a_failure_gets_no_notice :
  let '(r, st, tr) := runDeploy secondDeployReverts env0 (gamma bothChains) in
  map deploymentStatus (deployedContractsSummary st) = [js "Success"; js "Failed"] /\
  length (deployedContractsData st) = 1%nat /\
  peeringResults st = [] /\
  enforcedOptionsResults st = [] /\
  existsb (fun line => includes line (js "Skipping peering phase")) (results st)
  = false /\
  existsb (fun line => includes line (js "No peers to set enforced options for"))
          (results st) = false /\
  setPeerCalls tr = [] /\ setEnforcedCalls tr = [] /\
  exists text, r = Ok (errorResult text).
Proof.
  vm_compute. repeat split. eexists. reflexivity.
Qed.

(** C4, amended.  When the deployment phase completes, no deployment having
    failed, with exactly one deployed contract, the rest of the handler
    makes no call at all: the peering phase is skipped with its notice, the
    enforced-options phase finds no peer for the contract, notes it and
    calls nothing, and the handler returns the report, not an error.  The
    deployment phase itself makes no [setPeer] and no [setEnforcedOptions]
    call. *)
Theorem single_contract_is_not_peered world env params OFT_ABI OFT_BYTECODE
    envOwnerAddress st0 tr0 st1 tr1 d :
  deploymentPhase world env params OFT_ABI OFT_BYTECODE envOwnerAddress st0 tr0
  = (Ok None, st1, tr1) ->
  deployedContractsData st1 = [d] ->
  setPeerCalls tr1 = setPeerCalls tr0 /\
  setEnforcedCalls tr1 = setEnforcedCalls tr0 /\
  exists st2 report,
    afterChecks world env params OFT_ABI OFT_BYTECODE envOwnerAddress st0 tr0
    = (Ok {| content := DeployJson report; isError := false |}, st2, tr1) /\
    report_peeringResults report = peeringResults st1 ++ [peeringSkipped] /\
    report_enforcedOptionsResults report = enforcedOptionsResults st1 ++ [noPeersFor d] /\
    deployedContracts report = deployedContractsSummary st1.
Proof.
  intros Hphase Hone.
  pose proof (wp_run _ _ _ _ _ _ _ Hphase
                (deploymentPhase_spec world env params OFT_ABI OFT_BYTECODE
                                      envOwnerAddress st0 tr0))
    as (Hp & He & _).
  split; [exact Hp |]. split; [exact He |].
  unfold afterChecks. unfold bind at 1. rewrite Hphase.
  match goal with
  | |- exists st2 report, ?m st1 tr1 = _ /\ _ =>
      assert (wp m (fun r st2 tr2 =>
                      exists report,
                        r = Ok {| content := DeployJson report; isError := false |} /\
                        tr2 = tr1 /\
                        report_peeringResults report
                        = peeringResults st1 ++ [peeringSkipped] /\
                        report_enforcedOptionsResults report
                        = enforcedOptionsResults st1 ++ [noPeersFor d] /\
                        deployedContracts report = deployedContractsSummary st1)
                 st1 tr1) as Hwp
  end.
  { destruct st1 as [log summary data peering enforced].
    cbn [deployedContractsData] in Hone. subst data.
    unfold peeringPhase, enforcedOptionsPhase, reportPhase, pushResult,
      pushPeering, pushEnforced.
    wp_step. wp_step. wp_step; forget_log. wp_step. wp_step; forget_log.
    cbn [length Nat.ltb Nat.leb]. wp_steps_log; [discriminate |].
    cbn [forOf]. unfold enforceOn, pushResult, pushEnforced.
    rewrite optionsFor_alone. cbn [length Nat.ltb Nat.leb].
    wp_steps_log.
    eexists. split; [reflexivity |].
    cbn [report_peeringResults report_enforcedOptionsResults deployedContracts
         peeringResults enforcedOptionsResults deployedContractsSummary].
    unfold noPeersFor, peeringSkipped, cat. cbn [concat].
    rewrite ?app_nil_r, <- ?app_assoc. auto. }
  apply wp_outcome in Hwp.
  destruct Hwp as (r & st2 & tr2 & Hrun & report & -> & -> & Hpr & Her & Hdc).
  exists st2, report. auto.
Qed.

Lemma single_contract_is_not_peered_witness :
  exists st2 report,
    afterChecks calm env0 (gamma [js "baseSepolia"]) (abi artifact0) (js "0x6080")
                (js "0x1111111111111111111111111111111111111111") noLocals []
    = (Ok {| content := DeployJson report; isError := false |}, st2,
       snd (deploymentPhase calm env0 (gamma [js "baseSepolia"]) (abi artifact0)
              (js "0x6080") (js "0x1111111111111111111111111111111111111111")
              noLocals [])) /\
    report_peeringResults report = [peeringSkipped].
Proof.
  pose (phase := deploymentPhase calm env0 (gamma [js "baseSepolia"]) (abi artifact0)
                   (js "0x6080") (js "0x1111111111111111111111111111111111111111")
                   noLocals []).
  assert (exists d, phase = (Ok None, snd (fst phase), snd phase) /\
                    deployedContractsData (snd (fst phase)) = [d])
    as (d & Hphase & Hone) by (eexists; split; vm_compute; reflexivity).
  destruct (single_contract_is_not_peered calm env0 (gamma [js "baseSepolia"])
              (abi artifact0) (js "0x6080")
              (js "0x1111111111111111111111111111111111111111")
              noLocals [] (snd (fst phase)) (snd phase) d Hphase Hone)
    as (_ & _ & st2 & report & Hrun & Hpeering & _).
  exists st2, report. split; [exact Hrun | exact Hpeering].
Defined.

(* ===================================================================== *)
(** * A failed deployment *)
(* ===================================================================== *)

Section Failure.
Variable world : World.
Variable env : Env.

Lemma forOf_app {S A R} (body : A -> M S (option R)) xs ys st tr :
  forOf (xs ++ ys) body st tr =
  match forOf xs body st tr with
  | (Ok None, st', tr') => forOf ys body st' tr'
  | other => other
  end.
Proof.
  revert st tr. induction xs as [| x xs IH]; intros st tr; [reflexivity |].
  cbn [app forOf]. unfold bind.
  destruct (body x st tr) as [[[[v |] | e] st'] tr'];
    [reflexivity | apply IH | reflexivity].
Qed.

(** When the deployments on the chains before [chain] succeed and the
    attempt on [chain] throws, the loop of phase B ends there: either the
    [catch] block returns its error, which carries the text of the error
    thrown, after reporting it on the console, or it throws itself.  No
    chain after [chain] is tried. *)
Lemma failed_attempt_ends_the_loop params OFT_ABI OFT_BYTECODE deployOwner
    pre chain post st tr st1 tr1 e st2 tr2 :
  forOf pre (deployOnChain world env params OFT_ABI OFT_BYTECODE deployOwner) st tr
  = (Ok None, st1, tr1) ->
  deployAttempt world env params OFT_ABI OFT_BYTECODE deployOwner chain
                (atAttempt chain st1) tr1
  = (Throw e, st2, tr2) ->
  exists r st3 tr3,
    forOf (pre ++ chain :: post)
          (deployOnChain world env params OFT_ABI OFT_BYTECODE deployOwner) st tr
    = (r, st3, tr3) /\
    ((exists e', r = Throw e' /\ tr3 = tr2) \/
     (exists salt code,
         r = Ok (Some (errorResult (js "Error: Failed to Deploy OFT: " ++
                                    deployFailureMessage chain e salt code))) /\
         tr3 = tr2 ++ [ConsoleError (deployFailureMessage chain e salt code) e])).
Proof.
  intros Hpre Hattempt.
  rewrite forOf_app, Hpre. cbn [forOf]. unfold bind at 1.
  assert (deployOnChain world env params OFT_ABI OFT_BYTECODE deployOwner chain st1 tr1
          = deployFailed world env params OFT_ABI OFT_BYTECODE deployOwner chain e st2 tr2)
    as ->.
  { unfold deployOnChain, bind, tryCatch, pushResult, modify.
    unfold atAttempt, pushResult, modify in Hattempt. cbn [fst snd] in Hattempt.
    rewrite Hattempt. reflexivity. }
  destruct (wp_outcome _ _ _ _
              (deployFailed_spec world env params OFT_ABI OFT_BYTECODE deployOwner
                                 chain e st2 tr2))
    as (r & st3 & tr3 & -> & _ & H).
  destruct r as [[res |] | e'].
  - destruct H as (salt & code & -> & -> & _).
    eexists _, _, _. split; [reflexivity |]. right. eauto.
  - contradiction.
  - destruct H as [-> _].
    eexists _, _, _. split; [reflexivity |]. left. eauto.
Qed.

(** What the loop of phase B returns, when it does not go on, is what the
    handler returns, with nothing done in between. *)
Lemma afterChecks_ends_with_the_loop params OFT_ABI OFT_BYTECODE envOwnerAddress
    st tr r st' tr' :
  forOf (targetChains params)
        (deployOnChain world env params OFT_ABI OFT_BYTECODE
                       (deployOwnerOf params envOwnerAddress))
        (atLoopStart params envOwnerAddress st) tr
  = (r, st', tr') ->
  (forall res, r = Ok (Some res) ->
     afterChecks world env params OFT_ABI OFT_BYTECODE envOwnerAddress st tr
     = (Ok res, st', tr')) /\
  (forall e, r = Throw e ->
     afterChecks world env params OFT_ABI OFT_BYTECODE envOwnerAddress st tr
     = (Throw e, st', tr')).
Proof.
  intros Hloop.
  unfold afterChecks, deploymentPhase, bind, pushResult, modify.
  unfold atLoopStart, deployOwnerOf, bind, pushResult, modify in Hloop.
  cbn [fst snd] in Hloop. rewrite Hloop.
  split; intros ? ->; reflexivity.
Qed.

(** What holds of every request whose deployment fails.  When the deployments on
    the chains before the K-th succeed and the attempt on the K-th throws,
    the handler ends there: nothing is called afterwards, on no later chain,
    no [setPeer], no [setEnforcedOptions], but the console; and the handler
    either returns the error result that carries the text of the error
    thrown, or, when its [catch] block throws, throws. *)
Lemma failed_deployment_ends_the_request params OFT_ABI OFT_BYTECODE envOwnerAddress
    pre chain post st tr st1 tr1 e st2 tr2 :
  targetChains params = pre ++ chain :: post ->
  forOf pre (deployOnChain world env params OFT_ABI OFT_BYTECODE
                           (deployOwnerOf params envOwnerAddress))
        (atLoopStart params envOwnerAddress st) tr
  = (Ok None, st1, tr1) ->
  deployAttempt world env params OFT_ABI OFT_BYTECODE
                (deployOwnerOf params envOwnerAddress) chain (atAttempt chain st1) tr1
  = (Throw e, st2, tr2) ->
  exists r st3 tr3,
    afterChecks world env params OFT_ABI OFT_BYTECODE envOwnerAddress st tr
    = (r, st3, tr3) /\
    ((exists e', r = Throw e' /\ tr3 = tr2) \/
     (exists salt code,
         r = Ok (errorResult (js "Error: Failed to Deploy OFT: " ++
                              js "  FAILURE: Deploying on " ++ chain ++ js ": " ++
                              errText e ++ js ", salt: " ++ [10] ++ js "        " ++
                              salt ++ js ", bytecode: " ++ code)) /\
         tr3 = tr2 ++ [ConsoleError (deployFailureMessage chain e salt code) e])).
Proof.
  intros Hchains Hpre Hattempt.
  destruct (failed_attempt_ends_the_loop params OFT_ABI OFT_BYTECODE
              (deployOwnerOf params envOwnerAddress) pre chain post
              _ _ _ _ _ _ _ Hpre Hattempt)
    as (r & st3 & tr3 & Hloop & Hr).
  rewrite <- Hchains in Hloop.
  destruct (afterChecks_ends_with_the_loop params OFT_ABI OFT_BYTECODE
              envOwnerAddress _ _ _ _ _ Hloop) as [Hres Hthrow].
  destruct Hr as [(e' & -> & ->) | (salt & code & -> & ->)].
  - eexists _, _, _. split; [apply Hthrow; reflexivity |]. left. eauto.
  - eexists _, _, _. split; [apply Hres; reflexivity |]. right.
    exists salt, code. split; [| reflexivity].
    unfold deployFailureMessage, cat. cbn [concat].
    rewrite ?app_nil_r, <- ?app_assoc. reflexivity.
Qed.

(** An attempt that got as far as calling the factory had computed the
    salt and the bytecode with the constructor arguments, which the [catch]
    block computes once more. *)
Lemma deployAttempt_called params OFT_ABI OFT_BYTECODE deployOwner chain st tr :
  wp (deployAttempt world env params OFT_ABI OFT_BYTECODE deployOwner chain)
     (fun r _ tr' =>
        calledTheFactory tr tr' ->
        exists salt code,
          failureDetails world env params OFT_ABI OFT_BYTECODE deployOwner chain
          = Ok (salt, code)) st tr.
Proof.
  unfold deployAttempt, getSigner, newContract, wait, pushResult, pushData,
    pushSummary.
  wp_steps_trace.
  all: intros (events & factory & code & salt & Heq & Hin).
  all: try (rewrite <- ?app_assoc in Heq;
            first [ apply app_inv_head in Heq
                  | rewrite <- (app_nil_r tr) in Heq at 1; apply app_inv_head in Heq ];
            subst events; cbn [app In] in Hin;
            repeat (destruct Hin as [Hin | Hin]; [discriminate Hin |]);
            contradiction).
  all: unfold failureDetails.
  all: repeat match goal with
              | H : _ = Ok _ |- _ => rewrite H; cbn [rbind]
              | H : _ = None |- _ => rewrite H; cbn [rbind]
              end.
  all: eexists _, _; reflexivity.
Qed.

(** The [catch] block of phase B returns the error of the failure when the
    salt and the bytecode with the constructor arguments can be computed,
    and throws when they cannot. *)
Lemma deployFailed_details params OFT_ABI OFT_BYTECODE deployOwner chain e st tr :
  wp (deployFailed world env params OFT_ABI OFT_BYTECODE deployOwner chain e)
     (fun r st' tr' =>
        deployedContractsData st' = deployedContractsData st /\
        match failureDetails world env params OFT_ABI OFT_BYTECODE deployOwner chain
        with
        | Ok (salt, code) =>
            r = Ok (Some (errorResult
                            (js "Error: Failed to Deploy OFT: " ++
                             deployFailureMessage chain e salt code))) /\
            tr' = tr ++ [ConsoleError (deployFailureMessage chain e salt code) e] /\
            deployedContractsSummary st' =
            deployedContractsSummary st ++ [failedOn chain e]
        | Throw e' =>
            r = Throw e' /\ tr' = tr /\
            deployedContractsSummary st' = deployedContractsSummary st
        end) st tr.
Proof.
  unfold deployFailed, consoleError, pushResult, pushSummary, failureDetails.
  destruct st as [log summary data peering enforced].
  wp_steps_log.
  all: try discriminate.
  all: cbn [rbind deployedContractsData deployedContractsSummary].
  all: repeat match goal with
              | H : _ = Ok _ |- _ => rewrite H; cbn [rbind]
              | H : _ = Throw _ |- _ => rewrite H; cbn [rbind]
              end.
  all: split; [reflexivity |].
  all: try (repeat split; reflexivity).
  all: rewrite cat2.
  all: repeat split; reflexivity.
Qed.

(** C1.  A deployment that fails ends the request with its error.  Let the
    deployments on the chains before the K-th succeed and the attempt on the
    K-th chain throw [e].  Let the attempt have called the factory, as it
    has when it is the deployment, the wait for it or the reading of the
    address deployed to that was answered with an error; or, when it threw
    before that call, let the salt and the bytecode with the constructor
    arguments of the request be computable.  Then the handler writes the
    failure to the console and does nothing else, so no later chain is tried
    and no [setPeer] or [setEnforcedOptions] call is made; it returns the
    error result whose text holds the text of [e]; and its summary holds
    the successes before, and the failure with the text of [e]. *)
Theorem failed_deployment_is_answered_with_its_error params OFT_ABI OFT_BYTECODE
    envOwnerAddress pre chain post st tr st1 tr1 e st2 tr2 :
  targetChains params = pre ++ chain :: post ->
  forOf pre (deployOnChain world env params OFT_ABI OFT_BYTECODE
                           (deployOwnerOf params envOwnerAddress))
        (atLoopStart params envOwnerAddress st) tr
  = (Ok None, st1, tr1) ->
  deployAttempt world env params OFT_ABI OFT_BYTECODE
                (deployOwnerOf params envOwnerAddress) chain (atAttempt chain st1) tr1
  = (Throw e, st2, tr2) ->
  calledTheFactory tr1 tr2 \/
  isOk (failureDetails world env params OFT_ABI OFT_BYTECODE
                       (deployOwnerOf params envOwnerAddress) chain) = true ->
  exists salt code st3 successes,
    let msg := deployFailureMessage chain e salt code in
    failureDetails world env params OFT_ABI OFT_BYTECODE
                   (deployOwnerOf params envOwnerAddress) chain = Ok (salt, code) /\
    afterChecks world env params OFT_ABI OFT_BYTECODE envOwnerAddress st tr
    = (Ok (errorResult (js "Error: Failed to Deploy OFT: " ++ msg)), st3,
       tr2 ++ [ConsoleError msg e]) /\
    msg = js "  FAILURE: Deploying on " ++ chain ++ js ": " ++ errText e ++
          js ", salt: " ++ [10] ++ js "        " ++ salt ++
          js ", bytecode: " ++ code /\
    setPeerCalls (tr2 ++ [ConsoleError msg e]) = setPeerCalls tr /\
    setEnforcedCalls (tr2 ++ [ConsoleError msg e]) = setEnforcedCalls tr /\
    deployedContractsSummary st3
    = deployedContractsSummary st ++ successes ++ [failedOn chain e] /\
    Forall succeeded successes.
Proof.
  intros Hchains Hpre Hattempt Hfailed.
  set (deployOwner := deployOwnerOf params envOwnerAddress) in *.
  (* the details of the failure can be computed *)
  assert (exists salt code,
             failureDetails world env params OFT_ABI OFT_BYTECODE deployOwner chain
             = Ok (salt, code)) as (salt & code & Hdetails).
  { destruct Hfailed as [Hcalled | Hok].
    - exact (wp_run _ _ _ _ _ _ _ Hattempt
               (deployAttempt_called params OFT_ABI OFT_BYTECODE deployOwner chain
                                     (atAttempt chain st1) tr1) Hcalled).
    - destruct (failureDetails world env params OFT_ABI OFT_BYTECODE deployOwner chain)
        as [[salt code] | e']; [eauto | discriminate]. }
  (* what the loop did before, and the attempt *)
  pose proof (wp_run _ _ _ _ _ _ _ Hpre
                (deployLoop_spec world env params OFT_ABI OFT_BYTECODE deployOwner pre
                                 (atLoopStart params envOwnerAddress st) tr))
    as (Hp1 & He1 & _ & ds & ss & _ & _ & Hs1 & Hok).
  pose proof (wp_run _ _ _ _ _ _ _ Hattempt
                (deployAttempt_spec world env params OFT_ABI OFT_BYTECODE deployOwner
                                    chain (atAttempt chain st1) tr1))
    as (Hp2 & He2 & _ & _ & Hs2).
  (* the catch block *)
  destruct (wp_outcome _ _ _ _
              (deployFailed_details params OFT_ABI OFT_BYTECODE deployOwner chain e
                                    st2 tr2))
    as (r & st3 & tr3 & Hcatch & _ & H).
  rewrite Hdetails in H. destruct H as (-> & -> & Hs3).
  assert (forOf (targetChains params)
                (deployOnChain world env params OFT_ABI OFT_BYTECODE deployOwner)
                (atLoopStart params envOwnerAddress st) tr
          = (Ok (Some (errorResult (js "Error: Failed to Deploy OFT: " ++
                                    deployFailureMessage chain e salt code))),
             st3, tr2 ++ [ConsoleError (deployFailureMessage chain e salt code) e]))
    as Hloop.
  { rewrite Hchains, forOf_app, Hpre. cbn [forOf]. unfold bind at 1.
    assert (deployOnChain world env params OFT_ABI OFT_BYTECODE deployOwner chain
                          st1 tr1
            = deployFailed world env params OFT_ABI OFT_BYTECODE deployOwner chain e
                           st2 tr2) as ->.
    { unfold deployOnChain, bind, tryCatch, pushResult, modify.
      unfold atAttempt, pushResult, modify in Hattempt. cbn [fst snd] in Hattempt.
      rewrite Hattempt. reflexivity. }
    rewrite Hcatch. reflexivity. }
  destruct (afterChecks_ends_with_the_loop params OFT_ABI OFT_BYTECODE
              envOwnerAddress _ _ _ _ _ Hloop) as [Hres _].
  exists salt, code, st3, ss. cbv zeta.
  split; [exact Hdetails |].
  split; [apply Hres; reflexivity |].
  split.
  { unfold deployFailureMessage, cat. cbn [concat].
    rewrite ?app_nil_r, <- ?app_assoc. reflexivity. }
  split; [rewrite <- Hp1, <- Hp2; calls_of_trace; reflexivity |].
  split; [rewrite <- He1, <- He2; calls_of_trace; reflexivity |].
  split; [| exact Hok].
  rewrite Hs3, Hs2. unfold atAttempt, pushResult, modify.
  cbn [fst snd deployedContractsSummary].
  rewrite Hs1. unfold atLoopStart, bind, pushResult, modify.
  cbn [fst snd deployedContractsSummary]. rewrite <- app_assoc. reflexivity.
Qed.

End Failure.

Lemma failed_deployment_is_answered_with_its_error_witness :
  let owner := js "0x1111111111111111111111111111111111111111" in
  exists text st3 tr3 successes,
    afterChecks secondDeployReverts env0 (gamma bothChains) (abi artifact0)
                (js "0x6080") owner noLocals []
    = (Ok (errorResult text), st3, tr3) /\
    setPeerCalls tr3 = [] /\ setEnforcedCalls tr3 = [] /\
    deployedContractsSummary st3
    = successes ++ [failedOn (js "baseSepolia") rpcError] /\
    Forall succeeded successes.
Proof.
  intros owner.
  pose (body := deployOnChain secondDeployReverts env0 (gamma bothChains)
                  (abi artifact0) (js "0x6080")
                  (deployOwnerOf (gamma bothChains) owner)).
  pose (before := forOf [js "ArbitrumSepolia"] body
                    (atLoopStart (gamma bothChains) owner noLocals) []).
  pose (attempt := deployAttempt secondDeployReverts env0 (gamma bothChains)
                     (abi artifact0) (js "0x6080")
                     (deployOwnerOf (gamma bothChains) owner) (js "baseSepolia")
                     (atAttempt (js "baseSepolia") (snd (fst before))) (snd before)).
  assert (before = (Ok None, snd (fst before), snd before)) as Hbefore
    by (vm_compute; reflexivity).
  assert (attempt = (Throw rpcError, snd (fst attempt), snd attempt)) as Hattempt
    by (vm_compute; reflexivity).
  assert (calledTheFactory (snd before) (snd attempt)) as Hcalled.
  { exists (skipn (length (snd before)) (snd attempt)).
    assert (exists factory code salt,
               nth_error (skipn (length (snd before)) (snd attempt)) 2
               = Some (FactoryDeploy factory code salt))
      as (factory & code & salt & Hnth)
      by (vm_compute; eexists _, _, _; reflexivity).
    exists factory, code, salt. split.
    - vm_compute. reflexivity.
    - eapply nth_error_In. exact Hnth. }
  destruct (failed_deployment_is_answered_with_its_error secondDeployReverts env0
              (gamma bothChains) (abi artifact0) (js "0x6080") owner
              [js "ArbitrumSepolia"] (js "baseSepolia") [] noLocals []
              (snd (fst before)) (snd before) rpcError
              (snd (fst attempt)) (snd attempt) eq_refl Hbefore Hattempt
              (or_introl Hcalled))
    as (salt & code & st3 & successes & _ & Hrun & _ & Hpeers & Henforced & Hsummary
        & Hok).
  eexists _, st3, _, successes. split; [exact Hrun |].
  split; [exact Hpeers |]. split; [exact Henforced |].
  split; [exact Hsummary | exact Hok].
Defined.


Lemma failed_deployment_ends_the_request_witness :
  let owner := js "0x1111111111111111111111111111111111111111" in
  exists r st3 tr3,
    afterChecks secondDeployReverts env0 (gamma bothChains) (abi artifact0)
                (js "0x6080") owner noLocals []
    = (r, st3, tr3) /\
    ((exists e', r = Throw e' /\ length tr3 = 8%nat) \/
     (exists text, r = Ok (errorResult text) /\ length tr3 = 9%nat)).
Proof.
  intros owner.
  pose (body := deployOnChain secondDeployReverts env0 (gamma bothChains)
                  (abi artifact0) (js "0x6080")
                  (deployOwnerOf (gamma bothChains) owner)).
  pose (before := forOf [js "ArbitrumSepolia"] body
                    (atLoopStart (gamma bothChains) owner noLocals) []).
  pose (attempt := deployAttempt secondDeployReverts env0 (gamma bothChains)
                     (abi artifact0) (js "0x6080")
                     (deployOwnerOf (gamma bothChains) owner) (js "baseSepolia")
                     (atAttempt (js "baseSepolia") (snd (fst before))) (snd before)).
  assert (before = (Ok None, snd (fst before), snd before)) as Hbefore
    by (vm_compute; reflexivity).
  assert (attempt = (Throw rpcError, snd (fst attempt), snd attempt)) as Hattempt
    by (vm_compute; reflexivity).
  destruct (failed_deployment_ends_the_request secondDeployReverts env0
              (gamma bothChains) (abi artifact0) (js "0x6080") owner
              [js "ArbitrumSepolia"] (js "baseSepolia") [] noLocals []
              (snd (fst before)) (snd before) rpcError
              (snd (fst attempt)) (snd attempt) eq_refl Hbefore Hattempt)
    as (r & st3 & tr3 & Hrun & Hr).
  exists r, st3, tr3. split; [exact Hrun |].
  destruct Hr as [(e' & -> & ->) | (salt & code & -> & ->)].
  - left. exists e'. split; [reflexivity | vm_compute; reflexivity].
  - right. eexists. split; [reflexivity |].
    rewrite length_app. vm_compute. reflexivity.
Defined.

(** A deployment that reverts on the second chain: the first contract stays
    deployed, the error returned carries the text of the revert, and no peer
    is set. *)
Example second_deployment_reverts :
  let '(r, st, tr) := runDeploy secondDeployReverts env0 (gamma bothChains) in
  map deploymentStatus (deployedContractsSummary st) = [js "Success"; js "Failed"] /\
  map error (deployedContractsSummary st) = [None; Some (js "execution reverted")] /\
  setPeerCalls tr = [] /\ setEnforcedCalls tr = [] /\
  consoleErrors tr = [rpcError] /\
  exists text,
    r = Ok (errorResult text) /\ includes text (js "execution reverted") = true.
Proof.
  vm_compute. repeat split. eexists. split; reflexivity.
Qed.

(** A supply that cannot be parsed, here 1.5, which the handler parses with
    no decimals: the parse fails inside the [try] block before any call to a
    chain, the [catch] block parses the supply again, and the handler throws
    before it has recorded anything. *)
Example fractional_supply_makes_the_handler_throw :
  let params :=
    {| tokenName := js "Gamma"; tokenSymbol := js "GMA";
       initialTotalSupply := js "1.5"; decimals := 18;
       targetChains := bothChains; owner := None |} in
  let '(r, st, tr) := runDeploy calm env0 params in
  r = Throw (numericFault "too many decimals for format") /\
  tr = [ReadFile oftPath; NewWallet (js "https://arb.example")] /\
  deployedContractsSummary st = [].
Proof. vm_compute. repeat split. Qed.

(** C10, at an input where the code misses it.  A token named FAILURE,
    deployed on both chains without any failure, gets a report, not an
    error, with two successes, nothing reported on the console, and the
    status that says that errors occurred: phase E looks for the text
    FAILURE in the lines of the log, and the line that describes the token
    holds its name. *)
Theorem token_named_FAILURE_is_reported_with_errors :
  let params :=
    {| tokenName := js "FAILURE"; tokenSymbol := js "FLR";
       initialTotalSupply := js "1000000"; decimals := 18;
       targetChains := bothChains; owner := None |} in
  let '(r, st, tr) := runDeploy calm env0 params in
  exists report,
    r = Ok {| content := DeployJson report; isError := false |} /\
    map deploymentStatus (deployedContracts report) = [js "Success"; js "Success"] /\
    consoleErrors tr = [] /\
    length (setPeerCalls tr) = 2%nat /\
    length (setEnforcedCalls tr) = 2%nat /\
    overallStatus report = someErrorsStatus /\
    overallStatus report <> fullSuccessStatus.
Proof.
  vm_compute. eexists. split; [reflexivity |]. repeat split. discriminate.
Qed.

(** What holds of every result that is not an error: it is the report
    of a run in which every deployment recorded succeeded and nothing was
    reported on the console, so no [setPeer] or [setEnforcedOptions] call
    failed; its status is the one for full success unless a line of its log
    holds the text FAILURE. *)
Lemma report_of_a_successful_run world env params res st tr :
  runDeploy world env params = (Ok res, st, tr) ->
  isError res = false ->
  exists report,
    content res = DeployJson report /\
    Forall succeeded (deployedContracts report) /\
    consoleErrors tr = [] /\
    overallStatus report =
    if mentionsFailure (detailedExecutionLog report) then someErrorsStatus
    else fullSuccessStatus.
Proof.
  intros Hrun Hres.
  destruct (successful_run world env params res st tr Hrun Hres)
    as (Hchains & (ds & ss & Hd & Hon & Hs & Hok) & _ & _ & Hc & report & Hcontent
        & Hsummary & Hstatus).
  exists report. split; [exact Hcontent |].
  cbn [noLocals deployedContractsSummary deployedContractsData app] in Hs, Hd.
  split; [rewrite Hsummary, Hs; exact Hok |]. split; [exact Hc |].
  rewrite Hstatus. destruct (mentionsFailure _); [reflexivity |].
  rewrite Hd. destruct Hon; [contradiction | reflexivity].
Qed.

(* ===================================================================== *)
(** * The supply and the decimals *)
(* ===================================================================== *)

(** C7.  In every run of the deployment handler every deployment call
    carries the contract's bytecode followed by the constructor arguments
    encoded from the name, the symbol, the supply, the endpoint and the
    owner, where the supply is the request's supply string parsed with no
    decimals: a string of digits is the integer it reads as, and a digit
    other than zero after a point is refused.  The supply does not depend
    on the request's decimals, which the schema bounds by 0 and 18 and sets
    to 18 when absent. *)
Theorem supply_is_parsed_without_decimals :
  (forall world env params factory code salt,
      In (FactoryDeploy factory code salt) (snd (runDeploy world env params)) ->
      exists OFT_ABI OFT_BYTECODE lzEndpoint deployOwner supply constructorArgs,
        parseUnits (initialTotalSupply params) 0 = Ok supply /\
        encodeDeploy world OFT_ABI
          [ ArgString (tokenName params); ArgString (tokenSymbol params);
            ArgBigInt supply; ArgString lzEndpoint; ArgString deployOwner ]
        = Ok constructorArgs /\
        solidityPacked2 OFT_BYTECODE constructorArgs = Ok code) /\
  (forall whole, digits whole -> (0 < length whole)%nat ->
      parseUnits whole 0 = checkValue (digitsToZ whole)) /\
  (forall whole frac, digits whole -> digits frac ->
      forallb (Z.eqb 48) frac = false ->
      isOk (parseUnits (whole ++ [46] ++ frac) 0) = false) /\
  parseUnits (js "1000000") 0 = Ok 1000000 /\
  (forall req params, deployAndConfigureOftParams req = Some params ->
      0 <= decimals params <= 18 /\
      decimals params = match req_decimals req with Some d => d | None => 18 end /\
      initialTotalSupply params = req_initialTotalSupply req) /\
  (forall req d, req_decimals req = Some d -> d < 0 \/ 18 < d ->
      deployAndConfigureOftParams req = None).
Proof.
  split; [| split; [| split; [| split; [| split]]]].
  - intros world env params factory code salt Hin.
    pose proof (handler_trace world env params) as H.
    rewrite Forall_forall in H. apply H in Hin. exact (proj2 Hin).
  - intros whole Hw Hpos. rewrite parseUnits_integer by assumption.
    f_equal. change (10 ^ Z.of_nat 0) with 1. lia.
  - intros whole frac Hw Hf Hnz. rewrite parseUnits_0_fraction by assumption.
    reflexivity.
  - reflexivity.
  - intros req params. unfold deployAndConfigureOftParams.
    destruct (req_decimals req) as [d |].
    + destruct ((0 <=? d) && (d <=? 18)) eqn:Hd; [| discriminate].
      destruct (forallb isNetworkKey (req_targetChains req)
                && (1 <=? length (req_targetChains req))%nat); [| discriminate].
      intros [= <-]. cbn [decimals initialTotalSupply].
      repeat split; try reflexivity; lia.
    + destruct (forallb isNetworkKey (req_targetChains req)
                && (1 <=? length (req_targetChains req))%nat); [| discriminate].
      intros [= <-]. cbn [decimals initialTotalSupply].
      repeat split; try reflexivity; lia.
  - intros req d Hd Hout. unfold deployAndConfigureOftParams. rewrite Hd.
    destruct ((0 <=? d) && (d <=? 18)) eqn:Hin; [lia | reflexivity].
Qed.

Lemma supply_is_parsed_without_decimals_witness :
  exists OFT_ABI OFT_BYTECODE lzEndpoint deployOwner constructorArgs,
    encodeDeploy calm OFT_ABI
      [ ArgString (js "Gamma"); ArgString (js "GMA"); ArgBigInt 1000000;
        ArgString lzEndpoint; ArgString deployOwner ] = Ok constructorArgs /\
    solidityPacked2 OFT_BYTECODE constructorArgs = Ok (js "0x6080c0de").
Proof.
  pose (factory :=
          {| target := js "0x754a2643Ce68e0e34510B1E246254f93946AE3a1";
             interface := abi artifact0;
             runner := {| signerRpc := js "https://base.example";
                          signerAddress := js "0x2222222222222222222222222222222222222222" |} |}).
  pose (salt := js "0x6b773b52c94606d250d06e47f5c1929656cf7433d155255db756fcc44db75957").
  assert (In (FactoryDeploy factory (js "0x6080c0de") salt)
             (snd (runDeploy calm env0 (gamma bothChains)))) as Hin.
  { vm_compute. do 8 right. left. reflexivity. }
  destruct (proj1 supply_is_parsed_without_decimals calm env0 (gamma bothChains)
              factory (js "0x6080c0de") salt Hin)
    as (OFT_ABI & OFT_BYTECODE & lzEndpoint & deployOwner & supply & args
        & Hsupply & Hargs & Hcode).
  assert (supply = 1000000) as -> by (vm_compute in Hsupply; congruence).
  exists OFT_ABI, OFT_BYTECODE, lzEndpoint, deployOwner, args. auto.
Defined.

Lemma report_of_a_successful_run_witness :
  exists report res st tr,
    runDeploy calm env0 (gamma bothChains) = (Ok res, st, tr) /\
    content res = DeployJson report /\
    Forall succeeded (deployedContracts report) /\
    consoleErrors tr = [].
Proof.
  pose (run := runDeploy calm env0 (gamma bothChains)).
  assert (exists res, run = (Ok res, snd (fst run), snd run) /\ isError res = false)
    as (res & Hrun & Hres) by (eexists; split; vm_compute; reflexivity).
  destruct (report_of_a_successful_run calm env0 (gamma bothChains) res
              (snd (fst run)) (snd run) Hrun Hres)
    as (report & Hcontent & Hok & Hconsole & _).
  exists report, res, (snd (fst run)), (snd run).
  split; [exact Hrun |]. split; [exact Hcontent |]. split; [exact Hok | exact Hconsole].
Defined.

(* ===================================================================== *)
(** * The address format *)
(* ===================================================================== *)

Section AddressFormat.

Lemma hexChar_lower n : 0 <= n < 16 -> isLowerHexDigit (hexChar n) = true.
Proof.
  intros Hn. unfold hexChar, isLowerHexDigit.
  destruct (Z.ltb_spec n 10); apply orb_true_iff; [left | right];
    apply andb_true_intro; split; apply Z.leb_le; lia.
Qed.

Lemma hexDigits_length bs : length (hexDigits bs) = (2 * length bs)%nat.
Proof.
  unfold hexDigits. induction bs as [| b bs IH]; [reflexivity |].
  cbn [flat_map length app]. rewrite IH. lia.
Qed.

Lemma hexDigits_lower bs :
  Forall isByte bs -> forallb isLowerHexDigit (hexDigits bs) = true.
Proof.
  induction 1 as [| b bs Hb _ IH]; [reflexivity |].
  destruct (byte_nibbles b Hb) as (Hh & Hl & _).
  unfold hexDigits. cbn [flat_map app forallb].
  rewrite (hexChar_lower _ Hh), (hexChar_lower _ Hl). exact IH.
Qed.

Lemma formatAddress_inv address padded :
  formatAddressForLayerZero address = Ok padded ->
  exists bs, getBytes address = Ok bs /\ (length bs <= 32)%nat /\
             padded = hexlify (repeat 0 (32 - length bs) ++ bs).
Proof.
  unfold formatAddressForLayerZero, zeroPadValue.
  destruct (getBytes address) as [bs | e]; [| discriminate]. cbn [rbind].
  destruct (Nat.leb_spec (length bs) 32) as [Hle | Hgt]; [| discriminate].
  intros [= <-]. exists bs. auto.
Qed.

Lemma padded_bytes bs :
  Forall isByte bs -> (length bs <= 32)%nat ->
  Forall isByte (repeat 0 (32 - length bs) ++ bs) /\
  length (repeat 0 (32 - length bs) ++ bs) = 32%nat.
Proof.
  intros Hb Hlen. split.
  - apply Forall_app. split; [apply repeat_zero_bytes | exact Hb].
  - rewrite length_app, repeat_length. lia.
Qed.

(** The value [formatAddressForLayerZero] returns is in one form only: the
    two characters 0x and sixty-four hex digits in lower case, which read
    back as thirty-two bytes; and formatting it again changes nothing. *)
Theorem formatted_address_is_canonical (address padded : jsstring) :
  formatAddressForLayerZero address = Ok padded ->
  length padded = 66%nat /\
  firstn 2 padded = js "0x" /\
  forallb isLowerHexDigit (skipn 2 padded) = true /\
  (exists bs, getBytes padded = Ok bs /\ length bs = 32%nat) /\
  formatAddressForLayerZero padded = Ok padded.
Proof.
  intros H. destruct (formatAddress_inv _ _ H) as (bs & Hb & Hlen & ->).
  destruct (padded_bytes bs (getBytes_bytes _ _ Hb) Hlen) as [Hbytes H32].
  set (all := repeat 0 (32 - length bs) ++ bs) in *.
  split; [| split; [| split; [| split]]].
  - unfold hexlify. rewrite length_app, hexDigits_length, H32. reflexivity.
  - reflexivity.
  - apply hexDigits_lower. exact Hbytes.
  - exists all. split; [apply getBytes_hexlify; exact Hbytes | exact H32].
  - unfold formatAddressForLayerZero, zeroPadValue.
    rewrite (getBytes_hexlify all Hbytes). cbn [rbind]. rewrite H32.
    reflexivity.
Qed.

Lemma formatted_address_is_canonical_witness :
  formatAddressForLayerZero
    (js "0x0000000000000000000000006edce65403992e310a62460808c4b910d972f10f")
  = Ok (js "0x0000000000000000000000006edce65403992e310a62460808c4b910d972f10f").
Proof.
  exact (proj2 (proj2 (proj2 (proj2
           (formatted_address_is_canonical
              (js "0x6EDCE65403992e310A62460808c4b910D972f10f")
              (js "0x0000000000000000000000006edce65403992e310a62460808c4b910d972f10f")
              eq_refl))))).
Defined.

(** Settles the comparisons of a goal that the bounds at hand decide. *)
Ltac decide_leb :=
  repeat match goal with
         | |- context [?x <=? ?y] =>
             first [ rewrite (proj2 (Z.leb_le x y)) by lia
                   | rewrite (proj2 (Z.leb_gt x y)) by lia ]
         end.

Lemma hexVal_asciiLower c :
  hexVal (if (65 <=? c) && (c <=? 90) then c + 32 else c) = hexVal c.
Proof.
  destruct ((65 <=? c) && (c <=? 90)) eqn:E; [| reflexivity].
  apply andb_true_iff in E. destruct E as [E1 E2]. apply Z.leb_le in E1, E2.
  unfold hexVal. destruct (Z.le_gt_cases c 70).
  - decide_leb. cbn [andb]. f_equal. lia.
  - decide_leb. reflexivity.
Qed.

Lemma hexPairs_asciiLower : forall s, hexPairs (asciiLower s) = hexPairs s.
Proof.
  fix IH 1. intros [| a [| b rest]]; [reflexivity | reflexivity |].
  change (asciiLower (a :: b :: rest))
    with ((if (65 <=? a) && (a <=? 90) then a + 32 else a)
          :: (if (65 <=? b) && (b <=? 90) then b + 32 else b)
          :: asciiLower rest).
  rewrite !hexPairs_cons2, !hexVal_asciiLower, (IH rest). reflexivity.
Qed.

Lemma getBytes_asciiLower s : getBytes (asciiLower s) = getBytes s.
Proof.
  destruct s as [| zero [| x digits]]; [reflexivity | |].
  - cbn. destruct ((65 <=? zero) && (zero <=? 90)); reflexivity.
  - change (asciiLower (zero :: x :: digits))
      with ((if (65 <=? zero) && (zero <=? 90) then zero + 32 else zero)
            :: (if (65 <=? x) && (x <=? 90) then x + 32 else x)
            :: asciiLower digits).
    unfold getBytes. rewrite hexPairs_asciiLower.
    destruct (Z.eqb_spec zero 48) as [-> | Hz].
    + cbn [andb Z.leb Z.compare Pos.compare Pos.compare_cont Z.eqb Pos.eqb].
      destruct (Z.eqb_spec x 120) as [-> | Hx]; [reflexivity |].
      destruct (Z.eqb_spec x 88) as [-> | HX]; [reflexivity |].
      destruct ((65 <=? x) && (x <=? 90)) eqn:E.
      * destruct (Z.eqb_spec (x + 32) 120); [lia |].
        destruct (Z.eqb_spec (x + 32) 88); [| reflexivity].
        apply andb_true_iff in E. lia.
      * destruct (Z.eqb_spec x 120); [lia |].
        destruct (Z.eqb_spec x 88); [lia | reflexivity].
    + destruct ((65 <=? zero) && (zero <=? 90)) eqn:E.
      * apply andb_true_iff in E. destruct E as [E1 E2].
        apply Z.leb_le in E1, E2.
        destruct (Z.eqb_spec (zero + 32) 48); [lia | reflexivity].
      * destruct (Z.eqb_spec zero 48); [contradiction | reflexivity].
Qed.

Lemma bigEndian_zeros n bs : bigEndian (repeat 0 n ++ bs) = bigEndian bs.
Proof.
  unfold bigEndian. rewrite fold_left_app.
  replace (fold_left (fun acc b => 256 * acc + b) (repeat 0 n) 0) with 0;
    [reflexivity |].
  induction n as [| n IH]; [reflexivity | exact IH].
Qed.

(** Two hex strings of the same number of bytes, twenty for an account, are
    formatted alike exactly when they hold the same bytes: distinct accounts
    get distinct peers, and the letter case of the digits, which a
    checksummed address mixes, does not count.  The padding leaves the
    number the bytes denote as it is. *)
Theorem formatted_address_identifies_the_account (a b : jsstring) (bsa bsb : bytes) :
  getBytes a = Ok bsa -> getBytes b = Ok bsb ->
  length bsa = length bsb -> (length bsa <= 32)%nat ->
  (formatAddressForLayerZero a = formatAddressForLayerZero b <-> bsa = bsb) /\
  formatAddressForLayerZero (asciiLower a) = formatAddressForLayerZero a /\
  exists padded bs,
    formatAddressForLayerZero a = Ok padded /\ getBytes padded = Ok bs /\
    bigEndian bs = bigEndian bsa.
Proof.
  intros Ha Hb Hlen H32.
  destruct (zeroPadValue_ok a bsa 32 Ha H32) as [Hpa Hra].
  destruct (zeroPadValue_ok b bsb 32 Hb ltac:(lia)) as [Hpb Hrb].
  split; [| split].
  - unfold formatAddressForLayerZero. rewrite Hpa, Hpb. split.
    + intros Heq.
      pose proof (f_equal (fun r => rbind r getBytes) Heq) as E.
      cbn [rbind] in E. rewrite Hra, Hrb, Hlen in E.
      apply (f_equal (fun r => match r with Ok x => x | Throw _ => [] end)) in E.
      apply app_inv_head in E. exact E.
    + intros ->. reflexivity.
  - unfold formatAddressForLayerZero, zeroPadValue.
    rewrite getBytes_asciiLower. reflexivity.
  - eexists _, _. split; [exact Hpa |]. split; [exact Hra |].
    apply bigEndian_zeros.
Qed.

Lemma formatted_address_identifies_the_account_witness :
  formatAddressForLayerZero (js "0x6EDCE65403992e310A62460808c4b910D972f10f")
  = formatAddressForLayerZero (js "0x6edce65403992e310a62460808c4b910d972f10f").
Proof.
  apply (proj1 (formatted_address_identifies_the_account
                  (js "0x6EDCE65403992e310A62460808c4b910D972f10f")
                  (js "0x6edce65403992e310a62460808c4b910d972f10f")
                  [0x6E; 0xDC; 0xE6; 0x54; 0x03; 0x99; 0x2e; 0x31; 0x0A; 0x62;
                   0x46; 0x08; 0x08; 0xc4; 0xb9; 0x10; 0xD9; 0x72; 0xf1; 0x0f]
                  [0x6E; 0xDC; 0xE6; 0x54; 0x03; 0x99; 0x2e; 0x31; 0x0A; 0x62;
                   0x46; 0x08; 0x08; 0xc4; 0xb9; 0x10; 0xD9; 0x72; 0xf1; 0x0f]
                  eq_refl eq_refl eq_refl ltac:(cbn; lia))).
  reflexivity.
Defined.

End AddressFormat.

(* ===================================================================== *)
(** * The networks and the schemas *)
(* ===================================================================== *)

Section Networks.

Lemma isNetworkKey_cases chain :
  isNetworkKey chain = true ->
  chain = js "ArbitrumSepolia" \/ chain = js "baseSepolia".
Proof.
  unfold isNetworkKey, networkKeys. cbn [existsb].
  rewrite orb_false_r, orb_true_iff, !jseq_true. intuition congruence.
Qed.

(** The chain names the schemas accept are the keys of [NETWORKS], so a
    request that is accepted never meets an unknown network: every target
    chain of a deployment request, of which there is at least one, and both
    chains of a bridge request have a configuration, which is the one filed
    under the name asked for; and two accepted names with the same endpoint
    id are the same name. *)
Theorem accepted_chains_have_a_configuration (env : Env) :
  map fst (NETWORKS env) = networkKeys /\
  (forall chain, isNetworkKey chain = true ->
     exists network,
       getNetworkConfig env chain = Ok network /\ name network = chain /\
       In (chain, network) (NETWORKS env)) /\
  (forall a b na nb,
     isNetworkKey a = true -> isNetworkKey b = true ->
     getNetworkConfig env a = Ok na -> getNetworkConfig env b = Ok nb ->
     lzEid na = lzEid nb -> a = b) /\
  (forall req params,
     deployAndConfigureOftParams req = Some params ->
     targetChains params <> [] /\
     Forall (fun chain => isOk (getNetworkConfig env chain) = true)
            (targetChains params)) /\
  (forall req params,
     bridgeOftParams req = Some params ->
     isOk (getNetworkConfig env (fromChain params)) = true /\
     isOk (getNetworkConfig env (toChain params)) = true).
Proof.
  assert (forall chain, isNetworkKey chain = true ->
            isOk (getNetworkConfig env chain) = true) as Hok.
  { intros chain H. destruct (isNetworkKey_cases chain H) as [-> | ->]; reflexivity. }
  split; [reflexivity |]. split; [| split; [| split]].
  - intros chain H. destruct (isNetworkKey_cases chain H) as [-> | ->];
      eexists; (split; [reflexivity |]); (split; [reflexivity |]);
      cbn [NETWORKS In]; auto.
  - intros a b na nb Ha Hb Hna Hnb.
    destruct (isNetworkKey_cases a Ha) as [-> | ->],
             (isNetworkKey_cases b Hb) as [-> | ->];
      injection Hna as <-; injection Hnb as <-; cbn [lzEid];
      solve [reflexivity | discriminate].
  - intros req params. unfold deployAndConfigureOftParams.
    destruct (match req_decimals req with
              | Some d => if (0 <=? d) && (d <=? 18) then Some d else None
              | None => Some 18
              end) as [d |]; [| discriminate].
    destruct (forallb isNetworkKey (req_targetChains req)) eqn:Hkeys;
      [| discriminate].
    destruct (Nat.leb_spec 1 (length (req_targetChains req))) as [Hlen | Hlen];
      [| discriminate].
    intros [= <-]. cbn [targetChains]. split.
    + destruct (req_targetChains req); [cbn in Hlen; lia | discriminate].
    + rewrite forallb_forall in Hkeys. apply Forall_forall.
      intros chain Hin. apply Hok, Hkeys, Hin.
  - intros req params. unfold bridgeOftParams.
    destruct (isNetworkKey (req_fromChain req)) eqn:Hfrom; [| discriminate].
    destruct (isNetworkKey (req_toChain req)) eqn:Hto; [| discriminate].
    intros [= <-]. cbn [fromChain toChain]. auto.
Qed.

End Networks.

(* ===================================================================== *)
(** * Amounts as text *)
(* ===================================================================== *)

Section DecimalStrings.

Lemma js_String a s : js (String a s) = Z.of_N (N_of_ascii a) :: js s.
Proof. reflexivity. Qed.

(** The decimal digits of a number are digits. *)
Lemma uint_digits u : digits (js (NilEmpty.string_of_uint u)).
Proof.
  induction u; cbn [NilEmpty.string_of_uint]; rewrite ?js_String;
    constructor; solve [reflexivity | assumption].
Qed.

(** Reading digits from the left, as [BigInt] does, is what the standard
    library does when it reads a decimal number. *)
Lemma uint_value_from u : forall acc,
  fold_left (fun acc c => 10 * acc + (c - 48)) (js (NilEmpty.string_of_uint u))
            (Z.pos acc)
  = Z.pos (Pos.of_uint_acc u acc).
Proof.
  induction u; intros acc; cbn [NilEmpty.string_of_uint Pos.of_uint_acc];
    rewrite ?js_String; [reflexivity | ..];
    cbn [fold_left Z.of_N N_of_ascii N_of_digits];
    rewrite <- IHu; f_equal; lia.
Qed.

Lemma uint_value u :
  digitsToZ (js (NilEmpty.string_of_uint u)) = Z.of_N (Pos.of_uint u).
Proof.
  unfold digitsToZ.
  induction u; cbn [NilEmpty.string_of_uint Pos.of_uint];
    rewrite ?js_String; [reflexivity | exact IHu | ..];
    cbn [fold_left Z.of_N N_of_ascii N_of_digits];
    rewrite <- uint_value_from; f_equal.
Qed.

(** [String(n)] of a number that is not negative is its decimal digits. *)
Lemma ofZ_digits n :
  0 <= n -> digits (ofZ n) /\ ofZ n <> [] /\ digitsToZ (ofZ n) = n.
Proof.
  intros Hn. unfold ofZ. destruct n as [| p | p]; [| | lia].
  - cbn. repeat split; [repeat constructor | discriminate].
  - cbn [Z.to_int NilZero.string_of_int NilZero.string_of_uint].
    pose proof (DecimalPos.Unsigned.to_uint_nonnil p) as Hnil.
    assert (NilZero.string_of_uint (Pos.to_uint p)
            = NilEmpty.string_of_uint (Pos.to_uint p)) as ->
      by (destruct (Pos.to_uint p); [contradiction | reflexivity ..]).
    split; [apply uint_digits |]. split.
    + destruct (Pos.to_uint p); [contradiction | ..];
        cbn [NilEmpty.string_of_uint]; rewrite js_String; discriminate.
    + rewrite uint_value, DecimalPos.Unsigned.of_to. reflexivity.
Qed.

End DecimalStrings.

Section FormatAndParse.

Lemma padLeft_spec fuel : forall str decimals,
  exists k, padLeft fuel str decimals = repeat 48 k ++ str /\
            ((decimals < length str + 4 * fuel)%nat ->
             (decimals < length str + k)%nat).
Proof.
  induction fuel as [| fuel IH]; intros str decimals; cbn [padLeft].
  - exists 0%nat. split; [reflexivity | lia].
  - destruct (Nat.leb_spec (length str) decimals) as [Hle | Hgt].
    + destruct (IH (js "0000" ++ str) decimals) as (k & -> & Hk).
      exists (k + 4)%nat. split.
      * rewrite repeat_app, <- app_assoc. reflexivity.
      * intros H. rewrite length_app in Hk. cbn [length js map list_ascii_of_string] in Hk.
        lia.
    + exists 0%nat. split; [reflexivity | lia].
Qed.

Lemma digits_zeros k : digits (repeat 48 k).
Proof. induction k; cbn; constructor; [reflexivity | assumption]. Qed.

Lemma digitsToZ_leading_zeros k s : digitsToZ (repeat 48 k ++ s) = digitsToZ s.
Proof.
  rewrite digitsToZ_app.
  change (repeat 48 k) with ([] ++ repeat 48 k). rewrite digitsToZ_zeros.
  cbn. lia.
Qed.

Lemma trimWhole_cons d c rest :
  trimWhole (d :: c :: rest) =
  if d =? 48 then if c =? 46 then d :: c :: rest else trimWhole (c :: rest)
  else d :: c :: rest.
Proof.
  destruct d as [| p | p]; try reflexivity.
  do 6 (destruct p as [p | p |]; try reflexivity).
Qed.

(** The loop that trims zeros stops at the last digit before the point. *)
Lemma trimWhole_digits b : forall a,
  digits a -> a <> [] ->
  exists k a',
    a = repeat 48 k ++ a' /\ a' <> [] /\ digits a' /\
    trimWhole (a ++ 46 :: b) = a' ++ 46 :: b.
Proof.
  induction a as [| d a IH]; intros Ha Hne; [contradiction |].
  inversion Ha as [| ? ? Hd Ha']; subst.
  destruct a as [| d' a].
  - exists 0%nat, [d]. cbn [repeat app]. repeat split; auto.
    rewrite trimWhole_cons. destruct (d =? 48); reflexivity.
  - cbn [app]. rewrite trimWhole_cons.
    destruct (Z.eqb_spec d 48) as [-> | Hd48].
    + inversion Ha' as [| ? ? Hd' _]; subst.
      assert ((d' =? 46) = false) as ->
        by (unfold isDigit in Hd'; apply Z.eqb_neq; lia).
      destruct (IH Ha' ltac:(discriminate)) as (k & a' & Heq & Hne' & Hda' & Htrim).
      exists (S k), a'. cbn [repeat app]. rewrite <- Heq.
      repeat split; auto.
    + exists 0%nat, (d :: d' :: a). cbn [repeat app]. repeat split; auto.
Qed.

Lemma rev_zeros k : rev (repeat 48 k) = repeat 48 k.
Proof.
  induction k as [| k IH]; [reflexivity |].
  cbn [repeat rev]. rewrite IH. symmetry. apply repeat_cons.
Qed.

Lemma parseUnits_fixed_point_negative whole frac decimals :
  digits whole -> digits frac ->
  (0 < length whole + length frac)%nat ->
  (length frac <= decimals)%nat ->
  parseUnits (45 :: whole ++ [46] ++ frac) decimals
  = checkValue (- (digitsToZ whole * 10 ^ Z.of_nat decimals
                   + digitsToZ frac * 10 ^ Z.of_nat (decimals - length frac))).
Proof.
  intros Hw Hf Hpos Hlen. unfold parseUnits.
  change (takeSign (45 :: whole ++ [46] ++ frac)) with (true, whole ++ [46] ++ frac).
  cbv beta iota.
  rewrite takeDigits_app by (exact Hw || reflexivity).
  cbn [app skipPoint]. change (46 =? 46) with true. cbv iota.
  rewrite takeDigits_all by exact Hf.
  destruct (Nat.eqb_spec (length whole + length frac) 0) as [H0 | _]; [lia |].
  destruct (fraction_padded frac decimals Hlen) as [-> ->].
  f_equal.
  rewrite digitsToZ_app, whole_or_zero, digitsToZ_zeros, length_app, repeat_length.
  f_equal. f_equal. f_equal. f_equal. lia.
Qed.

(** What [formatUnits] writes for a number that is not negative: digits, a
    point and at most eighteen digits, which read as the number. *)
Lemma formatted_magnitude n :
  0 <= n ->
  exists whole frac,
    trimDecimal (trimWhole
      (let str := padLeft 19 (ofZ n) 18 in
       firstn (length str - 18) str ++ js "." ++ skipn (length str - 18) str))
    = whole ++ [46] ++ frac /\
    digits whole /\ digits frac /\ whole <> [] /\ frac <> [] /\
    (length frac <= 18)%nat /\
    digitsToZ whole * 10 ^ 18
    + digitsToZ frac * 10 ^ Z.of_nat (18 - length frac) = n.
Proof.
  intros Hn. destruct (ofZ_digits n Hn) as (Hd & Hne & Hval).
  destruct (padLeft_spec 19 (ofZ n) 18) as (k & Hpad & Hlong).
  cbv zeta. rewrite Hpad. set (str := repeat 48 k ++ ofZ n).
  assert (digits str) as Hstr
    by (apply Forall_app; split; [apply digits_zeros | exact Hd]).
  assert (digitsToZ str = n) as Hstrval
    by (unfold str; rewrite digitsToZ_leading_zeros; exact Hval).
  assert (18 < length str)%nat as Hlen.
  { unfold str. rewrite length_app, repeat_length.
    specialize (Hlong ltac:(lia)). lia. }
  set (index := (length str - 18)%nat).
  pose proof (firstn_skipn index str) as Hsplit.
  set (w := firstn index str) in *. set (f := skipn index str) in *.
  assert (length f = 18%nat) as Hf18 by (unfold f; rewrite length_skipn; lia).
  assert (length w = index) as Hwlen by (unfold w; rewrite length_firstn; lia).
  rewrite <- Hsplit in Hstr. apply Forall_app in Hstr as [Hw Hf].
  assert (w <> []) as Hwne by (intros E; rewrite E in Hwlen; cbn in Hwlen; lia).
  destruct (trimWhole_digits f w Hw Hwne) as (kw & w' & Hweq & Hw'ne & Hw' & Htrim).
  change (js "." ++ f) with (46 :: f). rewrite Htrim.
  unfold trimDecimal.
  replace (rev (w' ++ 46 :: f)) with (rev f ++ 46 :: rev w')
    by (rewrite rev_app_distr; cbn [rev]; rewrite <- app_assoc; reflexivity).
  assert (rev f <> []) as Hrne
    by (intros E; apply (f_equal (@length Z)) in E; rewrite length_rev, Hf18 in E;
        discriminate).
  destruct (trimWhole_digits (rev w') (rev f) (Forall_rev Hf) Hrne)
    as (kf & g & Hgeq & Hgne & Hg & Htrim').
  rewrite Htrim'.
  assert (f = rev g ++ repeat 48 kf) as Hfeq.
  { rewrite <- (rev_involutive f), Hgeq, rev_app_distr, rev_zeros. reflexivity. }
  exists w', (rev g).
  split; [| split; [exact Hw' | split; [apply Forall_rev; exact Hg |
          split; [exact Hw'ne | split; [| split]]]]].
  - rewrite rev_app_distr. cbn [rev]. rewrite rev_involutive, <- app_assoc.
    reflexivity.
  - intros E. apply Hgne. rewrite <- (rev_involutive g), E. reflexivity.
  - rewrite <- Hf18, Hfeq, length_app. lia.
  - assert (length (rev g) + kf = 18)%nat as Hsum
      by (rewrite <- Hf18, Hfeq, length_app, repeat_length; reflexivity).
    replace (18 - length (rev g))%nat with kf by lia.
    rewrite <- digitsToZ_zeros, <- Hfeq.
    replace (digitsToZ w') with (digitsToZ w)
      by (rewrite Hweq; apply digitsToZ_leading_zeros).
    rewrite <- Hstrval, <- Hsplit, digitsToZ_app, Hf18. reflexivity.
Qed.

Lemma checkValue_ok v : - 2 ^ 511 <= v < 2 ^ 511 -> checkValue v = Ok v.
Proof.
  intros [Hlo Hhi]. unfold checkValue.
  apply Z.leb_le in Hlo. apply Z.ltb_lt in Hhi. rewrite Hlo, Hhi. reflexivity.
Qed.

Lemma checkValue_inv v x : checkValue v = Ok x -> x = v /\ - 2 ^ 511 <= v < 2 ^ 511.
Proof.
  unfold checkValue.
  destruct (Z.leb_spec (- 2 ^ 511) v), (Z.ltb_spec v (2 ^ 511)); cbn [andb];
    try discriminate.
  intros [= <-]. auto.
Qed.

(** What [formatUnits] returns, when it returns, is a minus sign for a
    negative number, digits, a point and at most eighteen digits, and
    [parseUnits] with 18 decimals reads it back as the number. *)
Lemma formatUnits_reads_back value text :
  formatUnits value = Ok text ->
  parseUnits text 18 = Ok value /\
  exists whole frac,
    text = (if value <? 0 then js "-" else []) ++ whole ++ js "." ++ frac /\
    digits whole /\ whole <> [] /\ digits frac /\ frac <> [] /\
    (length frac <= 18)%nat.
Proof.
  unfold formatUnits. destruct (checkValue value) as [val |] eqn:Hcheck;
    [| discriminate].
  destruct (checkValue_inv _ _ Hcheck) as [-> Hrange]. cbn [rbind].
  destruct (formatted_magnitude (Z.abs value) (Z.abs_nonneg value))
    as (whole & frac & Htext & Hw & Hf & Hwne & Hfne & Hlen & Hval).
  cbv zeta in Htext. rewrite Htext. intros H. injection H as <-.
  split; [| exists whole, frac; repeat split; auto].
  assert (0 < length whole + length frac)%nat as Hpos
    by (destruct whole; [contradiction | cbn; lia]).
  destruct (Z.ltb_spec value 0) as [Hneg | Hnonneg].
  - change (parseUnits (45 :: whole ++ [46] ++ frac) 18 = Ok value).
    rewrite (parseUnits_fixed_point_negative whole frac 18 Hw Hf Hpos Hlen).
    change (Z.of_nat 18) with 18. rewrite Hval.
    replace (- Z.abs value) with value by lia. exact Hcheck.
  - change (parseUnits (whole ++ [46] ++ frac) 18 = Ok value).
    rewrite (parseUnits_fixed_point whole frac 18 Hw Hf Hpos Hlen).
    change (Z.of_nat 18) with 18. rewrite Hval.
    replace (Z.abs value) with value by lia. exact Hcheck.
Qed.

(** [formatUnits] and [parseUnits], which [utils.ts] exports again, undo
    each other at 18 decimals.  For every integer of the 512 bits the
    library works with, [formatUnits] returns a text, a minus sign for a
    negative number, digits, a point and at most eighteen digits, which
    [parseUnits] with 18 decimals reads back as the same integer; for an
    integer beyond them it throws. *)
Theorem formatUnits_then_parseUnits (value : Z) :
  (- 2 ^ 511 <= value < 2 ^ 511 ->
   exists text whole frac,
     formatUnits value = Ok text /\
     parseUnits text 18 = Ok value /\
     text = (if value <? 0 then js "-" else []) ++ whole ++ js "." ++ frac /\
     digits whole /\ whole <> [] /\ digits frac /\ frac <> [] /\
     (length frac <= 18)%nat) /\
  (value < - 2 ^ 511 \/ 2 ^ 511 <= value ->
   formatUnits value = Throw (numericFault "overflow")).
Proof.
  split.
  - intros Hrange.
    destruct (formatUnits value) as [text | e] eqn:Hfmt.
    + destruct (formatUnits_reads_back value text Hfmt)
        as (Hback & whole & frac & H).
      exists text, whole, frac. auto.
    + unfold formatUnits in Hfmt. rewrite (checkValue_ok value Hrange) in Hfmt.
      discriminate.
  - intros Hout. unfold formatUnits, checkValue.
    destruct (Z.leb_spec (- 2 ^ 511) value), (Z.ltb_spec value (2 ^ 511));
      cbn [andb rbind]; solve [reflexivity | lia].
Qed.

Lemma formatUnits_then_parseUnits_witness :
  exists text,
    formatUnits 1500000000000000 = Ok text /\
    parseUnits text 18 = Ok 1500000000000000.
Proof.
  destruct (proj1 (formatUnits_then_parseUnits 1500000000000000))
    as (text & _ & _ & Hfmt & Hback & _).
  - split; [discriminate | reflexivity].
  - exists text. split; [exact Hfmt | exact Hback].
Defined.

End FormatAndParse.

(* ===================================================================== *)
(** * The bridge handler: its answers and its calls *)
(* ===================================================================== *)

Section BridgeRuns.
Variable world : World.
Variable env : Env.

(** The bridge handler never throws.  It answers in one of three ways: it
    refuses the request, for an unusable ABI or for equal chains, after
    reading the artifact and nothing else; or a step failed, and the result
    is an error that carries the text of the error thrown, which is reported
    on the console, once, as the last thing done; or it returns the receipt,
    and nothing was reported on the console. *)
Theorem bridge_handler_always_answers (params : BridgeParams) :
  exists res tr,
    runBridge world env params = (Ok res, tt, tr) /\
    ((isError res = true /\
      (content res = Text placeholderAbiMessage \/
       content res = Text sameChainMessage) /\
      tr = [ReadFile oftPath]) \/
     (isError res = true /\
      exists e pre,
        content res = Text (js "Error: Failed to bridge OFT: " ++ errText e) /\
        tr = pre ++ [ConsoleError (js "Error bridging OFT:") e] /\
        consoleErrors pre = []) \/
     (isError res = false /\
      (exists receipt, content res = BridgeJson receipt) /\
      consoleErrors tr = [])).
Proof.
  assert (wp (bridgeOft world env params)
             (fun r _ tr =>
                exists res, r = Ok res /\
                ((isError res = true /\
                  (content res = Text placeholderAbiMessage \/
                   content res = Text sameChainMessage) /\
                  tr = [ReadFile oftPath]) \/
                 (isError res = true /\
                  exists e pre,
                    content res = Text (js "Error: Failed to bridge OFT: " ++ errText e) /\
                    tr = pre ++ [ConsoleError (js "Error bridging OFT:") e] /\
                    consoleErrors pre = []) \/
                 (isError res = false /\
                  (exists receipt, content res = BridgeJson receipt) /\
                  consoleErrors tr = []))) tt []) as H.
  { unfold bridgeOft, getSigner, newContract, wait, consoleError, amountDecimals.
    wp_steps.
    all: eexists; (split; [reflexivity |]); cbn [isError content errorResult].
    all: try (left; split; [reflexivity |]; split; [auto | reflexivity]).
    all: try (right; right; split; [reflexivity |]; split; [eauto | reflexivity]).
    all: right; left; split; [reflexivity |]; eexists _, _.
    all: unfold cat; cbn [concat]; rewrite app_nil_r.
    all: split; [reflexivity |]; split; reflexivity. }
  apply wp_outcome in H. destruct H as (r & [] & tr & Hrun & res & -> & H).
  exists res, tr. split; [exact Hrun | exact H].
Qed.

(** Whatever happens in a run of the bridge handler, its calls stay on the
    source chain and are those of the request: the one file read is the
    artifact; the wallet is made for the RPC endpoint of the source chain,
    and only when the two chains differ; a fee is quoted, and tokens are
    sent, on the token contract through that signer, for the endpoint id of
    the destination chain, the receiver padded to 32 bytes, the extra
    options of the request (0x when it has none), and empty compose message
    and command; a send pays the fee in native currency only, attaches it as
    the value and names the signer for refunds.  No contract is deployed and
    no peer or option is set.  There is at most one quote and at most one
    send. *)
Theorem bridge_calls_are_those_of_the_request (params : BridgeParams) :
  let tr := snd (runBridge world env params) in
  Forall (bridgeCall env params) tr /\
  (length (quoteCalls tr) <= 1)%nat /\
  (length (sendCalls tr) <= length (quoteCalls tr))%nat.
Proof.
  assert (wp (bridgeOft world env params)
             (fun _ _ tr =>
                Forall (bridgeCall env params) tr /\
                (length (quoteCalls tr) <= 1)%nat /\
                (length (sendCalls tr) <= length (quoteCalls tr))%nat) tt []) as H.
  { unfold bridgeOft, getSigner, newContract, wait, consoleError, amountDecimals.
    wp_steps.
    all: (split; [| cbn; lia]).
    all: forall_trace; cbn [bridgeCall]; try reflexivity; try exact I.
    all: try match goal with
             | H : jseq _ _ = false |- _ => apply jseq_false in H
             end.
    all: unfold onSourceChain, sendParamOf;
         cbn [runner target signerRpc signerAddress dstEid to Runtime.extraOptions
              composeMsg oftCmd lzTokenFee Runtime.nativeFee].
    all: repeat split; eauto 8. }
  unfold wp in H. unfold runBridge.
  destruct (bridgeOft world env params tt []) as [[r st] tr]. exact H.
Qed.

End BridgeRuns.

Section BridgeReceipt.
Variable world : World.
Variable env : Env.

(** A bridge request that is answered with a receipt did exactly this, in
    this order: the artifact was read; a wallet was made on the source
    chain; the fee was quoted on the token contract, for the endpoint id of
    the destination chain, the padded receiver and the amount parsed with
    18 decimals; the tokens were sent with the parameters quoted, the quoted
    native fee as the fee and as the value attached, and the signer as the
    refund address; and the transaction was waited for.  The receipt names
    that transaction, repeats the request, gives the signer as the sender,
    and its fee is the quoted native fee written with 18 decimals, which
    reads back as the fee paid. *)
Theorem bridge_receipt (params : BridgeParams) res tr :
  runBridge world env params = (Ok res, tt, tr) ->
  isError res = false ->
  exists artifact fromNetwork toNetwork account amountBigInt formatted
         fee lzFee tx feeText,
    let signer := {| signerRpc := rpc fromNetwork; signerAddress := account |} in
    let contract :=
      {| target := tokenAddress params; interface := abi artifact;
         runner := signer |} in
    let sendParam :=
      {| dstEid := lzEid toNetwork; to := formatted;
         amountLD := amountBigInt; minAmountLD := amountBigInt;
         Runtime.extraOptions :=
           match extraOptions params with
           | [] => js "0x"
           | given => given
           end;
         composeMsg := js "0x"; oftCmd := js "0x" |} in
    fromChain params <> toChain params /\
    readJson world [] oftPath = Ok artifact /\
    getNetworkConfig env (fromChain params) = Ok fromNetwork /\
    getNetworkConfig env (toChain params) = Ok toNetwork /\
    parseUnits (amount params) 18 = Ok amountBigInt /\
    formatAddressForLayerZero (receiverAddress params) = Ok formatted /\
    quoteSend world [ReadFile oftPath; NewWallet (rpc fromNetwork)]
              contract sendParam false = Ok (fee, lzFee) /\
    tr = [ReadFile oftPath; NewWallet (rpc fromNetwork);
          QuoteSend contract sendParam false;
          Send contract sendParam {| nativeFee := fee; lzTokenFee := 0 |}
               account fee;
          TxWait tx] /\
    res = {| content :=
               BridgeJson
                 {| transactionHash := hash tx;
                    receipt_fromChain := fromChain params;
                    receipt_toChain := toChain params;
                    amountSent := amount params;
                    sender := account;
                    receiver := receiverAddress params;
                    estimatedNativeFee := feeText |};
             isError := false |} /\
    formatUnits fee = Ok feeText /\
    parseUnits feeText 18 = Ok fee.
Proof.
  intros Hrun. pattern res, tr.
  match goal with
  | |- ?P res tr =>
      enough (wp (bridgeOft world env params)
                 (fun r _ tr' => forall res', r = Ok res' -> P res' tr') tt [])
        as H by exact (wp_run _ _ _ _ _ _ _ Hrun H res eq_refl)
  end.
  cbv beta zeta.
  unfold bridgeOft, getSigner, newContract, wait, consoleError, amountDecimals.
  wp_steps.
  all: intros res0 Hr0 He0; try discriminate.
  all: try (injection Hr0 as <-; discriminate He0).
  injection Hr0 as <-.
  match goal with
  | Hfee : formatUnits _ = Ok _ |- _ =>
      pose proof (proj1 (formatUnits_reads_back _ _ Hfee)) as Hback
  end.
  match goal with
  | Hj : jseq _ _ = false |- _ => apply jseq_false in Hj
  end.
  match goal with
  | Hq : quoteSend _ _ _ _ _ = Ok ?p |- _ => destruct p as [fee lzFee]
  end.
  cbn [fst] in *.
  eexists _, _, _, _, _, _, fee, lzFee, _, _.
  repeat (split; [first [eassumption | reflexivity] |]).
  exact Hback.
Qed.

End BridgeReceipt.

Lemma bridge_receipt_witness :
  exists res tr feeText,
    runBridge calm env0 (bridge50 (js "ArbitrumSepolia") (js "baseSepolia"))
    = (Ok res, tt, tr) /\
    length tr = 5%nat /\
    formatUnits 1500000000000000 = Ok feeText /\
    parseUnits feeText 18 = Ok 1500000000000000.
Proof.
  pose (run := runBridge calm env0 (bridge50 (js "ArbitrumSepolia") (js "baseSepolia"))).
  assert (exists res, run = (Ok res, tt, snd run) /\ isError res = false)
    as (res & Hrun & Hres) by (eexists; split; vm_compute; reflexivity).
  destruct (bridge_receipt calm env0
              (bridge50 (js "ArbitrumSepolia") (js "baseSepolia")) res (snd run)
              Hrun Hres)
    as (artifact & fromNetwork & toNetwork & account & amountBigInt & formatted
        & fee & lzFee & tx & feeText & _ & _ & _ & _ & _ & _ & Hquote & Htr & _
        & Hfee & Hback).
  assert (fee = 1500000000000000) as ->
    by (cbn [quoteSend calm] in Hquote; congruence).
  exists res, (snd run), feeText.
  split; [exact Hrun |]. split; [rewrite Htr; reflexivity |].
  split; [exact Hfee | exact Hback].
Defined.

(* ===================================================================== *)
(** * A rule for the deployment handler *)
(* ===================================================================== *)

Ltac same_records := split; reflexivity.

Section HandlerRule.
Variable world : World.
Variable env : Env.
Variable params : DeployParams.

(** What is to hold when the handler returns a result, and when it throws. *)
Variable R : ToolResult -> Locals -> Trace -> Prop.
Variable T : JsError -> Locals -> Trace -> Prop.

Section AfterChecks.
Variable OFT_ABI : Abi.
Variable OFT_BYTECODE envOwnerAddress : jsstring.

(** What holds in the loop of phase B when the chains [pre] are done, and
    from the end of phase B on. *)
Variable IB : list jsstring -> Locals -> Trace -> Prop.
Variable I : Locals -> Trace -> Prop.

Hypothesis IB_log : forall pre st st' tr,
  sameRecords st st' -> IB pre st tr -> IB pre st' tr.
Hypothesis I_log : forall st st' tr, sameRecords st st' -> I st tr -> I st' tr.

Hypothesis deploy_rule : forall pre chain post st tr,
  targetChains params = pre ++ chain :: post ->
  IB pre st tr ->
  wp (deployOnChain world env params OFT_ABI OFT_BYTECODE
                    (deployOwnerOf params envOwnerAddress) chain)
     (outcome (IB (pre ++ [chain])) R T) st tr.
Hypothesis deployed_rule : forall st tr, IB (targetChains params) st tr -> I st tr.
Hypothesis peer_rule : forall A B st tr,
  I st tr -> wp (peerWith world A B) (outcome I R T) st tr.
Hypothesis enforce_rule : forall deployed A st tr,
  I st tr -> wp (enforceOn world deployed A) (outcome I R T) st tr.
Hypothesis report_rule : forall st tr, I st tr -> wp reportPhase (answer R T) st tr.

Lemma forOf_rule {A} (body : A -> M Locals (option ToolResult)) xs st tr :
  (forall x st tr, I st tr -> wp (body x) (outcome I R T) st tr) ->
  I st tr ->
  wp (forOf xs body) (outcome I R T) st tr.
Proof.
  intros Hbody H.
  apply (wp_forOf body (fun _ => I)) with (done := []).
  - exact H.
  - intros x pre post st0 tr0 _ H0.
    eapply wp_mono; [| apply Hbody; exact H0].
    intros [[v |] | e] st' tr' H'; exact H'.
  - auto.
Qed.

Lemma deploymentPhase_rule st tr :
  IB [] st tr ->
  wp (deploymentPhase world env params OFT_ABI OFT_BYTECODE envOwnerAddress)
     (outcome I R T) st tr.
Proof.
  intros H0. unfold deploymentPhase, pushResult.
  destruct st as [log summary data peering enforced].
  wp_step. wp_step; forget_log. wp_step. wp_step. wp_step; forget_log.
  wp_focus.
  apply (wp_forOf _ IB) with (done := []).
  - eapply IB_log; [| exact H0]. same_records.
  - intros chain pre post st0 tr0 Heq H.
    eapply wp_mono; [| apply (deploy_rule pre chain post); [exact Heq | exact H]].
    intros [[res |] | e] st' tr' H'; cbn [outcome] in *; [| exact H' | exact H'].
    wp_steps. exact H'.
  - cbn [app]. intros st' tr' H.
    destruct st' as [log' summary' data' peering' enforced'].
    wp_steps. cbn [outcome]. apply deployed_rule in H.
    eapply I_log; [| exact H]. same_records.
Qed.

Lemma peeringPhase_rule st tr :
  I st tr -> wp (peeringPhase world) (outcome I R T) st tr.
Proof.
  intros H0. unfold peeringPhase, pushResult, pushPeering.
  destruct st as [log summary data peering enforced].
  wp_step. wp_step; forget_log. wp_step. wp_step; forget_log. wp_step.
  destruct (length data <? 2)%nat.
  - wp_steps. cbn [outcome]. eapply I_log; [| exact H0]. same_records.
  - wp_step. wp_step; forget_log.
    eapply wp_mono; [| apply forOf_rule].
    + intros [[res |] | e] st' tr' H'; cbn [outcome] in *; [| | exact H'].
      * wp_steps. exact H'.
      * destruct st' as [log' summary' data' peering' enforced'].
        wp_steps. cbn [outcome]. eapply I_log; [| exact H']. same_records.
    + intros A st1 tr1 H1. apply forOf_rule; [| exact H1].
      intros B st2 tr2 H2. apply peer_rule. exact H2.
    + eapply I_log; [| exact H0]. same_records.
Qed.

Lemma enforcedOptionsPhase_rule st tr :
  I st tr -> wp (enforcedOptionsPhase world) (outcome I R T) st tr.
Proof.
  intros H0. unfold enforcedOptionsPhase, pushResult, pushEnforced.
  destruct st as [log summary data peering enforced].
  wp_step. wp_step; forget_log. wp_step. wp_step; forget_log.
  wp_step. wp_step; forget_log. wp_step.
  destruct (length data =? 0)%nat.
  - wp_steps. cbn [outcome]. eapply I_log; [| exact H0]. same_records.
  - eapply wp_mono; [| apply forOf_rule].
    + intros [[res |] | e] st' tr' H'; cbn [outcome] in *; [| | exact H'].
      * wp_steps. exact H'.
      * destruct st' as [log' summary' data' peering' enforced'].
        wp_steps. cbn [outcome]. eapply I_log; [| exact H']. same_records.
    + intros A st1 tr1 H1. apply enforce_rule. exact H1.
    + eapply I_log; [| exact H0]. same_records.
Qed.

(** The handler after its checks: what holds of its result follows from
    what holds of the bodies of its loops and of its report. *)
Lemma afterChecks_rule st tr :
  IB [] st tr ->
  wp (afterChecks world env params OFT_ABI OFT_BYTECODE envOwnerAddress)
     (answer R T) st tr.
Proof.
  intros H0. unfold afterChecks.
  wp_apply deploymentPhase_rule; [| exact H0].
  intros [[res |] | e] st1 tr1 H1; cbn [outcome] in *; [| | exact H1].
  { wp_steps. exact H1. }
  wp_apply peeringPhase_rule; [| exact H1].
  intros [[res |] | e] st2 tr2 H2; cbn [outcome] in *; [| | exact H2].
  { wp_steps. exact H2. }
  wp_apply enforcedOptionsPhase_rule; [| exact H2].
  intros [[res |] | e] st3 tr3 H3; cbn [outcome] in *; [| | exact H3].
  { wp_steps. exact H3. }
  apply report_rule. exact H3.
Qed.

End AfterChecks.

(** The handler: what holds of its result follows from what holds of the
    results of its checks, and of the handler after them. *)
Lemma handler_rule :
  (ownerMissing env ->
   forall st, sameRecords noLocals st -> R (errorResult ownerMissingMessage) st []) ->
  (forall owner e st,
      sameRecords noLocals st ->
      OWNER_ADDRESS env = Some owner -> owner <> [] ->
      readJson world [] oftPath = Throw e -> T e st [ReadFile oftPath]) ->
  (forall owner artifact e st,
      sameRecords noLocals st ->
      OWNER_ADDRESS env = Some owner -> owner <> [] ->
      readJson world [] oftPath = Ok artifact ->
      objectOf (bytecode artifact) = Throw e ->
      T e st [ReadFile oftPath]) ->
  (forall owner artifact object e st,
      sameRecords noLocals st ->
      OWNER_ADDRESS env = Some owner -> owner <> [] ->
      readJson world [] oftPath = Ok artifact ->
      bytecode artifact = BytecodeValue object ->
      artifactUnusable (abi artifact) object = Throw e ->
      T e st [ReadFile oftPath]) ->
  (forall owner artifact object st,
      sameRecords noLocals st ->
      OWNER_ADDRESS env = Some owner -> owner <> [] ->
      readJson world [] oftPath = Ok artifact ->
      bytecode artifact = BytecodeValue object ->
      artifactUnusable (abi artifact) object = Ok true ->
      R (errorResult placeholderMessage) st [ReadFile oftPath]) ->
  (forall owner artifact object e st,
      sameRecords noLocals st ->
      OWNER_ADDRESS env = Some owner -> owner <> [] ->
      readJson world [] oftPath = Ok artifact ->
      bytecode artifact = BytecodeValue object ->
      artifactUnusable (abi artifact) object = Ok false ->
      withPrefix object = Throw e ->
      T e st [ReadFile oftPath]) ->
  (forall owner artifact object code st,
      sameRecords noLocals st ->
      OWNER_ADDRESS env = Some owner -> owner <> [] ->
      readJson world [] oftPath = Ok artifact ->
      bytecode artifact = BytecodeValue object ->
      artifactUnusable (abi artifact) object = Ok false ->
      withPrefix object = Ok code ->
      targetChains params = [] ->
      R (errorResult noChainsMessage) st [ReadFile oftPath]) ->
  (forall owner artifact object code st,
      sameRecords noLocals st ->
      OWNER_ADDRESS env = Some owner -> owner <> [] ->
      readJson world [] oftPath = Ok artifact ->
      bytecode artifact = BytecodeValue object ->
      artifactUnusable (abi artifact) object = Ok false ->
      withPrefix object = Ok code ->
      targetChains params <> [] ->
      wp (afterChecks world env params (abi artifact) code owner)
         (answer R T) st [ReadFile oftPath]) ->
  wp (deployAndConfigureOftMultichain world env params) (answer R T) noLocals [].
Proof.
  intros Howner Hread Hbytecode Htest Hunusable Hprefix Hempty Hafter.
  unfold deployAndConfigureOftMultichain, pushResult, noLocals.
  wp_step. wp_step; forget_log.
  destruct (OWNER_ADDRESS env) as [[| c o] |] eqn:Eowner.
  - wp_steps. apply Howner; [right; exact Eowner | same_records].
  - assert (c :: o <> []) as Hset by discriminate.
    wp_step. wp_step; forget_log. wp_step. wp_step.
    { (* the artifact is read *)
      wp_step. wp_step.
      - match goal with
        | H : objectOf (bytecode a) = Ok ?object |- _ =>
            assert (bytecode a = BytecodeValue object) as Eobject
              by (destruct (bytecode a); cbn [objectOf] in H; congruence)
        end.
        wp_step. wp_step.
        + wp_step.
          * wp_steps. eapply Hunusable; eauto. same_records.
          * wp_step. wp_step; forget_log. wp_step. wp_step.
            -- destruct (targetChains params) eqn:Echains.
               ++ wp_steps. eapply Hempty; eauto. same_records.
               ++ wp_step. wp_step; forget_log. wp_step. wp_step; forget_log.
                  eapply (Hafter (c :: o) a); eauto; try discriminate.
                  same_records.
            -- eapply Hprefix; eauto. same_records.
        + eapply Htest; eauto. same_records.
      - eapply Hbytecode; eauto. same_records. }
    { cbn [answer]. eapply Hread; eauto. same_records. }
  - wp_steps. apply Howner; [left; exact Eowner | same_records].
Qed.

End HandlerRule.

(* ===================================================================== *)
(** * What holds of the trace of every run *)
(* ===================================================================== *)

Section TraceRule.
Variable world : World.
Variable env : Env.
Variable params : DeployParams.
Variable Inv : Trace -> Prop.

Hypothesis attempt_keeps : forall OFT_ABI OFT_BYTECODE deployOwner chain st tr,
  In chain (targetChains params) -> Inv tr ->
  wp (deployAttempt world env params OFT_ABI OFT_BYTECODE deployOwner chain)
     (fun _ _ tr' => Inv tr') st tr.
Hypothesis failed_keeps : forall OFT_ABI OFT_BYTECODE deployOwner chain e st tr,
  Inv tr ->
  wp (deployFailed world env params OFT_ABI OFT_BYTECODE deployOwner chain e)
     (fun _ _ tr' => Inv tr') st tr.
Hypothesis peer_keeps : forall A B st tr,
  Inv tr -> wp (peerWith world A B) (fun _ _ tr' => Inv tr') st tr.
Hypothesis enforce_keeps : forall deployed A st tr,
  Inv tr -> wp (enforceOn world deployed A) (fun _ _ tr' => Inv tr') st tr.

Lemma afterChecks_keeps OFT_ABI OFT_BYTECODE envOwnerAddress st tr :
  Inv tr ->
  wp (afterChecks world env params OFT_ABI OFT_BYTECODE envOwnerAddress)
     (fun _ _ tr' => Inv tr') st tr.
Proof.
  intros H0.
  eapply wp_mono;
    [| apply (afterChecks_rule world env params
                (fun _ _ tr' => Inv tr') (fun _ _ tr' => Inv tr')
                OFT_ABI OFT_BYTECODE envOwnerAddress
                (fun _ _ tr' => Inv tr') (fun _ tr' => Inv tr'))].
  - intros [res | e] st' tr' H; exact H.
  - auto.
  - auto.
  - intros pre chain post st0 tr0 Heq H. unfold deployOnChain, pushResult.
    wp_step. wp_step. forget_state.
    wp_apply attempt_keeps;
      [| rewrite Heq; apply in_elt | exact H].
    intros [[res |] | e] st' tr' H'; cbn [outcome]; try exact H'.
    eapply wp_mono; [| apply failed_keeps; exact H'].
    intros [[res |] | e'] st'' tr'' H''; exact H''.
  - auto.
  - intros A B st0 tr0 H. eapply wp_mono; [| apply peer_keeps; exact H].
    intros [[res |] | e] st' tr' H'; exact H'.
  - intros deployed A st0 tr0 H. eapply wp_mono; [| apply enforce_keeps; exact H].
    intros [[res |] | e] st' tr' H'; exact H'.
  - intros st0 tr0 H. eapply wp_mono; [| apply reportPhase_spec].
    intros r st' tr' (-> & _). destruct r; exact H.
  - exact H0.
Qed.

Lemma handler_keeps :
  Inv [] -> Inv [ReadFile oftPath] ->
  Inv (snd (runDeploy world env params)).
Proof.
  intros Hnil Hread.
  assert (wp (deployAndConfigureOftMultichain world env params)
             (answer (fun _ _ tr => Inv tr) (fun _ _ tr => Inv tr)) noLocals [])
    as H.
  { apply handler_rule; auto. intros.
    eapply wp_mono; [| apply afterChecks_keeps; exact Hread].
    intros [res | e] st' tr' H'; exact H'. }
  unfold wp in H. unfold runDeploy.
  destruct (deployAndConfigureOftMultichain world env params noLocals [])
    as [[[res | e] st] tr]; exact H.
Qed.

End TraceRule.

Section DeployCallsAll.
Variable world : World.
Variable env : Env.
Variable params : DeployParams.

Lemma optionsFor_standard A deployed :
  Forall (fun o => msgType o = 1 /\ options o = standardOptionsHex)
         (optionsFor A deployed).
Proof.
  unfold optionsFor. apply Forall_map, Forall_forall. intros B _. split; reflexivity.
Qed.

Lemma formatted_32_bytes address padded :
  formatAddressForLayerZero address = Ok padded ->
  exists bs, getBytes padded = Ok bs /\ length bs = 32%nat.
Proof.
  intros H. destruct (formatAddress_inv _ _ H) as (bs & Hb & Hlen & ->).
  destruct (padded_bytes bs (getBytes_bytes _ _ Hb) Hlen) as [Hbytes H32].
  eexists. split; [apply getBytes_hexlify; exact Hbytes | exact H32].
Qed.

(** Whatever happens in a run of the deployment handler, its calls are those
    of the request.  The files read are the two artifacts.  A wallet is made
    only for the RPC endpoint of a target chain, and a deployment goes only
    to the factory whose address the environment gives for a target chain,
    through a signer on that chain.  A peer is always given as a hex string
    of 32 bytes.  Options are never enforced with an empty list, and every
    entry has message type 1 and the standard options.  No fee is quoted and
    nothing is bridged. *)
Theorem deploy_calls_are_those_of_the_request :
  Forall (deployCall env params) (snd (runDeploy world env params)).
Proof.
  apply handler_keeps.
  - intros OFT_ABI OFT_BYTECODE deployOwner chain st tr Hin Htr.
    unfold deployAttempt, getSigner, newContract, wait, pushResult, pushData,
      pushSummary.
    wp_steps_trace.
    all: forall_trace; cbn [deployCall]; try exact I; auto.
    all: unfold factoryOf; cbn [runner target signerRpc]; eauto 10.
    all: eexists _, _; repeat split; eauto; discriminate.
  - intros OFT_ABI OFT_BYTECODE deployOwner chain e st tr Htr.
    unfold deployFailed, consoleError, pushResult, pushSummary.
    wp_steps_trace.
    all: forall_trace; exact I.
  - intros A B st tr Htr.
    unfold peerWith, wait, consoleError, pushResult, pushPeering.
    wp_steps_trace.
    all: forall_trace; cbn [deployCall]; try exact I.
    all: eapply formatted_32_bytes; eassumption.
  - intros deployed A st tr Htr.
    unfold enforceOn, wait, consoleError, pushResult, pushEnforced.
    wp_steps_trace.
    all: forall_trace; cbn [deployCall]; try exact I.
    all: split; [| apply optionsFor_standard].
    all: intros Hnil; rewrite Hnil in *; discriminate.
  - constructor.
  - repeat constructor.
Qed.

End DeployCallsAll.

(* ===================================================================== *)
(** * Transactions are waited for *)
(* ===================================================================== *)

Section Waiting.
Variable world : World.

Lemma awaited_sent' tr ev tx :
  Awaited world tr -> sentBy world tr ev = Some tx ->
  Awaited world ((tr ++ [ev]) ++ [TxWait tx]).
Proof.
  intros H Hs. rewrite <- app_assoc. apply awaited_sent; assumption.
Qed.

(** Where an event stands in a trace that ends with [last]. *)
Lemma split_snoc {X} (tr pre post : list X) (last ev : X) :
  tr ++ [last] = pre ++ ev :: post ->
  (post = [] /\ pre = tr /\ ev = last) \/
  (exists post', post = post' ++ [last] /\ tr = pre ++ ev :: post').
Proof.
  destruct post as [| x post] using rev_ind.
  - intros H. apply app_inj_tail in H. left. intuition congruence.
  - clear IHpost. intros H.
    change (pre ++ ev :: post ++ [x]) with (pre ++ (ev :: post) ++ [x]) in H.
    rewrite app_assoc in H. apply app_inj_tail in H. destruct H as [-> ->].
    right. eauto.
Qed.

(** In a trace where every transaction is waited for at once, the call
    that follows a call that returned a transaction is the wait for it. *)
Lemma Awaited_next tr :
  Awaited world tr ->
  forall pre ev post tx,
    tr = pre ++ ev :: post -> sentBy world pre ev = Some tx ->
    exists post', post = TxWait tx :: post'.
Proof.
  induction 1 as [| tr last Htr IH Hlast | tr call tx0 Htr IH Hcall];
    intros pre ev post tx Heq Hsent.
  - destruct pre; discriminate.
  - destruct (split_snoc _ _ _ _ _ Heq) as [(-> & -> & ->) | (post' & -> & ->)].
    + rewrite Hlast in Hsent. discriminate.
    + destruct (IH _ _ _ _ eq_refl Hsent) as (rest & ->).
      exists (rest ++ [last]). reflexivity.
  - change (tr ++ [call; TxWait tx0]) with (tr ++ [call] ++ [TxWait tx0]) in Heq.
    rewrite app_assoc in Heq.
    destruct (split_snoc _ _ _ _ _ Heq) as [(-> & -> & ->) | (post' & -> & Heq')].
    + discriminate.
    + destruct (split_snoc _ _ _ _ _ Heq') as [(-> & -> & ->) | (post'' & -> & ->)].
      * rewrite Hcall in Hsent. injection Hsent as ->. exists []. reflexivity.
      * destruct (IH _ _ _ _ eq_refl Hsent) as (rest & ->).
        exists (rest ++ [call; TxWait tx0]). rewrite <- !app_assoc. reflexivity.
Qed.

End Waiting.

(** The trace of a block that is written out has every transaction waited
    for when the trace before the block has. *)
Ltac sent_by :=
  cbn [sentBy];
  first [ reflexivity
        | match goal with
          | H : _ = Ok _ |- _ => rewrite H; reflexivity
          | H : _ = Throw _ |- _ => rewrite H; reflexivity
          end ].

Ltac awaited :=
  repeat first
    [ assumption
    | apply awaited_nil
    | apply awaited_sent'; [| sent_by]
    | apply awaited_call; [| sent_by] ].

Section WaitingRuns.
Variable world : World.
Variable env : Env.

Lemma deploy_awaited params : Awaited world (snd (runDeploy world env params)).
Proof.
  apply handler_keeps.
  - intros OFT_ABI OFT_BYTECODE deployOwner chain st tr Hin Htr.
    unfold deployAttempt, getSigner, newContract, wait, pushResult, pushData,
      pushSummary.
    wp_steps_trace.
    all: awaited.
  - intros OFT_ABI OFT_BYTECODE deployOwner chain e st tr Htr.
    unfold deployFailed, consoleError, pushResult, pushSummary.
    wp_steps_trace.
    all: awaited.
  - intros A B st tr Htr.
    unfold peerWith, wait, consoleError, pushResult, pushPeering.
    wp_steps_trace.
    all: awaited.
  - intros deployed A st tr Htr.
    unfold enforceOn, wait, consoleError, pushResult, pushEnforced.
    wp_steps_trace.
    all: awaited.
  - constructor.
  - change [ReadFile oftPath] with ([] ++ [ReadFile oftPath]). awaited.
Qed.

Lemma bridge_awaited params : Awaited world (snd (runBridge world env params)).
Proof.
  assert (wp (bridgeOft world env params)
             (fun _ _ tr => Awaited world tr) tt []) as H.
  { unfold bridgeOft, getSigner, newContract, wait, consoleError, amountDecimals.
    wp_steps.
    all: awaited. }
  unfold wp in H. unfold runBridge.
  destruct (bridgeOft world env params tt []) as [[r st] tr]. exact H.
Qed.

(** Every transaction the server sends is waited for before anything else
    is done: in a run of either handler, when a deployment, a [setPeer], a
    [setEnforcedOptions] or a [send] call returns a transaction, the very
    next call is the wait for that transaction. *)
Theorem every_transaction_is_awaited :
  (forall params pre ev post tx,
      snd (runDeploy world env params) = pre ++ ev :: post ->
      sentBy world pre ev = Some tx ->
      exists post', post = TxWait tx :: post') /\
  (forall params pre ev post tx,
      snd (runBridge world env params) = pre ++ ev :: post ->
      sentBy world pre ev = Some tx ->
      exists post', post = TxWait tx :: post').
Proof.
  split; intros params pre ev post tx Heq Hsent.
  - exact (Awaited_next world _ (deploy_awaited params) pre ev post tx Heq Hsent).
  - exact (Awaited_next world _ (bridge_awaited params) pre ev post tx Heq Hsent).
Qed.

End WaitingRuns.

Lemma every_transaction_is_awaited_witness :
  exists pre factory code salt post',
    snd (runDeploy calm env0 (gamma bothChains))
    = pre ++ FactoryDeploy factory code salt :: TxWait {| hash := js "0xd1" |} :: post' /\
    length pre = 3%nat.
Proof.
  pose (tr := snd (runDeploy calm env0 (gamma bothChains))).
  assert (exists pre factory code salt post,
             tr = pre ++ FactoryDeploy factory code salt :: post /\
             length pre = 3%nat)
    as (pre & factory & code & salt & post & Heq & Hlen).
  { exists (firstn 3 tr).
    assert (exists factory code salt, nth_error tr 3 = Some (FactoryDeploy factory code salt))
      as (factory & code & salt & Hnth)
      by (vm_compute; eexists _, _, _; reflexivity).
    exists factory, code, salt, (skipn 4 tr). split.
    - rewrite <- (firstn_skipn 3 tr) at 1. f_equal.
      revert Hnth. generalize tr. intros l Hnth.
      destruct l as [| a [| b [| c [| d l]]]]; try discriminate.
      cbn in Hnth. injection Hnth as ->. reflexivity.
    - vm_compute. reflexivity. }
  destruct (proj1 (every_transaction_is_awaited calm env0) (gamma bothChains)
              pre (FactoryDeploy factory code salt) post {| hash := js "0xd1" |}
              Heq eq_refl) as (post' & ->).
  exists pre, factory, code, salt, post'. split; [exact Heq | exact Hlen].
Defined.

(* ===================================================================== *)
(** * The checks of phase A *)
(* ===================================================================== *)

Section PhaseA.
Variable world : World.
Variable env : Env.
Variable params : DeployParams.

Lemma length_zero_false {X} (l : list X) : (length l =? 0)%nat = false -> l <> [].
Proof. destruct l; [discriminate | discriminate]. Qed.

(** An artifact that passes the test and whose bytecode can be given its
    prefix is one the handler accepts. *)
Lemma artifactUnusable_false OFT_ABI object code :
  artifactUnusable OFT_ABI object = Ok false ->
  withPrefix object = Ok code ->
  usable OFT_ABI object.
Proof.
  unfold artifactUnusable, usable. intros Htest Hcode.
  destruct (abiIsPlaceholder OFT_ABI) eqn:Ha; [discriminate |].
  destruct (bytecodeIsPlaceholder object) eqn:Hb; [discriminate |].
  destruct OFT_ABI as [| | s | fragments | abiIsEmpty]; try discriminate;
    cbn [abiLengthIsZero rbind abiIsPlaceholder] in Htest, Ha.
  all: destruct object as [| | b | | isEmpty]; try discriminate;
    cbn [objectLengthIsZero bytecodeIsPlaceholder] in Htest, Hb.
  all: repeat match goal with
         | H : (if ?c then _ else _) = Ok false |- _ =>
             destruct c eqn:?; [discriminate |]
         | H : Ok ?c = Ok false |- _ => injection H as ?; subst
         end.
  all: try discriminate.
  all: repeat split;
    first [ exact I | reflexivity
          | apply length_zero_false; assumption
          | apply jseq_false; assumption ].
Qed.

Lemma readsArtifactFirst_snoc tr ev :
  readsArtifactFirst tr -> readsArtifactFirst (tr ++ [ev]).
Proof. intros (more & ->). exists (more ++ [ev]). reflexivity. Qed.

Ltac reads_first := repeat apply readsArtifactFirst_snoc; assumption.

Lemma afterChecks_readsArtifactFirst OFT_ABI OFT_BYTECODE envOwnerAddress st tr :
  readsArtifactFirst tr ->
  wp (afterChecks world env params OFT_ABI OFT_BYTECODE envOwnerAddress)
     (fun _ _ tr' => readsArtifactFirst tr') st tr.
Proof.
  apply afterChecks_keeps.
  - intros abi0 code owner chain st0 tr0 _ Htr.
    unfold deployAttempt, getSigner, newContract, wait, pushResult, pushData,
      pushSummary.
    wp_steps_trace.
    all: reads_first.
  - intros abi0 code owner chain e st0 tr0 Htr.
    unfold deployFailed, consoleError, pushResult, pushSummary.
    wp_steps_trace.
    all: reads_first.
  - intros A B st0 tr0 Htr.
    unfold peerWith, wait, consoleError, pushResult, pushPeering.
    wp_steps_trace.
    all: reads_first.
  - intros deployed A st0 tr0 Htr.
    unfold enforceOn, wait, consoleError, pushResult, pushEnforced.
    wp_steps_trace.
    all: reads_first.
Qed.

Lemma no_call_yet (P : Prop) :
  Exists (fun ev => isNetworkCall ev = true) [ReadFile oftPath] -> P.
Proof.
  intros H. inversion H as [? ? Hev | ? ? Hrest]; subst;
    [discriminate Hev | inversion Hrest].
Qed.

Lemma owner_is_set owner (P : Prop) :
  OWNER_ADDRESS env = Some owner -> owner <> [] -> ownerMissing env -> P.
Proof.
  intros Hset Hne [Hm | Hm]; rewrite Hm in Hset; [discriminate |].
  injection Hset as <-. contradiction.
Qed.

(** A case of phase A other than the one at hand contradicts it. *)
Ltac other_case :=
  intros;
  repeat match goal with
         | H : readJson ?w [] oftPath = _, H' : readJson ?w [] oftPath = _ |- _ =>
             rewrite H in H'; first [discriminate H' | injection H' as ?; subst]
         end;
  repeat match goal with
         | H : bytecode ?a = _, H' : bytecode ?a = _ |- _ =>
             rewrite H in H'; first [discriminate H' | injection H' as ?; subst]
         | H : bytecode ?a = _, H' : objectOf (bytecode ?a) = _ |- _ =>
             rewrite H in H'; cbn [objectOf] in H';
             first [discriminate H' | injection H' as ?; subst]
         end;
  first [congruence | split; congruence].

(** What phase A makes of every run. *)
Lemma handler_phaseA :
  wp (deployAndConfigureOftMultichain world env params)
     (fun r _ tr => phaseA world env params r tr) noLocals [].
Proof.
  eapply wp_mono;
    [| apply (handler_rule world env params
                (fun res _ tr => phaseA world env params (Ok res) tr)
                (fun e _ tr => phaseA world env params (Throw e) tr))].
  - intros [res | e] st tr H; exact H.
  - intros Hmissing st _. split; [| split].
    + intros Hcall. inversion Hcall.
    + auto.
    + intros Hset. contradiction.
  - intros owner e st _ Howner Hne Hread.
    split; [apply no_call_yet | split; [apply (owner_is_set owner); assumption |]].
    intros _. split; [exists []; reflexivity |].
    repeat split; other_case.
  - intros owner artifact e st _ Howner Hne Hread Hcode.
    split; [apply no_call_yet | split; [apply (owner_is_set owner); assumption |]].
    intros _. split; [exists []; reflexivity |].
    repeat split; other_case.
  - intros owner artifact object e st _ Howner Hne Hread Hcode Htest.
    split; [apply no_call_yet | split; [apply (owner_is_set owner); assumption |]].
    intros _. split; [exists []; reflexivity |].
    repeat split; other_case.
  - intros owner artifact object st _ Howner Hne Hread Hcode Htest.
    split; [apply no_call_yet | split; [apply (owner_is_set owner); assumption |]].
    intros _. split; [exists []; reflexivity |].
    repeat split; other_case.
  - intros owner artifact object e st _ Howner Hne Hread Hcode Htest Hprefix.
    split; [apply no_call_yet | split; [apply (owner_is_set owner); assumption |]].
    intros _. split; [exists []; reflexivity |].
    repeat split; other_case.
  - intros owner artifact object code st _ Howner Hne Hread Hcode Htest Hprefix Hempty.
    split; [apply no_call_yet | split; [apply (owner_is_set owner); assumption |]].
    intros _. split; [exists []; reflexivity |].
    repeat split; other_case.
  - intros owner artifact object code st _ Howner Hne Hread Hcode Htest Hprefix Hchains.
    eapply wp_mono;
      [| apply afterChecks_readsArtifactFirst; exists []; reflexivity].
    intros r st' tr' Hfirst.
    assert (phaseA world env params r tr') as H; [| destruct r; exact H].
    split; [| split; [apply (owner_is_set owner); assumption |]].
    + intros _. pose proof (artifactUnusable_false _ _ _ Htest Hprefix) as Husable.
      exists owner, artifact, object. auto 10.
    + intros _. split; [exact Hfirst |].
      repeat split; other_case.
Qed.


End PhaseA.

(* ===================================================================== *)
(** * Loading the modules *)
(* ===================================================================== *)

Section Loading.

Lemma unset_false value : unset value = false -> exists c v, value = Some (c :: v).
Proof. destruct value as [[| c v] |]; try discriminate. eauto. Qed.

(** With an owner address in the environment, the deployment handler gets
    past its first check: the first thing it does is to read the artifact. *)
Lemma owner_set_reads_artifact world env params owner :
  OWNER_ADDRESS env = Some owner -> owner <> [] ->
  readsArtifactFirst (snd (runDeploy world env params)).
Proof.
  intros Howner Hne.
  pose proof (handler_phaseA world env params) as H. unfold wp in H.
  unfold runDeploy.
  destruct (deployAndConfigureOftMultichain world env params noLocals [])
    as [[r st] tr].
  destruct H as (_ & _ & H). apply H.
  intros Hmissing. exact (owner_is_set env owner False Howner Hne Hmissing).
Qed.

(** The modules load exactly when the private key, the owner address and
    the two RPC URLs are set and not empty; the handlers then run with these
    values, and with the factory addresses as they are, set or not.
    Otherwise loading throws the error of [utils.ts] for the first of the
    four that is missing.  So the check of the owner address in [index.ts]
    and its check of the networks never fail, and neither does the check of
    the owner address in the deployment handler: in a server that has
    started, a deployment request always gets as far as reading the
    artifact. *)
Theorem modules_load_with_their_variables (vars : ProcessEnv) :
  match firstUnset vars with
  | Some variable => loadIndex vars = Throw (missing variable)
  | None =>
      exists key owner arbitrum base,
        var_PRIVATE_KEY vars = Some key /\ key <> [] /\
        var_OWNER_ADDRESS vars = Some owner /\ owner <> [] /\
        var_ARBITRUM_SEPOLIA_RPC_URL vars = Some arbitrum /\ arbitrum <> [] /\
        var_BASE_SEPOLIA_RPC_URL vars = Some base /\ base <> [] /\
        let env :=
          {| PRIVATE_KEY := key;
             OWNER_ADDRESS := Some owner;
             ARBITRUM_SEPOLIA_RPC_URL := arbitrum;
             BASE_SEPOLIA_RPC_URL := base;
             ARBITRUM_FACTORY_ADDRESS := var_ARBITRUM_FACTORY_ADDRESS vars;
             BASE_FACTORY_ADDRESS := var_BASE_FACTORY_ADDRESS vars |} in
        loadIndex vars = Ok env /\
        forall world params,
          readsArtifactFirst (snd (runDeploy world env params))
  end.
Proof.
  unfold firstUnset, required, loadIndex, loadUtils. cbn [find fst snd].
  destruct (unset (var_PRIVATE_KEY vars)) eqn:H1; [reflexivity |].
  destruct (unset (var_OWNER_ADDRESS vars)) eqn:H2; [reflexivity |].
  destruct (unset (var_ARBITRUM_SEPOLIA_RPC_URL vars)) eqn:H3; [reflexivity |].
  destruct (unset (var_BASE_SEPOLIA_RPC_URL vars)) eqn:H4; [reflexivity |].
  cbn [option_map rbind].
  apply unset_false in H1, H2, H3, H4.
  destruct H1 as (c1 & v1 & E1), H2 as (c2 & v2 & E2),
           H3 as (c3 & v3 & E3), H4 as (c4 & v4 & E4).
  exists (c1 :: v1), (c2 :: v2), (c3 :: v3), (c4 :: v4).
  rewrite E1, E2, E3, E4. cbn [valueOf]. cbv zeta.
  repeat (split; [first [reflexivity | discriminate] |]).
  intros world params.
  apply (owner_set_reads_artifact world _ params (c2 :: v2));
    [reflexivity | discriminate].
Qed.

End Loading.

(* ===================================================================== *)
(** * The order of the deployments *)
(* ===================================================================== *)

Ltac deploys_of_trace :=
  unfold deployCallsOf; rewrite ?flat_map_app; cbn [flat_map app];
  rewrite ?app_nil_r; fold deployCallsOf.

Section DeployOrder.
Variable world : World.
Variable env : Env.
Variable params : DeployParams.
Variable OFT_ABI : Abi.
Variable OFT_BYTECODE deployOwner : jsstring.

Local Abbreviation D :=
  (deploymentFor world env params OFT_ABI OFT_BYTECODE deployOwner).
Local Abbreviation ordered :=
  (inOrder world env params OFT_ABI OFT_BYTECODE deployOwner).

Lemma deployAttempt_deploys chain st tr :
  wp (deployAttempt world env params OFT_ABI OFT_BYTECODE deployOwner chain)
     (fun r _ tr' =>
        match r with
        | Ok None =>
            exists call, deployCallsOf tr' = deployCallsOf tr ++ [call] /\ D chain call
        | Ok (Some _) => False
        | Throw _ =>
            deployCallsOf tr' = deployCallsOf tr \/
            exists call, deployCallsOf tr' = deployCallsOf tr ++ [call] /\ D chain call
        end) st tr.
Proof.
  unfold deployAttempt, getSigner, newContract, wait, pushResult, pushData,
    pushSummary.
  wp_steps_trace.
  all: deploys_of_trace.
  all: try (left; reflexivity).
  all: try right.
  all: eexists (_, _, _); (split; [reflexivity |]).
  all: unfold deploymentFor; cbn [target runner signerRpc].
  all: eexists _, _, _; repeat split; eassumption.
Qed.

Lemma deployFailed_deploys chain e st tr :
  wp (deployFailed world env params OFT_ABI OFT_BYTECODE deployOwner chain e)
     (fun r _ tr' =>
        deployCallsOf tr' = deployCallsOf tr /\
        match r with
        | Ok None => False
        | Ok (Some res) => isError res = true
        | Throw _ => True
        end) st tr.
Proof.
  unfold deployFailed, consoleError, pushResult, pushSummary.
  wp_steps_trace.
  all: deploys_of_trace; auto.
Qed.

Lemma peerWith_deploys A B st tr :
  wp (peerWith world A B)
     (fun r _ tr' =>
        deployCallsOf tr' = deployCallsOf tr /\
        match r with
        | Ok (Some res) => isError res = true
        | _ => True
        end) st tr.
Proof.
  unfold peerWith, wait, consoleError, pushResult, pushPeering.
  wp_steps_trace.
  all: deploys_of_trace; auto.
Qed.

Lemma enforceOn_deploys deployed A st tr :
  wp (enforceOn world deployed A)
     (fun r _ tr' =>
        deployCallsOf tr' = deployCallsOf tr /\
        match r with
        | Ok (Some res) => isError res = true
        | _ => True
        end) st tr.
Proof.
  unfold enforceOn, wait, consoleError, pushResult, pushEnforced.
  wp_steps_trace.
  all: deploys_of_trace; auto.
Qed.

Lemma inOrder_prefix pre chain post tr :
  targetChains params = pre ++ chain :: post ->
  Forall2 D pre (deployCallsOf tr) -> ordered false tr.
Proof.
  intros Heq H. exists (length pre). split; [| discriminate].
  rewrite Heq, firstn_app, firstn_all, Nat.sub_diag. cbn [firstn].
  rewrite app_nil_r. exact H.
Qed.

Lemma inOrder_next pre chain post tr call :
  targetChains params = pre ++ chain :: post ->
  Forall2 D pre (deployCallsOf tr) -> D chain call ->
  Forall2 D (pre ++ [chain]) (deployCallsOf tr ++ [call]).
Proof.
  intros Heq H Hcall. apply Forall2_app; [exact H |].
  constructor; [exact Hcall | constructor].
Qed.

Lemma inOrder_all complete tr :
  Forall2 D (targetChains params) (deployCallsOf tr) -> ordered complete tr.
Proof.
  intros H. exists (length (targetChains params)).
  rewrite firstn_all. auto.
Qed.

Lemma afterChecks_inOrder envOwnerAddress st tr :
  deployOwner = deployOwnerOf params envOwnerAddress ->
  deployCallsOf tr = [] ->
  wp (afterChecks world env params OFT_ABI OFT_BYTECODE envOwnerAddress)
     (fun r _ tr' =>
        match r with
        | Ok res => ordered (negb (isError res)) tr'
        | Throw _ => ordered false tr'
        end) st tr.
Proof.
  intros Howner Hnone.
  eapply wp_mono;
    [| apply (afterChecks_rule world env params
                (fun res _ tr' => ordered (negb (isError res)) tr')
                (fun _ _ tr' => ordered false tr')
                OFT_ABI OFT_BYTECODE envOwnerAddress
                (fun pre _ tr' => Forall2 D pre (deployCallsOf tr'))
                (fun _ tr' => Forall2 D (targetChains params) (deployCallsOf tr')))].
  - intros [res | e] st' tr' H; exact H.
  - auto.
  - auto.
  - intros pre chain post st0 tr0 Heq H. rewrite <- Howner.
    unfold deployOnChain, pushResult.
    wp_step. wp_step. forget_state.
    wp_apply deployAttempt_deploys.
    intros [[res |] | e] st' tr' H'; cbn [outcome]; [contradiction | |].
    + destruct H' as (call & -> & Hcall).
      eapply inOrder_next; eauto.
    + eapply wp_mono; [| apply deployFailed_deploys].
      intros r st'' tr'' [Hsame Hr].
      assert (ordered false tr'') as Hin.
      { rewrite <- Hsame in H'. destruct H' as [H' | (call & H' & Hcall)].
        - rewrite <- H' in H. eapply inOrder_prefix; eauto.
        - exists (length (pre ++ [chain])). split; [| discriminate].
          rewrite Heq.
          replace (pre ++ chain :: post) with ((pre ++ [chain]) ++ post)
            by (rewrite <- app_assoc; reflexivity).
          rewrite firstn_app, firstn_all, Nat.sub_diag. cbn [firstn].
          rewrite app_nil_r, H'. eapply inOrder_next; eauto. }
      destruct r as [[res |] | e']; cbn [outcome]; [| contradiction | exact Hin].
      rewrite Hr. exact Hin.
  - auto.
  - intros A B st0 tr0 H. eapply wp_mono; [| apply peerWith_deploys].
    intros [[res |] | e] st' tr' [Hsame Hr]; cbn [outcome].
    + rewrite Hr. apply inOrder_all. rewrite Hsame. exact H.
    + rewrite Hsame. exact H.
    + apply inOrder_all. rewrite Hsame. exact H.
  - intros deployed A st0 tr0 H. eapply wp_mono; [| apply enforceOn_deploys].
    intros [[res |] | e] st' tr' [Hsame Hr]; cbn [outcome].
    + rewrite Hr. apply inOrder_all. rewrite Hsame. exact H.
    + rewrite Hsame. exact H.
    + apply inOrder_all. rewrite Hsame. exact H.
  - intros st0 tr0 H. eapply wp_mono; [| apply reportPhase_spec].
    intros r st' tr' (-> & _ & _ & _ & ->). cbn [answer].
    apply inOrder_all. exact H.
  - rewrite Hnone. constructor.
Qed.

End DeployOrder.

Section DeployOrderRuns.
Variable world : World.
Variable env : Env.
Variable params : DeployParams.

(** The deployments of a request are made in the order of its target
    chains, one for each chain, up to the first that fails.  In every run
    of the deployment handler with the owner address set and the artifact
    read, the deployment calls are those for the first k target chains, in
    order, for some k, which is their number when the result is a report.
    The call for a chain goes to the factory whose address the environment
    gives for that chain, through a signer on that chain, with the salt of
    the token and with the bytecode of the artifact, given its 0x when it
    has none, followed by the constructor arguments: the name, the symbol,
    the supply parsed with no decimals, the endpoint of that chain, and the
    owner of the request or, when it has none, the owner address of the
    environment. *)
Theorem deployments_follow_the_target_chains owner artifact object code :
  OWNER_ADDRESS env = Some owner ->
  readJson world [] oftPath = Ok artifact ->
  bytecode artifact = BytecodeValue object ->
  withPrefix object = Ok code ->
  let '(r, st, tr) := runDeploy world env params in
  exists k,
    Forall2 (deploymentFor world env params (abi artifact) code
                           (deployOwnerOf params owner))
            (firstn k (targetChains params)) (deployCallsOf tr) /\
    (forall res, r = Ok res -> isError res = false ->
       k = length (targetChains params)).
Proof.
  intros Howner Hread Hobject Hcode.
  set (D := deploymentFor world env params (abi artifact) code
                          (deployOwnerOf params owner)).
  assert (wp (deployAndConfigureOftMultichain world env params)
             (answer
                (fun res _ tr =>
                   inOrder world env params (abi artifact) code
                           (deployOwnerOf params owner) (negb (isError res)) tr)
                (fun _ _ tr =>
                   inOrder world env params (abi artifact) code
                           (deployOwnerOf params owner) false tr))
             noLocals []) as H.
  { apply handler_rule.
    - intros _ st _. exists 0%nat. split; [constructor | discriminate].
    - intros; exists 0%nat; split; [constructor | discriminate].
    - intros; exists 0%nat; split; [constructor | discriminate].
    - intros; exists 0%nat; split; [constructor | discriminate].
    - intros; exists 0%nat; split; [constructor | discriminate].
    - intros; exists 0%nat; split; [constructor | discriminate].
    - intros; exists 0%nat; split; [constructor | discriminate].
    - intros owner' artifact' object' code' st _ Howner' _ Hread' Hobject' _ Hcode' _.
      assert (owner' = owner) as -> by congruence.
      assert (artifact' = artifact) as -> by congruence.
      assert (object' = object) as -> by congruence.
      assert (code' = code) as -> by congruence.
      eapply wp_mono; [| apply afterChecks_inOrder; reflexivity].
      intros [res | e] st' tr' H; exact H. }
  unfold wp in H. unfold runDeploy.
  destruct (deployAndConfigureOftMultichain world env params noLocals [])
    as [[[res | e] st] tr]; cbn [answer] in H; destruct H as (k & Hk & Hall);
    exists k; (split; [exact Hk |]).
  - intros res' [= <-] Hres. apply Hall. rewrite Hres. reflexivity.
  - discriminate.
Qed.

End DeployOrderRuns.

Lemma deployments_follow_the_target_chains_witness :
  exists k,
    Forall2 (deploymentFor calm env0 (gamma bothChains) (abi artifact0)
                           (js "0x6080")
                           (js "0x1111111111111111111111111111111111111111"))
            (firstn k bothChains)
            (deployCallsOf (snd (runDeploy calm env0 (gamma bothChains)))) /\
    k = 2%nat.
Proof.
  pose (run := runDeploy calm env0 (gamma bothChains)).
  assert (exists res, run = (Ok res, snd (fst run), snd run) /\ isError res = false)
    as (res & Hrun & Hres) by (eexists; split; vm_compute; reflexivity).
  pose proof (deployments_follow_the_target_chains calm env0 (gamma bothChains)
                (js "0x1111111111111111111111111111111111111111") artifact0
                (ObjectString (js "6080")) (js "0x6080")
                eq_refl eq_refl eq_refl eq_refl) as H.
  fold run in H. rewrite Hrun in H. destruct H as (k & Hk & Hall).
  exists k. split; [exact Hk |]. exact (Hall res eq_refl Hres).
Defined.

(* ===================================================================== *)
(** * Failures and their reports *)
(* ===================================================================== *)

Section Includes.

Lemma startsWith_app p b : startsWith (p ++ b) p = true.
Proof.
  induction p as [| c p IH]; [destruct b; reflexivity |].
  cbn [app startsWith]. rewrite Z.eqb_refl, IH. reflexivity.
Qed.

Lemma includes_startsWith s p : startsWith s p = true -> includes s p = true.
Proof. intros H. destruct s; cbn [includes]; rewrite H; reflexivity. Qed.

Lemma includes_app a s p : includes s p = true -> includes (a ++ s) p = true.
Proof.
  intros H. induction a as [| c a IH]; [exact H |].
  cbn [app includes]. rewrite IH. apply orb_true_r.
Qed.

Lemma includes_middle a p b : includes (a ++ p ++ b) p = true.
Proof. apply includes_app, includes_startsWith, startsWith_app. Qed.

Lemma includes_failure a b :
  includes (a ++ js " FAILURE: " ++ b) (js "FAILURE: ") = true.
Proof.
  change (js " FAILURE: ") with ([32] ++ js "FAILURE: ").
  rewrite <- app_assoc, app_assoc. apply includes_middle.
Qed.


End Includes.

Section Failures.
Variable world : World.
Variable env : Env.
Variable params : DeployParams.
Variable OFT_ABI : Abi.
Variable OFT_BYTECODE deployOwner : jsstring.

(** The [catch] block of phase B reports the failure, unless computing its
    details throws. *)
Lemma deployFailed_reports chain e st tr :
  consoleErrors tr = [] ->
  wp (deployFailed world env params OFT_ABI OFT_BYTECODE deployOwner chain e)
     (fun r st' tr' =>
        match r with
        | Ok None => False
        | Ok (Some res) => failureReported res st' tr'
        | Throw e' =>
            consoleErrors tr' = [] /\
            failureDetails world env params OFT_ABI OFT_BYTECODE deployOwner chain
            = Throw e'
        end) st tr.
Proof.
  intros Hquiet.
  unfold deployFailed, consoleError, pushResult, pushSummary, failureDetails.
  destruct st as [log summary data peering enforced].
  wp_steps.
  all: cbn [rbind].
  all: repeat match goal with
              | H : _ = Ok _ |- _ => rewrite H; cbn [rbind]
              | H : _ = Throw _ |- _ => rewrite H; cbn [rbind]
              end.
  all: try (split; [exact Hquiet | reflexivity]).
  all: unfold failureReported.
  all: eexists _, e, tr, _;
       (split; [unfold cat; cbn [concat]; rewrite app_nil_r; reflexivity |]);
       (split; [reflexivity |]); (split; [exact Hquiet |]);
       cbn [results]; (split; [reflexivity |]).
  all: unfold deployFailureMessage, cat; cbn [concat]; split.
  all: try (change (js "  FAILURE: Deploying on ")
              with (js " " ++ js " FAILURE: " ++ js "Deploying on ");
            rewrite <- !app_assoc; apply includes_failure).
  all: exists (js "  FAILURE: Deploying on " ++ chain ++ js ": "); eexists;
       rewrite <- !app_assoc; reflexivity.
Qed.

Lemma peerWith_reports A B st tr :
  consoleErrors tr = [] ->
  wp (peerWith world A B)
     (fun r st' tr' =>
        match r with
        | Ok None => consoleErrors tr' = []
        | Ok (Some res) => failureReported res st' tr'
        | Throw _ => False
        end) st tr.
Proof.
  intros Hquiet.
  unfold peerWith, wait, consoleError, pushResult, pushPeering.
  destruct st as [log summary data peering enforced].
  wp_steps.
  all: try (calls_of_trace; exact Hquiet).
  all: unfold failureReported.
  all: eexists _, _, _, _;
       (split; [rewrite cat2; reflexivity |]);
       (split; [reflexivity |]);
       (split; [calls_of_trace; exact Hquiet |]);
       cbn [results]; (split; [reflexivity |]).
  all: rewrite cat3; split;
       [ apply includes_failure
       | eexists _, []; rewrite app_nil_r, app_assoc; reflexivity ].
Qed.

Lemma enforceOn_reports deployed A st tr :
  consoleErrors tr = [] ->
  wp (enforceOn world deployed A)
     (fun r st' tr' =>
        match r with
        | Ok None => consoleErrors tr' = []
        | Ok (Some res) => failureReported res st' tr'
        | Throw _ => False
        end) st tr.
Proof.
  intros Hquiet.
  unfold enforceOn, wait, consoleError, pushResult, pushEnforced.
  destruct st as [log summary data peering enforced].
  wp_steps.
  all: try (calls_of_trace; exact Hquiet).
  all: unfold failureReported.
  all: eexists _, _, _, _;
       (split; [rewrite cat2; reflexivity |]);
       (split; [reflexivity |]);
       (split; [calls_of_trace; exact Hquiet |]);
       cbn [results]; (split; [reflexivity |]).
  all: rewrite cat3; split;
       [ apply includes_failure
       | eexists _, []; rewrite app_nil_r, app_assoc; reflexivity ].
Qed.

Lemma afterChecks_failures envOwnerAddress st tr :
  deployOwner = deployOwnerOf params envOwnerAddress ->
  consoleErrors tr = [] ->
  wp (afterChecks world env params OFT_ABI OFT_BYTECODE envOwnerAddress)
     (fun r st' tr' =>
        match r with
        | Ok res => isError res = true -> failureReported res st' tr'
        | Throw e =>
            consoleErrors tr' = [] /\
            thrownByCatch world env params OFT_ABI OFT_BYTECODE deployOwner e
        end) st tr.
Proof.
  intros Howner Hquiet.
  eapply wp_mono;
    [| apply (afterChecks_rule world env params
                (fun res st' tr' => isError res = true -> failureReported res st' tr')
                (fun e _ tr' =>
                   consoleErrors tr' = [] /\
                   thrownByCatch world env params OFT_ABI OFT_BYTECODE deployOwner e)
                OFT_ABI OFT_BYTECODE envOwnerAddress
                (fun _ _ tr' => consoleErrors tr' = [])
                (fun _ tr' => consoleErrors tr' = []))].
  - intros [res | e] st' tr' H; exact H.
  - auto.
  - auto.
  - intros pre chain post st0 tr0 Heq H. rewrite <- Howner.
    unfold deployOnChain, pushResult.
    wp_step. wp_step.
    wp_apply deployAttempt_spec.
    intros [[res |] | e] st' tr' (_ & _ & Hc & H'); cbn [outcome];
      [contradiction | congruence |].
    eapply wp_mono; [| apply deployFailed_reports; congruence].
    intros [[res |] | e'] st'' tr'' H''; cbn [outcome]; [auto | contradiction |].
    destruct H'' as [Hq Hd]. split; [exact Hq |].
    exists chain. split; [rewrite Heq; apply in_elt | exact Hd].
  - auto.
  - intros A B st0 tr0 H. eapply wp_mono; [| apply peerWith_reports; exact H].
    intros [[res |] | e] st' tr' H'; cbn [outcome]; [auto | exact H' | contradiction].
  - intros deployed A st0 tr0 H.
    eapply wp_mono; [| apply enforceOn_reports; exact H].
    intros [[res |] | e] st' tr' H'; cbn [outcome]; [auto | exact H' | contradiction].
  - intros st0 tr0 H. eapply wp_mono; [| apply reportPhase_spec].
    intros r st' tr' (-> & _ & _ & _ & ->). cbn [answer isError]. discriminate.
  - exact Hquiet.
Qed.

End Failures.

Section FailureRuns.
Variable world : World.
Variable env : Env.
Variable params : DeployParams.

Lemma handler_failures :
  wp (deployAndConfigureOftMultichain world env params)
     (fun r st tr =>
        match r with
        | Ok res =>
            isError res = true ->
            refusedByChecks res tr \/ failureReported res st tr
        | Throw e => consoleErrors tr = [] /\ thrownFrom world env params e
        end) noLocals [].
Proof.
  eapply wp_mono;
    [| apply (handler_rule world env params
                (fun res st tr =>
                   isError res = true ->
                   refusedByChecks res tr \/ failureReported res st tr)
                (fun e _ tr => consoleErrors tr = [] /\ thrownFrom world env params e))].
  - intros [res | e] st tr H; exact H.
  - intros _ st _ _. left. split; [auto | split; [constructor | reflexivity]].
  - intros owner e st _ _ _ Hread. split; [reflexivity | left; exact Hread].
  - intros owner artifact e st _ _ _ Hread Hobject.
    split; [reflexivity | right; left].
    exists artifact. rewrite Hobject. auto.
  - intros owner artifact object e st _ _ _ Hread Hobject Htest.
    split; [reflexivity | right; left].
    exists artifact. rewrite Hobject. cbn [objectOf rbind]. rewrite Htest. auto.
  - intros owner artifact object st _ _ _ _ _ _ _. left.
    split; [auto | split; [repeat constructor | reflexivity]].
  - intros owner artifact object e st _ _ _ Hread Hobject Htest Hcode.
    split; [reflexivity | right; left].
    exists artifact. rewrite Hobject. cbn [objectOf rbind]. rewrite Htest. auto.
  - intros owner artifact object code st _ _ _ _ _ _ _ _ _. left.
    split; [auto | split; [repeat constructor | reflexivity]].
  - intros owner artifact object code st _ Howner _ Hread Hobject _ Hcode _.
    eapply wp_mono;
      [| apply (afterChecks_failures world env params (abi artifact)
                  code (deployOwnerOf params owner) owner);
         reflexivity].
    intros [res | e] st' tr' H; cbn [answer].
    + intros Hres. right. exact (H Hres).
    + destruct H as [Hquiet Hcatch]. split; [exact Hquiet |].
      right. right. exists owner, artifact, object, code. auto.
Qed.

(** Every failure of the deployment handler that is answered with an error
    result was reported.  An error result is either one of the three errors
    of the checks of phase A, returned before any call to a chain, or the
    report of a failure of a deployment, of a [setPeer] or of a
    [setEnforcedOptions] call: its text is the failure line, which is the
    last line of the log, holds the word FAILURE and the text of the error
    caught, and was written to the console with that error as the last thing
    the handler did, and the only thing it wrote there. *)
Theorem every_failure_is_reported :
  let '(r, st, tr) := runDeploy world env params in
  forall res, r = Ok res -> isError res = true ->
    refusedByChecks res tr \/ failureReported res st tr.
Proof.
  pose proof handler_failures as H. unfold wp in H. unfold runDeploy.
  destruct (deployAndConfigureOftMultichain world env params noLocals [])
    as [[r st] tr].
  intros res -> Hres. exact (H Hres).
Qed.

(** The deployment handler throws only where it has no report to give.  An
    error it throws comes from the reading of the artifact; from the
    properties that phase A reads of the artifact, which is the case when
    the artifact has no bytecode, when its ABI or the object of its bytecode
    is [null], or when that object is neither a string nor [false] nor [0];
    or from the [catch] block of phase B, which encodes the constructor
    arguments and computes the salt once more and throws when that fails.
    Nothing is then written to the console.  So when the artifact is read,
    phase A can read of it what it reads, and the details of a failure can
    be computed for every target chain, the handler returns a result. *)
Theorem handler_throws_only_without_a_report :
  let '(r, st, tr) := runDeploy world env params in
  (forall e, r = Throw e -> consoleErrors tr = [] /\ thrownFrom world env params e) /\
  (forall owner artifact object unusable code,
      OWNER_ADDRESS env = Some owner ->
      readJson world [] oftPath = Ok artifact ->
      bytecode artifact = BytecodeValue object ->
      artifactUnusable (abi artifact) object = Ok unusable ->
      withPrefix object = Ok code ->
      (forall chain, In chain (targetChains params) ->
         isOk (failureDetails world env params (abi artifact) code
                              (deployOwnerOf params owner) chain) = true) ->
      exists res, r = Ok res).
Proof.
  pose proof handler_failures as H. unfold wp in H. unfold runDeploy.
  destruct (deployAndConfigureOftMultichain world env params noLocals [])
    as [[r st] tr].
  split.
  - intros e ->. exact H.
  - intros owner artifact object unusable code Howner Hread Hobject Htest Hcode
      Hdetails.
    destruct r as [res | e]; [eauto |].
    destruct H as [_ [Hr | [(artifact' & Hr & Hthrow) | Hcatch]]].
    + congruence.
    + assert (artifact' = artifact) as -> by congruence.
      rewrite Hobject in Hthrow. cbn [objectOf rbind] in Hthrow.
      rewrite Htest in Hthrow. cbn [rbind] in Hthrow.
      destruct unusable; [discriminate | congruence].
    + destruct Hcatch
        as (owner' & artifact' & object' & code' & Ho & Hr & Hc & Hp & chain & Hin & Hd).
      assert (owner' = owner) as -> by congruence.
      assert (artifact' = artifact) as -> by congruence.
      assert (object' = object) as -> by congruence.
      assert (code' = code) as -> by congruence.
      specialize (Hdetails chain Hin). rewrite Hd in Hdetails. discriminate.
Qed.

End FailureRuns.

Lemma every_failure_is_reported_witness :
  exists res st tr,
    runDeploy peerReverts env0 (gamma bothChains) = (Ok res, st, tr) /\
    (refusedByChecks res tr \/ failureReported res st tr).
Proof.
  pose (run := runDeploy peerReverts env0 (gamma bothChains)).
  assert (exists res, run = (Ok res, snd (fst run), snd run) /\ isError res = true)
    as (res & Hrun & Hres) by (eexists; split; vm_compute; reflexivity).
  pose proof (every_failure_is_reported peerReverts env0 (gamma bothChains)) as H.
  fold run in H. rewrite Hrun in H.
  exists res, (snd (fst run)), (snd run). split; [exact Hrun |].
  exact (H res eq_refl Hres).
Defined.

Lemma handler_throws_only_without_a_report_witness :
  exists res, fst (fst (runDeploy calm env0 (gamma bothChains))) = Ok res.
Proof.
  pose proof (handler_throws_only_without_a_report calm env0 (gamma bothChains)) as H.
  destruct (runDeploy calm env0 (gamma bothChains)) as [[r st] tr].
  destruct H as [_ H].
  apply (H (js "0x1111111111111111111111111111111111111111") artifact0
           (ObjectString (js "6080")) false (js "0x6080")
           eq_refl eq_refl eq_refl eq_refl eq_refl).
  intros chain [<- | [<- | []]]; vm_compute; reflexivity.
Defined.

(** An artifact whose ABI is [null]: the test of phase A reads the length of
    the ABI and throws, after the artifact was read and before anything
    else is done. *)
Example null_abi_makes_the_handler_throw :
  let '(r, st, tr) := runDeploy nullAbi env0 (gamma bothChains) in
  r = Throw (cannotRead (js "null") (js "length")) /\
  tr = [ReadFile oftPath] /\
  deployedContractsSummary st = [].
Proof. vm_compute. repeat split. Qed.

(* ===================================================================== *)
(** * Calls that fail *)
(* ===================================================================== *)

Section FailedCalls.
Variable world : World.
Variable env : Env.

Lemma Unfailed_position tr :
  Unfailed world env tr ->
  forall pre ev post, tr = pre ++ ev :: post -> failedWith world env pre ev = None.
Proof.
  induction 1 as [| tr last Htr IH Hlast]; intros pre ev post Heq.
  - destruct pre; discriminate.
  - destruct (split_snoc _ _ _ _ _ Heq) as [(-> & -> & ->) | (post' & -> & ->)].
    + exact Hlast.
    + exact (IH _ _ _ eq_refl).
Qed.

(** In a run that stops at the first call that fails, a call that failed is
    followed by nothing, or by the report of the failure on the console
    alone. *)
Lemma stopsAtFailure_position r tr :
  stopsAtFailure world env r tr ->
  forall pre ev post e,
    tr = pre ++ ev :: post -> failedWith world env pre ev = Some e ->
    (post = [] /\ configures pre ev = false /\ exists e', r = Throw e') \/
    (exists msg head tail,
        post = [ConsoleError msg e] /\
        r = Ok (errorResult (js "Error: Failed to Deploy OFT: " ++ msg)) /\
        msg = head ++ errText e ++ tail).
Proof.
  intros [Hclean | (pre0 & ev0 & e0 & Hpre & Hfail & H)] pre ev post e Heq Hev.
  - rewrite (Unfailed_position tr Hclean pre ev post Heq) in Hev. discriminate.
  - destruct H as [(-> & Hconf & Hthrow) | (msg & head & tail & -> & Hr & Hmsg)].
    + destruct (split_snoc _ _ _ _ _ Heq) as [(-> & -> & ->) | (post' & -> & ->)].
      * left. auto.
      * rewrite (Unfailed_position _ Hpre pre ev post' eq_refl) in Hev. discriminate.
    + change (pre0 ++ [ev0; ConsoleError msg e0])
        with (pre0 ++ [ev0] ++ [ConsoleError msg e0]) in Heq.
      rewrite app_assoc in Heq.
      destruct (split_snoc _ _ _ _ _ Heq) as [(-> & -> & ->) | (post' & -> & Heq')].
      * discriminate.
      * destruct (split_snoc _ _ _ _ _ Heq') as [(-> & -> & ->) | (post'' & -> & ->)].
        -- rewrite Hfail in Hev. injection Hev as ->.
           right. exists msg, head, tail. auto.
        -- rewrite (Unfailed_position _ Hpre pre ev post'' eq_refl) in Hev.
           discriminate.
Qed.

End FailedCalls.

(** The answer to a call that is written out, from what is known of it. *)
Ltac failed_with :=
  cbn [failedWith failure];
  first [ reflexivity
        | match goal with
          | H : _ = Ok _ |- _ => rewrite H; reflexivity
          | H : _ = Throw _ |- _ => rewrite H; reflexivity
          end ].

(** No call of a trace that is written out failed, when none of the trace
    before it did. *)
Ltac unfailed :=
  repeat first
    [ assumption
    | apply unfailed_nil
    | apply unfailed_call; [| failed_with] ].

(** The last call of a trace that is written out failed, and no call before
    it. *)
Ltac failed_last :=
  eexists _, _; split; [reflexivity |]; split; [solve [unfailed] |];
  split; [failed_with |]; cbn [configures]; rewrite ?rev_unit; reflexivity.

Section FailFast.
Variable world : World.
Variable env : Env.
Variable params : DeployParams.
Variable OFT_ABI : Abi.
Variable OFT_BYTECODE deployOwner : jsstring.

(** The [try] block of phase B makes its calls up to the first that
    fails, which is no call that configures the mesh. *)
Lemma deployAttempt_stops chain st tr :
  Unfailed world env tr ->
  wp (deployAttempt world env params OFT_ABI OFT_BYTECODE deployOwner chain)
     (fun r _ tr' =>
        match r with
        | Ok _ => Unfailed world env tr'
        | Throw e =>
            Unfailed world env tr' \/
            exists pre ev,
              tr' = pre ++ [ev] /\ Unfailed world env pre /\
              failedWith world env pre ev = Some e /\ configures pre ev = false
        end) st tr.
Proof.
  intros Htr.
  unfold deployAttempt, getSigner, newContract, wait, pushResult, pushData,
    pushSummary.
  wp_steps_trace.
  all: first [ solve [unfailed] | left; solve [unfailed] | right; failed_last ].
Qed.

(** The body of the loop of phase B. *)
Lemma deployOnChain_stops chain st tr :
  Unfailed world env tr ->
  wp (deployOnChain world env params OFT_ABI OFT_BYTECODE deployOwner chain)
     (outcome (fun _ tr' => Unfailed world env tr')
              (fun res _ tr' => stopsAtFailure world env (Ok res) tr')
              (fun e _ tr' => stopsAtFailure world env (Throw e) tr')) st tr.
Proof.
  intros Htr. unfold deployOnChain, pushResult.
  wp_step. wp_step. forget_state.
  wp_apply deployAttempt_stops; [| exact Htr].
  intros [[res |] | e] st' tr' H; cbn [outcome]; [left; exact H | exact H |].
  eapply wp_mono; [| apply deployFailed_spec].
  intros [[res |] | e'] st'' tr'' [_ H']; cbn [outcome]; [| contradiction |].
  - destruct H' as (salt & code & -> & -> & _).
    destruct H as [Hclean | (pre & ev & -> & Hpre & Hfail & Hconf)].
    + left. unfailed.
    + right. exists pre, ev, e. split; [exact Hpre |]. split; [exact Hfail |].
      right. exists (deployFailureMessage chain e salt code).
      exists (js "  FAILURE: Deploying on " ++ chain ++ js ": "). eexists.
      split; [rewrite <- app_assoc; reflexivity |]. split; [reflexivity |].
      unfold deployFailureMessage, cat. cbn [concat].
      rewrite <- !app_assoc. reflexivity.
  - destruct H' as [-> _].
    destruct H as [Hclean | (pre & ev & -> & Hpre & Hfail & Hconf)].
    + left. exact Hclean.
    + right. exists pre, ev, e. split; [exact Hpre |]. split; [exact Hfail |].
      left. eauto.
Qed.

End FailFast.

(** A failure that phase C or phase D reports: the call that failed is the
    last but for the console, and the error returned holds the text of the
    error. *)
Ltac reported_last :=
  right; eexists _, _, _;
  (split; [| split; [| right; eexists _, _, [];
                       split; [rewrite <- app_assoc; reflexivity |] ]]);
  [ solve [unfailed]
  | failed_with
  | split; [rewrite cat2; reflexivity
           | rewrite cat3, app_nil_r, app_assoc; reflexivity] ].

Section FailFastRuns.
Variable world : World.
Variable env : Env.

Lemma peerWith_stops A B st tr :
  Unfailed world env tr ->
  wp (peerWith world A B)
     (outcome (fun _ tr' => Unfailed world env tr')
              (fun res _ tr' => stopsAtFailure world env (Ok res) tr')
              (fun e _ tr' => stopsAtFailure world env (Throw e) tr')) st tr.
Proof.
  intros Htr.
  unfold peerWith, wait, consoleError, pushResult, pushPeering.
  wp_steps_trace.
  all: cbn [outcome].
  all: first [ solve [unfailed] | left; solve [unfailed] | reported_last ].
Qed.

Lemma enforceOn_stops deployed A st tr :
  Unfailed world env tr ->
  wp (enforceOn world deployed A)
     (outcome (fun _ tr' => Unfailed world env tr')
              (fun res _ tr' => stopsAtFailure world env (Ok res) tr')
              (fun e _ tr' => stopsAtFailure world env (Throw e) tr')) st tr.
Proof.
  intros Htr.
  unfold enforceOn, wait, consoleError, pushResult, pushEnforced.
  wp_steps_trace.
  all: cbn [outcome].
  all: first [ solve [unfailed] | left; solve [unfailed] | reported_last ].
Qed.

Lemma afterChecks_stops params OFT_ABI OFT_BYTECODE envOwnerAddress st tr :
  Unfailed world env tr ->
  wp (afterChecks world env params OFT_ABI OFT_BYTECODE envOwnerAddress)
     (fun r _ tr' => stopsAtFailure world env r tr') st tr.
Proof.
  intros Htr.
  eapply wp_mono;
    [| apply (afterChecks_rule world env params
                (fun res _ tr' => stopsAtFailure world env (Ok res) tr')
                (fun e _ tr' => stopsAtFailure world env (Throw e) tr')
                OFT_ABI OFT_BYTECODE envOwnerAddress
                (fun _ _ tr' => Unfailed world env tr')
                (fun _ tr' => Unfailed world env tr'))].
  - intros [res | e] st' tr' H; exact H.
  - auto.
  - auto.
  - intros pre chain post st0 tr0 _ H. apply deployOnChain_stops. exact H.
  - auto.
  - intros A B st0 tr0 H. apply peerWith_stops. exact H.
  - intros deployed A st0 tr0 H. apply enforceOn_stops. exact H.
  - intros st0 tr0 H. eapply wp_mono; [| apply reportPhase_spec].
    intros r st' tr' (-> & _). destruct r; left; exact H.
  - exact Htr.
Qed.

(** Every run of the deployment handler stops at the first call that
    fails. *)
Lemma handler_stops params :
  wp (deployAndConfigureOftMultichain world env params)
     (fun r _ tr => stopsAtFailure world env r tr) noLocals [].
Proof.
  assert (forall artifact,
             readJson world [] oftPath = Ok artifact ->
             Unfailed world env [ReadFile oftPath]) as Hread.
  { intros artifact H. change [ReadFile oftPath] with ([] ++ [ReadFile oftPath]).
    unfailed. }
  eapply wp_mono;
    [| apply (handler_rule world env params
                (fun res _ tr => stopsAtFailure world env (Ok res) tr)
                (fun e _ tr => stopsAtFailure world env (Throw e) tr))].
  - intros [res | e] st tr H; exact H.
  - intros _ st _. left. constructor.
  - intros owner e st _ _ _ H. right. exists [], (ReadFile oftPath), e.
    split; [constructor |]. split; [cbn [failedWith]; rewrite H; reflexivity |].
    left. eauto.
  - intros. left. eauto.
  - intros. left. eauto.
  - intros. left. eauto.
  - intros. left. eauto.
  - intros. left. eauto.
  - intros owner artifact object code st _ _ _ H _ _ _ _.
    eapply wp_mono; [| apply afterChecks_stops; eauto].
    intros [res | e] st' tr' H'; exact H'.
Qed.

(** What the trace of a run says of a call that failed. *)
Lemma failed_call_ends_the_run params pre ev post e :
  let '(r, st, tr) := runDeploy world env params in
  tr = pre ++ ev :: post -> failedWith world env pre ev = Some e ->
  (post = [] /\ configures pre ev = false /\ exists e', r = Throw e') \/
  (exists msg head tail,
      post = [ConsoleError msg e] /\
      r = Ok (errorResult (js "Error: Failed to Deploy OFT: " ++ msg)) /\
      msg = head ++ errText e ++ tail).
Proof.
  pose proof (handler_stops params) as H. unfold wp in H. unfold runDeploy.
  destruct (deployAndConfigureOftMultichain world env params noLocals [])
    as [[r st] tr].
  intros Heq Hfail.
  exact (stopsAtFailure_position world env r tr H pre ev post e Heq Hfail).
Qed.

End FailFastRuns.

(* ===================================================================== *)
(** * The mesh, and the calls that configure it *)
(* ===================================================================== *)

(** C2, amended.  When a deployment request on two or more pairwise distinct
    chains runs to a report, that is, when no deployment, [setPeer] or
    [setEnforcedOptions] call fails, one contract per target chain was
    deployed, in order, each with the endpoint id of its chain; the
    [setPeer] calls are exactly the mesh, one call for every ordered pair of
    deployed contracts on different chains, with the second's endpoint id
    and its address in peer format, N (N - 1) calls in all; and there is
    exactly one [setEnforcedOptions] call per deployed contract, in order,
    carrying N - 1 entries, one for each other contract, with that
    contract's endpoint id, message type 1 and the standard options, whose
    last sixteen bytes are the number 200000.  And in every run, a [setPeer]
    or [setEnforcedOptions] call that fails, or the wait for its
    transaction, ends the request at once: nothing is done after it but
    writing the failure to the console, and the handler returns the error
    result that carries the text of the error of the call. *)
Theorem mesh_of_a_successful_run world env params r st tr :
  runDeploy world env params = (r, st, tr) ->
  (forall res,
      r = Ok res ->
      isError res = false ->
      NoDup (targetChains params) ->
      (2 <= length (targetChains params))%nat ->
      let deployed := deployedContractsData st in
      let N := length (targetChains params) in
      map Data.chainName deployed = targetChains params /\
      Forall (fun d => exists network,
                  getNetworkConfig env (Data.chainName d) = Ok network /\
                  Data.lzEid d = lzEid network) deployed /\
      setPeerCalls tr = meshCalls deployed /\
      length (setPeerCalls tr) = (N * (N - 1))%nat /\
      setEnforcedCalls tr =
      map (fun A => (Data.contractInstance A, optionsFor A deployed)) deployed /\
      length (setEnforcedCalls tr) = N /\
      Forall (fun A =>
                length (optionsFor A deployed) = (N - 1)%nat /\
                optionsFor A deployed =
                map (fun B => {| eid := Data.lzEid B; msgType := 1;
                                 options := standardOptionsHex |})
                    (filter (onOtherChain A) deployed)) deployed /\
      exists bs,
        getBytes standardOptionsHex = Ok bs /\ bigEndian (skipn 6 bs) = 200000) /\
  (forall pre ev post e,
      tr = pre ++ ev :: post ->
      configures pre ev = true ->
      failedWith world env pre ev = Some e ->
      exists msg head tail,
        post = [ConsoleError msg e] /\
        r = Ok (errorResult (js "Error: Failed to Deploy OFT: " ++ msg)) /\
        msg = head ++ errText e ++ tail).
Proof.
  intros Hrun. split.
  - intros res -> Hres Hnd Hlen.
    exact (successful_run_mesh world env params res st tr Hrun Hres Hnd Hlen).
  - intros pre ev post e Htr Hconf Hfail.
    pose proof (failed_call_ends_the_run world env params pre ev post e) as H.
    rewrite Hrun in H.
    destruct (H Htr Hfail) as [(_ & Hno & _) | Hreported].
    + rewrite Hconf in Hno. discriminate.
    + exact Hreported.
Qed.

Lemma mesh_of_a_successful_run_witness :
  (let tr := snd (runDeploy calm env0 (gamma bothChains)) in
   length (setPeerCalls tr) = 2%nat /\ length (setEnforcedCalls tr) = 2%nat) /\
  (let '(r, _, tr) := runDeploy peerReverts env0 (gamma bothChains) in
   exists c peerEid peer msg,
     nth_error tr 11 = Some (SetPeer c peerEid peer) /\
     skipn 12 tr = [ConsoleError msg rpcError] /\
     r = Ok (errorResult (js "Error: Failed to Deploy OFT: " ++ msg))).
Proof.
  split.
  - pose (run := runDeploy calm env0 (gamma bothChains)).
    assert (run = (fst (fst run), snd (fst run), snd run)) as Hrun
      by (vm_compute; reflexivity).
    assert (exists res, fst (fst run) = Ok res /\ isError res = false)
      as (res & Hres & Hok) by (eexists; split; vm_compute; reflexivity).
    assert (NoDup (targetChains (gamma bothChains))) as Hnd.
    { repeat constructor; cbn; intuition discriminate. }
    assert (2 <= length (targetChains (gamma bothChains)))%nat as Hlen by (cbn; lia).
    destruct (mesh_of_a_successful_run calm env0 (gamma bothChains) _ _ _ Hrun)
      as [Hmesh _].
    destruct (Hmesh res Hres Hok Hnd Hlen) as (_ & _ & _ & Hpeers & _ & Henforced & _).
    split; [exact Hpeers | exact Henforced].
  - pose (run := runDeploy peerReverts env0 (gamma bothChains)).
    assert (run = (fst (fst run), snd (fst run), snd run)) as Hrun
      by (vm_compute; reflexivity).
    assert (exists c peerEid peer,
               nth_error (snd run) 11 = Some (SetPeer c peerEid peer))
      as (c & peerEid & peer & Hnth)
      by (vm_compute; eexists _, _, _; reflexivity).
    assert (snd run = firstn 11 (snd run) ++ SetPeer c peerEid peer :: skipn 12 (snd run))
      as Hsplit.
    { apply (f_equal (fun o => match o with Some ev => ev | None => ConsoleError [] rpcError end))
        in Hnth.
      cbv beta iota in Hnth. rewrite <- Hnth. vm_compute. reflexivity. }
    assert (failedWith peerReverts env0 (firstn 11 (snd run)) (SetPeer c peerEid peer)
            = Some rpcError) as Hfail.
    { apply (f_equal (fun o => match o with Some ev => ev | None => ConsoleError [] rpcError end))
        in Hnth.
      cbv beta iota in Hnth. rewrite <- Hnth. vm_compute. reflexivity. }
    destruct (mesh_of_a_successful_run peerReverts env0 (gamma bothChains) _ _ _ Hrun)
      as [_ Hstops].
    destruct (Hstops _ _ _ _ Hsplit eq_refl Hfail) as (msg & _ & _ & Hpost & Hr & _).
    fold run. rewrite Hrun.
    exists c, peerEid, peer, msg. cbn [fst snd].
    split; [exact Hnth |]. split; [exact Hpost | exact Hr].
Defined.

(* ===================================================================== *)
(** * The report and the records *)
(* ===================================================================== *)

Section Records.
Variable world : World.
Variable env : Env.
Variable params : DeployParams.
Variable OFT_ABI : Abi.
Variable OFT_BYTECODE : jsstring.

Lemma wellRecorded_same st st' :
  sameRecords st st' -> wellRecorded env OFT_ABI st -> wellRecorded env OFT_ABI st'.
Proof. intros [Hs Hd] [H1 H2]. unfold wellRecorded. rewrite Hs, Hd. auto. Qed.

Lemma deployAttempt_records deployOwner chain st tr :
  wellRecorded env OFT_ABI st ->
  wp (deployAttempt world env params OFT_ABI OFT_BYTECODE deployOwner chain)
     (fun r st' _ => r = Ok None -> wellRecorded env OFT_ABI st') st tr.
Proof.
  intros [Hs Hd].
  unfold deployAttempt, getSigner, newContract, wait, pushResult, pushData,
    pushSummary.
  destruct st as [log summary data peering enforced].
  cbn [deployedContractsSummary deployedContractsData] in Hs, Hd.
  wp_steps_log.
  all: try discriminate.
  intros _. unfold wellRecorded.
  cbn [deployedContractsSummary deployedContractsData].
  split.
  - rewrite map_app, Hs. reflexivity.
  - apply Forall_app. split; [exact Hd |].
    constructor; [| constructor]. unfold recorded.
    cbn [Data.chainName Data.networkConfig Data.lzEid Data.contractInstance
         Data.address target interface runner signerRpc].
    auto.
Qed.

Lemma afterChecks_records envOwnerAddress st tr :
  wellRecorded env OFT_ABI st ->
  wp (afterChecks world env params OFT_ABI OFT_BYTECODE envOwnerAddress)
     (fun r st' _ =>
        forall res, r = Ok res -> isError res = false ->
        exists report,
          content res = DeployJson report /\
          deployedContracts report = map summaryOf (deployedContractsData st') /\
          Forall (recorded env OFT_ABI) (deployedContractsData st')) st tr.
Proof.
  intros H0.
  eapply wp_mono;
    [| apply (afterChecks_rule world env params
                (fun res st' _ =>
                   isError res = false ->
                   exists report,
                     content res = DeployJson report /\
                     deployedContracts report
                     = map summaryOf (deployedContractsData st') /\
                     Forall (recorded env OFT_ABI) (deployedContractsData st'))
                (fun _ _ _ => True)
                OFT_ABI OFT_BYTECODE envOwnerAddress
                (fun _ st' _ => wellRecorded env OFT_ABI st')
                (fun st' _ => wellRecorded env OFT_ABI st'))].
  - intros [res | e] st' tr' H; cbn [answer] in H; [| discriminate].
    intros res' [= <-]. exact H.
  - intros pre st1 st2 tr1. apply wellRecorded_same.
  - intros st1 st2 tr1. apply wellRecorded_same.
  - intros pre chain post st0 tr0 _ H.
    unfold deployOnChain, pushResult.
    destruct st0 as [log summary data peering enforced].
    wp_step. wp_step; forget_log.
    apply wp_tryCatch.
    assert (wellRecorded env OFT_ABI (Build_Locals log0 summary data peering enforced))
      as H' by (eapply wellRecorded_same; [| exact H]; same_records).
    pose proof (deployAttempt_records (deployOwnerOf params envOwnerAddress) chain
                  _ tr0 H') as Hrec.
    pose proof (deployAttempt_spec world env params OFT_ABI OFT_BYTECODE
                  (deployOwnerOf params envOwnerAddress) chain
                  (Build_Locals log0 summary data peering enforced) tr0) as Hspec.
    unfold wp in *.
    destruct (deployAttempt world env params OFT_ABI OFT_BYTECODE
                (deployOwnerOf params envOwnerAddress) chain
                (Build_Locals log0 summary data peering enforced) tr0)
      as [[[[res |] | e] st'] tr'].
    + destruct Hspec as (_ & _ & _ & []).
    + cbn [outcome]. apply Hrec. reflexivity.
    + pose proof (deployFailed_spec world env params OFT_ABI OFT_BYTECODE
                    (deployOwnerOf params envOwnerAddress) chain e st' tr') as Hf.
      unfold wp in Hf.
      destruct (deployFailed world env params OFT_ABI OFT_BYTECODE
                  (deployOwnerOf params envOwnerAddress) chain e st' tr')
        as [[[[res |] | e'] st''] tr'']; cbn [outcome]; [| | exact I].
      * destruct Hf as (_ & salt & code & -> & _). discriminate.
      * destruct Hf as [_ []].
  - auto.
  - intros A B st0 tr0 H. eapply wp_mono; [| apply peerWith_spec].
    intros [[res |] | e] st' tr' (Hd & Hs & _ & H'); cbn [outcome].
    + rewrite H'. discriminate.
    + eapply wellRecorded_same; [| exact H]. split; assumption.
    + exact I.
  - intros deployed A st0 tr0 H. eapply wp_mono; [| apply enforceOn_spec].
    intros [[res |] | e] st' tr' (Hd & Hs & _ & H'); cbn [outcome].
    + rewrite H'. discriminate.
    + eapply wellRecorded_same; [| exact H]. split; assumption.
    + exact I.
  - intros st0 tr0 [Hs Hd]. eapply wp_mono; [| apply reportPhase_spec].
    intros r st' tr' (_ & Hd' & Hs' & _ & ->). cbn [answer]. intros _.
    eexists. split; [reflexivity |]. cbn [deployedContracts].
    rewrite Hd'. auto.
  - exact H0.
Qed.

End Records.

Section MeshMembers.

Lemma meshCalls_In deployed c peerEid peer :
  In (c, peerEid, peer) (meshCalls deployed) ->
  exists A B,
    In A deployed /\ In B deployed /\
    Data.chainName A <> Data.chainName B /\
    c = Data.contractInstance A /\ peerEid = Data.lzEid B /\
    peer = formatAddressForLayerZero (Data.address B).
Proof.
  unfold meshCalls, peerCallsFrom. intros H.
  apply in_flat_map in H. destruct H as (A & HA & H).
  apply in_flat_map in H. destruct H as (B & HB & H).
  destruct (jseq (Data.chainName A) (Data.chainName B)) eqn:E; [contradiction |].
  destruct H as [H | []]. injection H as <- <- <-.
  exists A, B. repeat split; auto.
  intros Heq. apply jseq_true in Heq. congruence.
Qed.

Lemma enforcedCalls_In deployed c opts :
  In (c, opts) (enforcedCalls deployed) ->
  exists A,
    In A deployed /\ c = Data.contractInstance A /\
    opts = optionsFor A deployed /\ opts <> [].
Proof.
  unfold enforcedCalls, enforcedCallFor. intros H.
  apply in_flat_map in H. destruct H as (A & HA & H).
  destruct (0 <? length (optionsFor A deployed))%nat eqn:E; [| contradiction].
  destruct H as [H | []]. injection H as <- <-.
  exists A. repeat split; auto.
  intros Hnil. rewrite Hnil in E. discriminate.
Qed.

End MeshMembers.

Section RecordRuns.
Variable world : World.
Variable env : Env.
Variable params : DeployParams.

Lemma handler_records :
  wp (deployAndConfigureOftMultichain world env params)
     (fun r st _ =>
        forall res, r = Ok res -> isError res = false ->
        exists report artifact,
          readJson world [] oftPath = Ok artifact /\
          content res = DeployJson report /\
          deployedContracts report = map summaryOf (deployedContractsData st) /\
          Forall (recorded env (abi artifact)) (deployedContractsData st))
     noLocals [].
Proof.
  eapply wp_mono;
    [| apply (handler_rule world env params
                (fun res st _ =>
                   isError res = false ->
                   exists report artifact,
                     readJson world [] oftPath = Ok artifact /\
                     content res = DeployJson report /\
                     deployedContracts report
                     = map summaryOf (deployedContractsData st) /\
                     Forall (recorded env (abi artifact)) (deployedContractsData st))
                (fun _ _ _ => True))].
  - intros [res | e] st tr H; cbn [answer] in H; [| discriminate].
    intros res' [= <-]. exact H.
  - intros _ st _. discriminate.
  - intros; exact I.
  - intros; exact I.
  - intros; exact I.
  - intros. discriminate.
  - intros; exact I.
  - intros. discriminate.
  - intros owner artifact object code st [Hs0 Hd0] _ _ Hread _ _ _ _.
    eapply wp_mono;
      [| apply (afterChecks_records world env params (abi artifact))].
    + intros [res | e] st' tr' H; cbn [answer]; [| exact I].
      intros Hres. destruct (H res eq_refl Hres) as (report & Hc & Hs & Hd).
      exists report, artifact. auto.
    + unfold wellRecorded. rewrite Hs0, Hd0. split; [reflexivity | constructor].
Qed.

(** The report of a deployment says what was done.  When the handler
    returns a report, one contract was deployed for each target chain, in
    order, and the entries of the report are those contracts: each gives the
    chain, the address deployed to and the status Success.  The contract
    instance kept for each is the token's contract at the address reported,
    through a signer on its chain, and its endpoint id is its chain's.
    Every [setPeer] call was made on the contract of one chain with the
    endpoint id and the padded address, as reported, of the contract of
    another chain, never of the same chain, even when the request names a
    chain twice; and every [setEnforcedOptions] call was made on a deployed
    contract with the options for its peers, which are not empty. *)
Theorem report_says_what_was_done res st tr :
  runDeploy world env params = (Ok res, st, tr) ->
  isError res = false ->
  exists report artifact,
    let deployed := deployedContractsData st in
    content res = DeployJson report /\
    readJson world [] oftPath = Ok artifact /\
    map Data.chainName deployed = targetChains params /\
    deployedContracts report = map summaryOf deployed /\
    Forall (recorded env (abi artifact)) deployed /\
    (forall c peerEid peer,
        In (SetPeer c peerEid peer) tr ->
        exists A B,
          In A deployed /\ In B deployed /\
          Data.chainName A <> Data.chainName B /\
          c = Data.contractInstance A /\ peerEid = Data.lzEid B /\
          formatAddressForLayerZero (Data.address B) = Ok peer) /\
    (forall c opts,
        In (SetEnforcedOptions c opts) tr ->
        exists A,
          In A deployed /\ c = Data.contractInstance A /\
          opts = optionsFor A deployed /\ opts <> []).
Proof.
  intros Hrun Hres.
  destruct (wp_run _ _ _ _ _ _ _ Hrun handler_records res eq_refl Hres)
    as (report & artifact & Hread & Hcontent & Hsummary & Hrecorded).
  destruct (successful_run world env params res st tr Hrun Hres)
    as (_ & (ds & ss & Hd & Hon & _) & Hp & He & _).
  cbn [noLocals deployedContractsData app] in Hd.
  exists report, artifact. cbv zeta.
  split; [exact Hcontent |]. split; [exact Hread |].
  split; [rewrite Hd; eapply deployedOn_chains; exact Hon |].
  split; [exact Hsummary |]. split; [exact Hrecorded |]. split.
  - intros c peerEid peer Hin.
    assert (In (c, peerEid, Ok peer) (setPeerCalls tr)) as Hcall.
    { unfold setPeerCalls. apply in_flat_map.
      exists (SetPeer c peerEid peer). split; [exact Hin | left; reflexivity]. }
    rewrite Hp in Hcall.
    destruct (meshCalls_In _ _ _ _ Hcall) as (A & B & HA & HB & Hne & -> & -> & Hf).
    exists A, B. auto 10.
  - intros c opts Hin.
    assert (In (c, opts) (setEnforcedCalls tr)) as Hcall.
    { unfold setEnforcedCalls. apply in_flat_map.
      exists (SetEnforcedOptions c opts). split; [exact Hin | left; reflexivity]. }
    rewrite He in Hcall. apply enforcedCalls_In. exact Hcall.
Qed.

End RecordRuns.

Lemma report_says_what_was_done_witness :
  exists report res st tr,
    runDeploy calm env0 (gamma bothChains) = (Ok res, st, tr) /\
    content res = DeployJson report /\
    deployedContracts report = map summaryOf (deployedContractsData st) /\
    map Data.chainName (deployedContractsData st) = bothChains.
Proof.
  pose (run := runDeploy calm env0 (gamma bothChains)).
  assert (exists res, run = (Ok res, snd (fst run), snd run) /\ isError res = false)
    as (res & Hrun & Hres) by (eexists; split; vm_compute; reflexivity).
  destruct (report_says_what_was_done calm env0 (gamma bothChains) res
              (snd (fst run)) (snd run) Hrun Hres)
    as (report & artifact & Hcontent & _ & Hchains & Hsummary & _).
  exists report, res, (snd (fst run)), (snd run).
  split; [exact Hrun |]. split; [exact Hcontent |].
  split; [exact Hsummary | exact Hchains].
Defined.

(* ===================================================================== *)
(** * The code deployed *)
(* ===================================================================== *)

Section DeployedCode.

Lemma startsWith_0x object :
  startsWith object (js "0x") = true -> object = js "0x" ++ skipn 2 object.
Proof.
  destruct object as [| a [| b rest]]; cbn [startsWith js map list_ascii_of_string];
    try discriminate.
  - rewrite andb_false_r. discriminate.
  - change (Z.of_N (N_of_ascii "0")) with 48.
    change (Z.of_N (N_of_ascii "x")) with 120.
    intros H. apply andb_true_iff in H. destruct H as [Ha H].
    apply andb_true_iff in H. destruct H as [Hb _].
    apply Z.eqb_eq in Ha, Hb. subst. reflexivity.
Qed.

Lemma getBytes_0x digits : getBytes (js "0x" ++ digits) =
  match hexPairs digits with
  | Some bs => Ok bs
  | None => Throw invalidBytesLike
  end.
Proof. reflexivity. Qed.

Lemma prefixed_digits object :
  prefixed object = js "0x" ++ digitsOfBytecode object.
Proof.
  unfold prefixed, digitsOfBytecode.
  destruct (startsWith object (js "0x")) eqn:E; [| reflexivity].
  apply startsWith_0x. exact E.
Qed.

(** The code of a deployment is the bytecode of the artifact followed by
    the constructor arguments, byte for byte, whether the artifact writes
    its bytecode with the prefix 0x or without it.  The bytecode the handler
    works with, which is the string of the artifact unless that is empty,
    always has the prefix, and giving it the prefix twice changes
    nothing. *)
Theorem deployed_code_is_bytecode_then_arguments (object constructorArgs code : jsstring) :
  solidityPacked2 (prefixed object) constructorArgs = Ok code ->
  startsWith (prefixed object) (js "0x") = true /\
  prefixed (prefixed object) = prefixed object /\
  (object <> [] -> withPrefix (ObjectString object) = Ok (prefixed object)) /\
  exists bytecodeBytes argumentBytes,
    hexPairs (digitsOfBytecode object) = Some bytecodeBytes /\
    getBytes constructorArgs = Ok argumentBytes /\
    code = hexlify (bytecodeBytes ++ argumentBytes) /\
    getBytes code = Ok (bytecodeBytes ++ argumentBytes).
Proof.
  intros H.
  assert (startsWith (prefixed object) (js "0x") = true) as Hprefix
    by (rewrite prefixed_digits; apply startsWith_app).
  split; [exact Hprefix |]. split; [| split].
  - unfold prefixed at 1. rewrite Hprefix. reflexivity.
  - intros Hne. unfold withPrefix, prefixed.
    destruct object as [| c object]; [contradiction |].
    cbn [length Nat.ltb Nat.leb andb].
    destruct (startsWith (c :: object) (js "0x")); reflexivity.
  - unfold solidityPacked2 in H. rewrite prefixed_digits, getBytes_0x in H.
    destruct (hexPairs (digitsOfBytecode object)) as [bs |] eqn:Hbs;
      [| discriminate].
    cbn [rbind] in H.
    destruct (getBytes constructorArgs) as [args |] eqn:Hargs; [| discriminate].
    cbn [rbind] in H. injection H as <-.
    exists bs, args. repeat split.
    apply getBytes_hexlify, Forall_app. split.
    + eapply hexPairs_bytes. exact Hbs.
    + eapply getBytes_bytes. exact Hargs.
Qed.

Lemma deployed_code_is_bytecode_then_arguments_witness :
  exists bytecodeBytes argumentBytes,
    hexPairs (js "6080") = Some bytecodeBytes /\
    getBytes (js "0xc0de") = Ok argumentBytes /\
    js "0x6080c0de" = hexlify (bytecodeBytes ++ argumentBytes).
Proof.
  destruct (deployed_code_is_bytecode_then_arguments
              (js "6080") (js "0xc0de") (js "0x6080c0de") eq_refl)
    as (_ & _ & _ & bs & args & Hbs & Hargs & Hcode & _).
  exists bs, args. split; [exact Hbs |]. split; [exact Hargs | exact Hcode].
Defined.

End DeployedCode.

(* ===================================================================== *)
(** * A supply that cannot be parsed *)
(* ===================================================================== *)

Section UnparsableSupply.
Variable world : World.
Variable env : Env.
Variable params : DeployParams.

Lemma deployOnChain_unparsable OFT_ABI OFT_BYTECODE deployOwner chain network
    address e st tr :
  getNetworkConfig env chain = Ok network ->
  walletAddress world (PRIVATE_KEY env) (rpc network) = Ok address ->
  interfaceError world OFT_ABI = None ->
  parseUnits (initialTotalSupply params) 0 = Throw e ->
  wp (deployOnChain world env params OFT_ABI OFT_BYTECODE deployOwner chain)
     (fun r st' tr' =>
        r = Throw e /\ tr' = tr ++ [NewWallet (rpc network)] /\
        deployedContractsSummary st' = deployedContractsSummary st) st tr.
Proof.
  intros Hnetwork Hwallet Habi Hsupply.
  unfold deployOnChain, deployAttempt, deployFailed, getSigner, pushResult.
  destruct st as [log summary data peering enforced].
  repeat (wp_step; forget_log; try discriminate;
          repeat match goal with
                 | H : Ok ?x = Ok ?y |- _ => injection H as H; try subst x; try subst y
                 | H : Throw ?x = Throw ?y |- _ =>
                     injection H as H; try subst x; try subst y
                 end).
  all: repeat split.
Qed.

(** A supply that cannot be parsed with no decimals makes the deployment
    handler throw, whatever the chains answer.  When the checks of phase A
    pass, the wallet for the first target chain is made and the ABI of the
    artifact is accepted, the error of [parseUnits] is thrown by the
    handler, which returns no error result: the [try] block throws it, and
    the [catch] block parses the supply again before it reports.  The
    artifact was read and the wallet made, and nothing else was done. *)
Theorem unparsable_supply_makes_the_handler_throw
    owner artifact object code chain rest network address e :
  OWNER_ADDRESS env = Some owner -> owner <> [] ->
  readJson world [] oftPath = Ok artifact ->
  bytecode artifact = BytecodeValue object ->
  artifactUnusable (abi artifact) object = Ok false ->
  withPrefix object = Ok code ->
  targetChains params = chain :: rest ->
  getNetworkConfig env chain = Ok network ->
  walletAddress world (PRIVATE_KEY env) (rpc network) = Ok address ->
  interfaceError world (abi artifact) = None ->
  parseUnits (initialTotalSupply params) 0 = Throw e ->
  exists st,
    runDeploy world env params
    = (Throw e, st, [ReadFile oftPath; NewWallet (rpc network)]) /\
    deployedContractsSummary st = [].
Proof.
  intros Howner Hne Hread Hobject Husable Hcode Hchains Hnetwork Hwallet Habi Hsupply.
  assert (wp (deployAndConfigureOftMultichain world env params)
             (answer (fun _ _ _ => False)
                     (fun e' st tr =>
                        e' = e /\ tr = [ReadFile oftPath; NewWallet (rpc network)] /\
                        deployedContractsSummary st = [])) noLocals []) as H.
  { apply handler_rule.
    - intros Hmissing. exfalso. revert Hmissing. apply (owner_is_set env owner); assumption.
    - intros; congruence.
    - intros owner' artifact' e' st _ _ _ Hread' Hobject'.
      assert (artifact' = artifact) as -> by congruence.
      rewrite Hobject in Hobject'. discriminate.
    - intros; congruence.
    - intros; congruence.
    - intros; congruence.
    - intros; congruence.
    - intros owner' artifact' object' code' st [Hs0 _] Howner' _ Hread' Hcode' _ _ _.
      assert (artifact' = artifact) as -> by congruence.
      unfold afterChecks, deploymentPhase, pushResult. rewrite Hchains.
      destruct st as [log summary data peering enforced].
      cbn [deployedContractsSummary noLocals] in Hs0. subst summary.
      repeat (wp_step; forget_log).
      cbn [forOf]. wp_step.
      eapply wp_mono;
        [| apply (deployOnChain_unparsable _ _ _ chain network address e);
           assumption].
      intros r st' tr' (-> & -> & Hs). cbn [answer]. auto. }
  apply wp_outcome in H. destruct H as (r & st & tr & Hrun & H).
  destruct r as [res | e']; cbn [answer] in H; [contradiction |].
  destruct H as (-> & -> & Hst). exists st. split; [exact Hrun | exact Hst].
Qed.

End UnparsableSupply.

Lemma unparsable_supply_makes_the_handler_throw_witness :
  exists st,
    runDeploy calm env0
      {| tokenName := js "Gamma"; tokenSymbol := js "GMA";
         initialTotalSupply := js "1.5"; decimals := 18;
         targetChains := bothChains; owner := None |}
    = (Throw (numericFault "too many decimals for format"), st,
       [ReadFile oftPath; NewWallet (js "https://arb.example")]) /\
    deployedContractsSummary st = [].
Proof.
  refine (unparsable_supply_makes_the_handler_throw calm env0
            {| tokenName := js "Gamma"; tokenSymbol := js "GMA";
               initialTotalSupply := js "1.5"; decimals := 18;
               targetChains := bothChains; owner := None |}
            (js "0x1111111111111111111111111111111111111111") artifact0
            (ObjectString (js "6080")) (js "0x6080")
            (js "ArbitrumSepolia") [js "baseSepolia"]
            {| name := js "ArbitrumSepolia"; rpc := js "https://arb.example";
               chainId := 421614;
               lzEndpoint := js "0x6EDCE65403992e310A62460808c4b910D972f10f";
               lzEid := 40231 |}
            (js "0x2222222222222222222222222222222222222222")
            (numericFault "too many decimals for format")
            eq_refl _ eq_refl eq_refl eq_refl eq_refl eq_refl eq_refl eq_refl eq_refl
            eq_refl).
  discriminate.
Defined.
